(** * A shallow embedding of the sd-bus object tree (src/libsystemd-bus/bus-objects.c)

    The node store, the two member indices, the registration API, the
    dispatch engine [bus_process_object] with its restart loop, and the
    PropertiesChanged emitter.  User code (node callbacks, method
    handlers, property getters and setters, find resolvers and node
    enumerators) is a parameter [ext] of the development: it sees the bus
    and answers with a return value, an optional error name and the
    registration calls it makes, which are then run through the modelled
    registration API. *)

From Stdlib Require Import ZArith String Ascii List Bool Lia.
Import ListNotations.

Open Scope Z_scope.

(** ** Error numbers and constants used by the file *)

Definition ENXIO : Z := 6.
Definition ECHILD : Z := 10.
Definition ENOMEM : Z := 12.
Definition EEXIST : Z := 17.
Definition EINVAL : Z := 22.
Definition EDOM : Z := 33.
Definition ENODATA : Z := 61.
Definition EPROTOTYPE : Z := 91.
Definition ENOTCONN : Z := 107.
Definition ENOENT : Z := 2.
Definition CAP_SYS_ADMIN : Z := 21.

Definition SD_BUS_ERROR_ACCESS_DENIED : string := "org.freedesktop.DBus.Error.AccessDenied".
Definition SD_BUS_ERROR_INVALID_ARGS : string := "org.freedesktop.DBus.Error.InvalidArgs".
Definition SD_BUS_ERROR_UNKNOWN_METHOD : string := "org.freedesktop.DBus.Error.UnknownMethod".
Definition SD_BUS_ERROR_UNKNOWN_PROPERTY : string := "org.freedesktop.DBus.Error.UnknownProperty".
Definition SD_BUS_ERROR_UNKNOWN_INTERFACE : string := "org.freedesktop.DBus.Error.UnknownInterface".
Definition SD_BUS_ERROR_PROPERTY_READ_ONLY : string := "org.freedesktop.DBus.Error.PropertyReadOnly".
Definition SD_BUS_ERROR_FAILED : string := "org.freedesktop.DBus.Error.Failed".

Definition IFACE_PROPERTIES : string := "org.freedesktop.DBus.Properties".
Definition IFACE_INTROSPECTABLE : string := "org.freedesktop.DBus.Introspectable".
Definition IFACE_PEER : string := "org.freedesktop.DBus.Peer".
Definition IFACE_OBJECT_MANAGER : string := "org.freedesktop.DBus.ObjectManager".

(** ** Vtable flags

    Modelled from the spec: sd-bus-vtable.h is not in src/.  The flags
    word carries the boolean flags in its low bits and the capability tag
    (capability number plus one, 0 meaning the interface default) in a
    16-bit field whose low bit is bit 40. *)

Definition SD_BUS_VTABLE_DEPRECATED : Z := Z.shiftl 1 0.
Definition SD_BUS_VTABLE_HIDDEN : Z := Z.shiftl 1 1.
Definition SD_BUS_VTABLE_UNPRIVILEGED : Z := Z.shiftl 1 2.
Definition SD_BUS_VTABLE_METHOD_NO_REPLY : Z := Z.shiftl 1 3.
Definition SD_BUS_VTABLE_PROPERTY_CONST : Z := Z.shiftl 1 4.
Definition SD_BUS_VTABLE_PROPERTY_EMITS_CHANGE : Z := Z.shiftl 1 5.
Definition SD_BUS_VTABLE_PROPERTY_INVALIDATE_ONLY : Z := Z.shiftl 1 6.
Definition _SD_BUS_VTABLE_CAPABILITY_MASK : Z := Z.shiftl 65535 40.
Definition SD_BUS_VTABLE_CAPABILITY (x : Z) : Z := Z.shiftl (Z.land (x + 1) 65535) 40.

(** [CAPABILITY_SHIFT(x)]: the shift is the count of trailing zeros of
    the mask, 40. *)
Definition CAPABILITY_SHIFT (x : Z) : Z := Z.land (Z.shiftr x 40) 65535.

Definition has_flag (flags f : Z) : bool := negb (Z.eqb (Z.land flags f) 0).

(** ** Vtables *)

Inductive vtable_type :=
| _SD_BUS_VTABLE_START
| _SD_BUS_VTABLE_END
| _SD_BUS_VTABLE_METHOD
| _SD_BUS_VTABLE_SIGNAL
| _SD_BUS_VTABLE_PROPERTY
| _SD_BUS_VTABLE_WRITABLE_PROPERTY.

Definition vtable_type_eqb (a b : vtable_type) : bool :=
  match a, b with
  | _SD_BUS_VTABLE_START, _SD_BUS_VTABLE_START
  | _SD_BUS_VTABLE_END, _SD_BUS_VTABLE_END
  | _SD_BUS_VTABLE_METHOD, _SD_BUS_VTABLE_METHOD
  | _SD_BUS_VTABLE_SIGNAL, _SD_BUS_VTABLE_SIGNAL
  | _SD_BUS_VTABLE_PROPERTY, _SD_BUS_VTABLE_PROPERTY
  | _SD_BUS_VTABLE_WRITABLE_PROPERTY, _SD_BUS_VTABLE_WRITABLE_PROPERTY => true
  | _, _ => false
  end.

(** One [sd_bus_vtable] entry.  The union [x] is flattened: [member],
    [signature] and [result] serve the method, property and signal
    variants; [handler] is the method handler or the property getter,
    [set] the property setter (function pointers as identities);
    [element_size] is the START entry's ABI check and [offset] the
    property's offset into the userdata. *)
Record sd_bus_vtable := mkVtableEntry {
  type : vtable_type;
  flags : Z;
  member : string;
  signature : string;
  result : string;
  handler : option nat;
  set : option nat;
  element_size : Z;
  offset : Z;
}.

Definition sizeof_sd_bus_vtable : Z := 40.

(** A caller-owned vtable array: its address and its entries, START first. *)
Record vtable_ref := mkVtable {
  vt_ptr : nat;
  vt_entries : list sd_bus_vtable;
}.

(** [for (v = vtable+1; v->type != _SD_BUS_VTABLE_END; v++)] *)
Fixpoint until_end (l : list sd_bus_vtable) : list sd_bus_vtable :=
  match l with
  | [] => []
  | v :: l' => if vtable_type_eqb (type v) _SD_BUS_VTABLE_END then [] else v :: until_end l'
  end.

Definition vtable_body (vt : vtable_ref) : list sd_bus_vtable :=
  match vt_entries vt with
  | [] => []
  | _ :: l => until_end l
  end.

Definition empty_entry : sd_bus_vtable :=
  mkVtableEntry _SD_BUS_VTABLE_END 0 "" "" "" None None 0 0.

(** [vtable[0]] *)
Definition vtable_start (vt : vtable_ref) : sd_bus_vtable :=
  match vt_entries vt with
  | [] => empty_entry
  | v :: _ => v
  end.

(** ** Registrations, nodes and the bus *)

Record node_callback := mkNodeCallback {
  cb_id : nat;              (* the allocation *)
  cb_callback : nat;        (* handler function *)
  cb_userdata : nat;
  cb_is_fallback : bool;
  cb_last_iteration : nat;
}.

Record node_vtable := mkNodeVtable {
  nv_id : nat;
  nv_is_fallback : bool;
  nv_interface : string;
  nv_vtable : vtable_ref;
  nv_userdata : Z;
  nv_find : option nat;
}.

Record node_enumerator := mkNodeEnumerator {
  ne_callback : nat;
  ne_userdata : nat;
}.

(** A [vtable_member] of the method or property index.  [vm_parent] is
    the registration it points back to (its fields never change after
    registration, so a copy is kept), [vm_vtable] its vtable entry. *)
Record vtable_member := mkVtableMember {
  vm_id : nat;
  vm_path : string;
  vm_interface : string;
  vm_member : string;
  vm_parent : node_vtable;
  vm_vtable : sd_bus_vtable;
  vm_last_iteration : nat;
}.

Record node := mkNode {
  n_path : string;
  n_parent : option string;
  n_child : list string;
  n_callbacks : list node_callback;
  n_vtables : list node_vtable;
  n_enumerators : list node_enumerator;
  n_object_manager : bool;
}.

(** Arguments of an incoming message, as far as the engine reads them. *)
Inductive arg :=
| AStr (s : string)
| AVariant (sig : string) (v : Z)
| AOther.

Inductive msg_type := METHOD_CALL | METHOD_RETURN | METHOD_ERROR | SIGNAL.

(** What the sender's credentials reveal when queried. *)
Record sender_info := mkSender {
  s_uid : Z;
  s_effective_caps : list Z;
}.

Record sd_bus_message := mkMessage {
  m_type : msg_type;
  m_path : string;
  m_interface : option string;
  m_member : string;
  m_signature : string;
  m_args : list arg;
  m_sender : Z + sender_info;    (* inl: the credential query fails with this code *)
}.

(** Payloads of the replies the engine builds. *)
Inductive payload :=
| PEmpty
| PValue (v : Z)
| PDict (d : list (string * Z))
| PIntrospect (has_object_manager : bool) (ifaces : list string) (children : list string)
| PManaged (objs : list (string * list (string * list (string * Z)))).

(** Messages handed to [sd_bus_send]. *)
Inductive out :=
| OError (name : string)
| OReturn (p : payload)
| OPropertiesChanged (path iface : string) (changed : list (string * Z)) (invalidated : list string)
| OInterfacesAdded (path : string) (ifaces : list (string * list (string * Z)))
| OInterfacesRemoved (path : string) (ifaces : list string).

(** Invocations of user code, as recorded by the model. *)
Inductive tag :=
| TCallback (rec : nat)
| TMethod (rec : nat)
| TGet (rec : nat)
| TSet (rec : nat)
| TOther.

Record bus := mkBus {
  nodes : list node;
  vtable_methods : list vtable_member;
  vtable_properties : list vtable_member;
  nodes_modified : bool;
  iteration_counter : nat;
  trusted : bool;
  is_kernel : bool;
  is_open : bool;
  pid_changed : bool;
  self_uid : Z;
  next_id : nat;
  sent : list out;
  trace : list tag;
}.

(** ** Field updates *)

Definition with_nodes (ns : list node) (b : bus) : bus :=
  mkBus ns (vtable_methods b) (vtable_properties b) (nodes_modified b) (iteration_counter b)
        (trusted b) (is_kernel b) (is_open b) (pid_changed b) (self_uid b) (next_id b) (sent b) (trace b).
Definition with_methods (l : list vtable_member) (b : bus) : bus :=
  mkBus (nodes b) l (vtable_properties b) (nodes_modified b) (iteration_counter b)
        (trusted b) (is_kernel b) (is_open b) (pid_changed b) (self_uid b) (next_id b) (sent b) (trace b).
Definition with_properties (l : list vtable_member) (b : bus) : bus :=
  mkBus (nodes b) (vtable_methods b) l (nodes_modified b) (iteration_counter b)
        (trusted b) (is_kernel b) (is_open b) (pid_changed b) (self_uid b) (next_id b) (sent b) (trace b).
Definition with_modified (x : bool) (b : bus) : bus :=
  mkBus (nodes b) (vtable_methods b) (vtable_properties b) x (iteration_counter b)
        (trusted b) (is_kernel b) (is_open b) (pid_changed b) (self_uid b) (next_id b) (sent b) (trace b).
Definition with_next_id (x : nat) (b : bus) : bus :=
  mkBus (nodes b) (vtable_methods b) (vtable_properties b) (nodes_modified b) (iteration_counter b)
        (trusted b) (is_kernel b) (is_open b) (pid_changed b) (self_uid b) x (sent b) (trace b).
Definition with_sent (x : list out) (b : bus) : bus :=
  mkBus (nodes b) (vtable_methods b) (vtable_properties b) (nodes_modified b) (iteration_counter b)
        (trusted b) (is_kernel b) (is_open b) (pid_changed b) (self_uid b) (next_id b) x (trace b).
Definition with_trace (x : list tag) (b : bus) : bus :=
  mkBus (nodes b) (vtable_methods b) (vtable_properties b) (nodes_modified b) (iteration_counter b)
        (trusted b) (is_kernel b) (is_open b) (pid_changed b) (self_uid b) (next_id b) (sent b) x.

Definition with_callbacks (l : list node_callback) (n : node) : node :=
  mkNode (n_path n) (n_parent n) (n_child n) l (n_vtables n) (n_enumerators n) (n_object_manager n).
Definition with_vtables (l : list node_vtable) (n : node) : node :=
  mkNode (n_path n) (n_parent n) (n_child n) (n_callbacks n) l (n_enumerators n) (n_object_manager n).
Definition with_enumerators (l : list node_enumerator) (n : node) : node :=
  mkNode (n_path n) (n_parent n) (n_child n) (n_callbacks n) (n_vtables n) l (n_object_manager n).
Definition with_object_manager (x : bool) (n : node) : node :=
  mkNode (n_path n) (n_parent n) (n_child n) (n_callbacks n) (n_vtables n) (n_enumerators n) x.
Definition with_child (l : list string) (n : node) : node :=
  mkNode (n_path n) (n_parent n) l (n_callbacks n) (n_vtables n) (n_enumerators n) (n_object_manager n).

(** ** A state monad with the C function's early [return], [assert]
    failure ([Crash]) and exhausted loop fuel ([Diverge]) *)

Inductive res (A : Type) : Type :=
| Go (a : A)
| Ret (r : Z)
| Crash
| Diverge.
Arguments Go {A} a.
Arguments Ret {A} r.
Arguments Crash {A}.
Arguments Diverge {A}.

Definition ST (S A : Type) : Type := S -> res A * S.

Definition mret {S A} (a : A) : ST S A := fun s => (Go a, s).

Definition mbind {S A B} (m : ST S A) (k : A -> ST S B) : ST S B :=
  fun s =>
    match m s with
    | (Go a, s') => k a s'
    | (Ret r, s') => (Ret r, s')
    | (Crash, s') => (Crash, s')
    | (Diverge, s') => (Diverge, s')
    end.

(** C's [return r]. *)
Definition return_ {S A} (r : Z) : ST S A := fun s => (Ret r, s).

Definition crash {S A} : ST S A := fun s => (Crash, s).
Definition diverge {S A} : ST S A := fun s => (Diverge, s).

(** A function boundary: an early [return r] of the callee is its value. *)
Definition call {S} (m : ST S Z) : ST S Z :=
  fun s =>
    match m s with
    | (Go r, s') | (Ret r, s') => (Go r, s')
    | (Crash, s') => (Crash, s')
    | (Diverge, s') => (Diverge, s')
    end.

Definition get {S} : ST S S := fun s => (Go s, s).
Definition put {S} (s : S) : ST S unit := fun _ => (Go tt, s).
Definition modify {S} (f : S -> S) : ST S unit := fun s => (Go tt, f s).

Declare Scope st_scope.
Delimit Scope st_scope with st.
Notation "x <- m ;; k" := (mbind m (fun x => k))
  (at level 61, m at next level, right associativity) : st_scope.
Notation "' p <- m ;; k" := (mbind m (fun x => match x with p => k end))
  (at level 61, p pattern, m at next level, right associativity) : st_scope.
Notation "m ;;; k" := (mbind m (fun _ => k))
  (at level 61, right associativity) : st_scope.
Open Scope st_scope.

(** Registration code runs on the bus alone; the dispatcher also carries
    the caller's [found_object] flag, passed by pointer in the C code. *)
Definition RM := ST bus.
Definition DM := ST (bus * bool).

Definition lift {A} (m : RM A) : DM A :=
  fun '(b, f) => let '(r, b') := m b in (r, (b', f)).

Definition get_bus : DM bus := fun s => (Go (fst s), s).
Definition modify_bus (g : bus -> bus) : DM unit := fun '(b, f) => (Go tt, (g b, f)).
Definition get_found : DM bool := fun s => (Go (snd s), s).
Definition set_found : DM unit := fun '(b, _) => (Go tt, (b, true)).

(** ** Strings and object paths *)

Definition streq (a b : string) : bool := String.eqb a b.

Definition isempty (s : string) : bool := String.eqb s "".

Definition first_char (s : string) : ascii :=
  match s with
  | EmptyString => Ascii.zero
  | String c _ => c
  end.

Fixpoint strrchr_slash_aux (s : string) (i : nat) (acc : option nat) : option nat :=
  match s with
  | EmptyString => acc
  | String c s' => strrchr_slash_aux s' (S i) (if Ascii.eqb c "/"%char then Some i else acc)
  end.

(** [strrchr(s, '/')], as an index. *)
Definition strrchr_slash (s : string) : option nat := strrchr_slash_aux s 0 None.

(** Modelled from the spec: OBJECT_PATH_FOREACH_PREFIX (bus-internal.h,
    not in src/) visits every proper prefix of a path, longest first,
    down to and including "/": the prefix is cut at its last slash, a
    slash in first position being kept. *)
Fixpoint object_path_prefixes_aux (fuel : nat) (p : string) : list string :=
  match fuel with
  | O => []
  | S fuel' =>
      if streq p "/" then []
      else match strrchr_slash p with
           | None => []
           | Some i => let q := substring 0 (Nat.max 1 i) p in
                       q :: object_path_prefixes_aux fuel' q
           end
  end.

Definition object_path_prefixes (p : string) : list string :=
  object_path_prefixes_aux (String.length p) p.

(** Modelled from the spec: object_path_startswith (bus-internal.c, not
    in src/): [a] lies at or below [prefix]. *)
Definition char_at (i : nat) (s : string) : ascii :=
  match String.get i s with Some c => c | None => Ascii.zero end.

Definition object_path_startswith (a prefix : string) : bool :=
  streq prefix "/" ||
  (String.prefix prefix a &&
   (Nat.eqb (String.length a) (String.length prefix) ||
    Ascii.eqb (char_at (String.length prefix) a) "/"%char)).

(** ** External validators

    The object-path, interface, member and signature validators and the
    basic-type test live outside src/ (bus-internal.c, bus-signature.c,
    bus-type.c); the development is generic in them. *)

Record validators := mkValidators {
  object_path_is_valid : string -> bool;
  interface_name_is_valid : string -> bool;
  member_name_is_valid : string -> bool;
  signature_is_valid : string -> bool;
  signature_is_single : string -> bool;
  bus_type_is_basic : ascii -> bool;
}.

(** ** Lists of the node store and of the member indices *)

Fixpoint node_get (ns : list node) (p : string) : option node :=
  match ns with
  | [] => None
  | n :: ns' => if streq (n_path n) p then Some n else node_get ns' p
  end.

(** [hashmap_get(bus->nodes, p)] *)
Definition hashmap_get_node (b : bus) (p : string) : option node := node_get (nodes b) p.

Definition node_update (p : string) (f : node -> node) (ns : list node) : list node :=
  map (fun n => if streq (n_path n) p then f n else n) ns.

Definition update_node (p : string) (f : node -> node) : RM unit :=
  modify (fun b => with_nodes (node_update p f (nodes b)) b).

Definition node_remove (p : string) (ns : list node) : list node :=
  filter (fun n => negb (streq (n_path n) p)) ns.

Fixpoint remove_first {A} (p : A -> bool) (l : list A) : list A :=
  match l with
  | [] => []
  | x :: l' => if p x then l' else x :: remove_first p l'
  end.

Definition key_eqb (path interface member : string) (v : vtable_member) : bool :=
  streq (vm_path v) path && streq (vm_interface v) interface && streq (vm_member v) member.

(** [hashmap_get] on an index keyed by (path, interface, member). *)
Definition hashmap_get_member (l : list vtable_member) (path interface member : string)
  : option vtable_member :=
  find (key_eqb path interface member) l.

(** [hashmap_remove] by key. *)
Definition hashmap_remove_member (l : list vtable_member) (path interface member : string)
  : list vtable_member :=
  remove_first (key_eqb path interface member) l.

Definition is_some {A} (o : option A) : bool := match o with Some _ => true | None => false end.

(** A fresh allocation. *)
Definition new_id : RM nat :=
  fun b => (Go (next_id b), with_next_id (S (next_id b)) b).

Section Registration.

Variable V : validators.

(** ** bus_node_allocate

    [p = strndupa(path, MAX(1, path - e))] with [e] the last slash: as
    written, [path - e] is never positive, so [p] is the first character
    of [path]. *)
Fixpoint bus_node_allocate_aux (fuel : nat) (path : string) : RM string :=
  match fuel with
  | O => diverge
  | S fuel' =>
      b <- get ;;
      match hashmap_get_node b path with
      | Some n => mret (n_path n)
      | None =>
          parent <- (if streq path "/" then mret None
                     else match strrchr_slash path with
                          | None => crash
                          | Some i =>
                              let p := substring 0 (Z.to_nat (Z.max 1 (0 - Z.of_nat i))) path in
                              q <- bus_node_allocate_aux fuel' p ;;
                              mret (Some q)
                          end) ;;
          modify (fun b => with_nodes (mkNode path parent [] [] [] [] false :: nodes b) b) ;;;
          (match parent with
           | Some q => update_node q (fun pn => with_child (path :: n_child pn) pn)
           | None => mret tt
           end) ;;;
          mret path
      end
  end.

Definition bus_node_allocate (path : string) : RM string :=
  bus_node_allocate_aux (S (String.length path)) path.

(** ** bus_node_gc *)
Definition node_is_empty (n : node) : bool :=
  match n_child n, n_callbacks n, n_vtables n, n_enumerators n with
  | [], [], [], [] => negb (n_object_manager n)
  | _, _, _, _ => false
  end.

Fixpoint bus_node_gc_aux (fuel : nat) (p : option string) : RM unit :=
  match fuel with
  | O => diverge
  | S fuel' =>
      match p with
      | None => mret tt
      | Some path =>
          b <- get ;;
          match hashmap_get_node b path with
          | None => mret tt
          | Some n =>
              if negb (node_is_empty n) then mret tt
              else
                modify (fun b => with_nodes (node_remove path (nodes b)) b) ;;;
                (match n_parent n with
                 | Some q => update_node q (fun pn => with_child (remove_first (streq path) (n_child pn)) pn)
                 | None => mret tt
                 end) ;;;
                bus_node_gc_aux fuel' (n_parent n)
          end
      end
  end.

Definition bus_node_gc (path : string) : RM unit :=
  fun b => bus_node_gc_aux (S (length (nodes b))) (Some path) b.

(** ** Node callbacks *)

Definition bus_add_object (fallback : bool) (path : string) (callback userdata : nat) : RM Z :=
  call (
    b <- get ;;
    if negb (object_path_is_valid V path) then return_ (- EINVAL) else
    if pid_changed b then return_ (- ECHILD) else
    n <- bus_node_allocate path ;;
    c <- new_id ;;
    update_node n (fun nd =>
      with_callbacks (mkNodeCallback c callback userdata fallback 0 :: n_callbacks nd) nd) ;;;
    modify (with_modified true) ;;;
    mret 0).

Definition callback_matches (fallback : bool) (callback userdata : nat) (c : node_callback) : bool :=
  Nat.eqb (cb_callback c) callback && Nat.eqb (cb_userdata c) userdata && Bool.eqb (cb_is_fallback c) fallback.

Definition bus_remove_object (fallback : bool) (path : string) (callback userdata : nat) : RM Z :=
  call (
    b <- get ;;
    if negb (object_path_is_valid V path) then return_ (- EINVAL) else
    if pid_changed b then return_ (- ECHILD) else
    match hashmap_get_node b path with
    | None => return_ 0
    | Some n =>
        match find (callback_matches fallback callback userdata) (n_callbacks n) with
        | None => return_ 0
        | Some _ =>
            update_node path (fun nd =>
              with_callbacks (remove_first (callback_matches fallback callback userdata) (n_callbacks nd)) nd) ;;;
            bus_node_gc path ;;;
            modify (with_modified true) ;;;
            mret 1
        end
    end).

Definition sd_bus_add_object (path : string) (callback userdata : nat) : RM Z :=
  bus_add_object false path callback userdata.
Definition sd_bus_add_fallback (prefix : string) (callback userdata : nat) : RM Z :=
  bus_add_object true prefix callback userdata.
Definition sd_bus_remove_object (path : string) (callback userdata : nat) : RM Z :=
  bus_remove_object false path callback userdata.
Definition sd_bus_remove_fallback (prefix : string) (callback userdata : nat) : RM Z :=
  bus_remove_object true prefix callback userdata.

(** ** Vtables *)

Definition free_node_vtable (np : string) (w : node_vtable) : RM unit :=
  modify (fun b0 =>
    fold_left (fun b v =>
      match type v with
      | _SD_BUS_VTABLE_METHOD =>
          with_methods (hashmap_remove_member (vtable_methods b) np (nv_interface w) (member v)) b
      | _SD_BUS_VTABLE_PROPERTY | _SD_BUS_VTABLE_WRITABLE_PROPERTY =>
          with_properties (hashmap_remove_member (vtable_properties b) np (nv_interface w) (member v)) b
      | _ => b
      end) (until_end (vt_entries (nv_vtable w))) b0).

(** The scan of the node's vtables before registering: mixing fallback
    and non-fallback is refused, the same vtable twice is refused, and
    the last vtable of the same interface is remembered. *)
Fixpoint scan_vtables (fallback : bool) (interface : string) (vtable : vtable_ref)
         (l : list node_vtable) (existing : option nat) : Z + option nat :=
  match l with
  | [] => inr existing
  | i :: l' =>
      if negb (Bool.eqb (nv_is_fallback i) fallback) then inl (- EPROTOTYPE)
      else if streq (nv_interface i) interface then
             if Nat.eqb (vt_ptr (nv_vtable i)) (vt_ptr vtable) then inl (- EEXIST)
             else scan_vtables fallback interface vtable l' (Some (nv_id i))
           else scan_vtables fallback interface vtable l' existing
  end.

(** [hashmap_put]: refused with -EEXIST when the key is taken. *)
Definition hashmap_put_member (l : list vtable_member) (m : vtable_member) : Z + list vtable_member :=
  match hashmap_get_member l (vm_path m) (vm_interface m) (vm_member m) with
  | Some _ => inl (- EEXIST)
  | None => inr (m :: l)
  end.

Definition method_entry_invalid (v : sd_bus_vtable) : bool :=
  negb (member_name_is_valid V (member v)) ||
  negb (signature_is_valid V (signature v)) ||
  negb (signature_is_valid V (result v)) ||
  negb (is_some (handler v) || (isempty (signature v) && isempty (result v))) ||
  has_flag (flags v) (Z.lor SD_BUS_VTABLE_PROPERTY_EMITS_CHANGE SD_BUS_VTABLE_PROPERTY_INVALIDATE_ONLY).

Definition writable_entry_invalid (v : sd_bus_vtable) : bool :=
  negb (is_some (set v) || bus_type_is_basic V (first_char (signature v))).

Definition property_entry_invalid (v : sd_bus_vtable) : bool :=
  negb (member_name_is_valid V (member v)) ||
  negb (signature_is_single V (signature v)) ||
  negb (is_some (handler v) || bus_type_is_basic V (first_char (signature v)) || streq (signature v) "as") ||
  has_flag (flags v) SD_BUS_VTABLE_METHOD_NO_REPLY ||
  (has_flag (flags v) SD_BUS_VTABLE_PROPERTY_INVALIDATE_ONLY &&
   negb (has_flag (flags v) SD_BUS_VTABLE_PROPERTY_EMITS_CHANGE)) ||
  (has_flag (flags v) SD_BUS_VTABLE_UNPRIVILEGED && vtable_type_eqb (type v) _SD_BUS_VTABLE_PROPERTY).

Definition signal_entry_invalid (v : sd_bus_vtable) : bool :=
  negb (member_name_is_valid V (member v)) ||
  negb (signature_is_valid V (signature v)) ||
  has_flag (flags v) SD_BUS_VTABLE_UNPRIVILEGED.

Definition add_property_member (np : string) (c : node_vtable) (v : sd_bus_vtable) : RM Z :=
  if property_entry_invalid v then mret (- EINVAL) else
  mid <- new_id ;;
  b <- get ;;
  match hashmap_put_member (vtable_properties b)
          (mkVtableMember mid np (nv_interface c) (member v) c v 0) with
  | inl r => mret r
  | inr l => put (with_properties l b) ;;; mret 0
  end.

(** The validation and indexing loop over [vtable+1 .. END]. *)
Fixpoint add_members (np : string) (c : node_vtable) (l : list sd_bus_vtable) : RM Z :=
  match l with
  | [] => mret 0
  | v :: l' =>
      r <- (match type v with
            | _SD_BUS_VTABLE_METHOD =>
                if method_entry_invalid v then mret (- EINVAL) else
                mid <- new_id ;;
                b <- get ;;
                match hashmap_put_member (vtable_methods b)
                        (mkVtableMember mid np (nv_interface c) (member v) c v 0) with
                | inl r => mret r
                | inr l => put (with_methods l b) ;;; mret 0
                end
            | _SD_BUS_VTABLE_WRITABLE_PROPERTY =>
                if writable_entry_invalid v then mret (- EINVAL)
                else add_property_member np c v
            | _SD_BUS_VTABLE_PROPERTY => add_property_member np c v
            | _SD_BUS_VTABLE_SIGNAL =>
                if signal_entry_invalid v then mret (- EINVAL) else mret 0
            | _ => mret (- EINVAL)
            end) ;;
      if r <? 0 then mret r else add_members np c l'
  end.

(** [LIST_INSERT_AFTER(vtables, n->vtables, existing, c)]; with no
    [existing] the new vtable goes to the head. *)
Fixpoint insert_after (existing : nat) (c : node_vtable) (l : list node_vtable) : list node_vtable :=
  match l with
  | [] => []
  | i :: l' => if Nat.eqb (nv_id i) existing then i :: c :: l' else i :: insert_after existing c l'
  end.

Definition list_insert_after (existing : option nat) (c : node_vtable) (l : list node_vtable) :=
  match existing with
  | None => c :: l
  | Some e => insert_after e c l
  end.

Definition reserved_interface (interface : string) : bool :=
  streq interface IFACE_PROPERTIES || streq interface IFACE_INTROSPECTABLE ||
  streq interface IFACE_PEER || streq interface IFACE_OBJECT_MANAGER.

Definition add_object_vtable_internal (path interface : string) (vtable : vtable_ref)
           (fallback : bool) (find_cb : option nat) (userdata : Z) : RM Z :=
  call (
    b <- get ;;
    if negb (object_path_is_valid V path) then return_ (- EINVAL) else
    if negb (interface_name_is_valid V interface) then return_ (- EINVAL) else
    if negb (vtable_type_eqb (type (vtable_start vtable)) _SD_BUS_VTABLE_START) then return_ (- EINVAL) else
    if negb (Z.eqb (element_size (vtable_start vtable)) sizeof_sd_bus_vtable) then return_ (- EINVAL) else
    if pid_changed b then return_ (- ECHILD) else
    if reserved_interface interface then return_ (- EINVAL) else
    n <- bus_node_allocate path ;;
    b <- get ;;
    let vts := match hashmap_get_node b n with Some nd => n_vtables nd | None => [] end in
    match scan_vtables fallback interface vtable vts None with
    | inl r => bus_node_gc n ;;; return_ r
    | inr existing =>
        cid <- new_id ;;
        let c := mkNodeVtable cid fallback interface vtable userdata find_cb in
        r <- add_members n c (vtable_body vtable) ;;
        if r <? 0 then free_node_vtable n c ;;; bus_node_gc n ;;; return_ r
        else
          update_node n (fun nd => with_vtables (list_insert_after existing c (n_vtables nd)) nd) ;;;
          modify (with_modified true) ;;;
          mret 0
    end).

Definition vtable_matches (interface : string) (fallback : bool) (vtable : vtable_ref)
           (find : option nat) (userdata : Z) (c : node_vtable) : bool :=
  streq (nv_interface c) interface && Bool.eqb (nv_is_fallback c) fallback &&
  Nat.eqb (vt_ptr (nv_vtable c)) (vt_ptr vtable) &&
  match nv_find c, find with
  | None, None => true
  | Some x, Some y => Nat.eqb x y
  | _, _ => false
  end && Z.eqb (nv_userdata c) userdata.

Definition remove_object_vtable_internal (path interface : string) (vtable : vtable_ref)
           (fallback : bool) (find_cb : option nat) (userdata : Z) : RM Z :=
  call (
    b <- get ;;
    if negb (object_path_is_valid V path) then return_ (- EINVAL) else
    if negb (interface_name_is_valid V interface) then return_ (- EINVAL) else
    if pid_changed b then return_ (- ECHILD) else
    match hashmap_get_node b path with
    | None => return_ 0
    | Some n =>
        match find (vtable_matches interface fallback vtable find_cb userdata) (n_vtables n) with
        | None => return_ 0
        | Some c =>
            update_node path (fun nd =>
              with_vtables (remove_first (vtable_matches interface fallback vtable find_cb userdata) (n_vtables nd)) nd) ;;;
            free_node_vtable path c ;;;
            bus_node_gc path ;;;
            modify (with_modified true) ;;;
            mret 1
        end
    end).

Definition sd_bus_add_object_vtable (path interface : string) (vtable : vtable_ref) (userdata : Z) : RM Z :=
  add_object_vtable_internal path interface vtable false None userdata.
Definition sd_bus_remove_object_vtable (path interface : string) (vtable : vtable_ref) (userdata : Z) : RM Z :=
  remove_object_vtable_internal path interface vtable false None userdata.
Definition sd_bus_add_fallback_vtable (path interface : string) (vtable : vtable_ref)
           (find : option nat) (userdata : Z) : RM Z :=
  add_object_vtable_internal path interface vtable true find userdata.
Definition sd_bus_remove_fallback_vtable (path interface : string) (vtable : vtable_ref)
           (find : option nat) (userdata : Z) : RM Z :=
  remove_object_vtable_internal path interface vtable true find userdata.

(** ** Node enumerators and object managers *)

Definition sd_bus_add_node_enumerator (path : string) (callback userdata : nat) : RM Z :=
  call (
    b <- get ;;
    if negb (object_path_is_valid V path) then return_ (- EINVAL) else
    if pid_changed b then return_ (- ECHILD) else
    n <- bus_node_allocate path ;;
    update_node n (fun nd =>
      with_enumerators (mkNodeEnumerator callback userdata :: n_enumerators nd) nd) ;;;
    modify (with_modified true) ;;;
    mret 0).

Definition enumerator_matches (callback userdata : nat) (c : node_enumerator) : bool :=
  Nat.eqb (ne_callback c) callback && Nat.eqb (ne_userdata c) userdata.

Definition sd_bus_remove_node_enumerator (path : string) (callback userdata : nat) : RM Z :=
  call (
    b <- get ;;
    if negb (object_path_is_valid V path) then return_ (- EINVAL) else
    if pid_changed b then return_ (- ECHILD) else
    match hashmap_get_node b path with
    | None => return_ 0
    | Some n =>
        match find (enumerator_matches callback userdata) (n_enumerators n) with
        | None => return_ 0
        | Some _ =>
            update_node path (fun nd =>
              with_enumerators (remove_first (enumerator_matches callback userdata) (n_enumerators nd)) nd) ;;;
            bus_node_gc path ;;;
            modify (with_modified true) ;;;
            mret 1
        end
    end).

Definition sd_bus_add_object_manager (path : string) : RM Z :=
  call (
    b <- get ;;
    if negb (object_path_is_valid V path) then return_ (- EINVAL) else
    if pid_changed b then return_ (- ECHILD) else
    n <- bus_node_allocate path ;;
    update_node n (with_object_manager true) ;;;
    modify (with_modified true) ;;;
    mret 0).

Definition sd_bus_remove_object_manager (path : string) : RM Z :=
  call (
    b <- get ;;
    if negb (object_path_is_valid V path) then return_ (- EINVAL) else
    if pid_changed b then return_ (- ECHILD) else
    match hashmap_get_node b path with
    | None => return_ 0
    | Some n =>
        if negb (n_object_manager n) then return_ 0 else
        update_node path (with_object_manager false) ;;;
        modify (with_modified true) ;;;
        bus_node_gc path ;;;
        mret 1
    end).

(** The registration calls user code can make while it runs. *)
Inductive reg_op :=
| OpAddObject (fallback : bool) (path : string) (callback userdata : nat)
| OpRemoveObject (fallback : bool) (path : string) (callback userdata : nat)
| OpAddVtable (path interface : string) (vtable : vtable_ref) (fallback : bool) (find : option nat) (userdata : Z)
| OpRemoveVtable (path interface : string) (vtable : vtable_ref) (fallback : bool) (find : option nat) (userdata : Z)
| OpAddNodeEnumerator (path : string) (callback userdata : nat)
| OpRemoveNodeEnumerator (path : string) (callback userdata : nat)
| OpAddObjectManager (path : string)
| OpRemoveObjectManager (path : string).

Definition run_reg_op (o : reg_op) : RM Z :=
  match o with
  | OpAddObject f p c u => bus_add_object f p c u
  | OpRemoveObject f p c u => bus_remove_object f p c u
  | OpAddVtable p i vt f fd u => add_object_vtable_internal p i vt f fd u
  | OpRemoveVtable p i vt f fd u => remove_object_vtable_internal p i vt f fd u
  | OpAddNodeEnumerator p c u => sd_bus_add_node_enumerator p c u
  | OpRemoveNodeEnumerator p c u => sd_bus_remove_node_enumerator p c u
  | OpAddObjectManager p => sd_bus_add_object_manager p
  | OpRemoveObjectManager p => sd_bus_remove_object_manager p
  end.

Fixpoint run_reg_ops (l : list reg_op) : RM unit :=
  match l with
  | [] => mret tt
  | o :: l' => run_reg_op o ;;; run_reg_ops l'
  end.

End Registration.

(** ** User code *)

(** A call into user code registered with the bus. *)
Inductive ext_call :=
| XCallback (callback userdata : nat) (m : sd_bus_message)
| XFind (find : nat) (path interface : string) (userdata : Z)
| XMethod (handler : nat) (m : sd_bus_message) (userdata : Z)
| XGet (get : nat) (path interface property : string) (userdata : Z)
| XSet (set : nat) (m : sd_bus_message) (path interface property : string) (userdata : Z)
| XEnumerate (callback userdata : nat) (prefix : string).

(** What user code answers: its return value, the error name it set in
    the [sd_bus_error] it was given, the registration calls it made, the
    userdata a find resolved or the value a getter appended, and the
    child paths an enumerator produced. *)
Record ext_result := mkExtResult {
  er_ret : Z;
  er_error : option string;
  er_ops : list reg_op;
  er_value : Z;
  er_children : list string;
}.

(** Modelled from the spec: sd-bus credentials (bus-creds.c, not in
    src/).  A query returns the fields it asked for; on a userspace bus
    only the UID is asked for, so no effective capability set is there
    to test (§4.3, step 3). *)
Record sd_bus_creds := mkCreds {
  cr_uid : option Z;
  cr_effective_caps : option (list Z);
}.

Definition sd_bus_query_sender_creds (m : sd_bus_message) (want_caps : bool) : Z * sd_bus_creds :=
  match m_sender m with
  | inl r => (r, mkCreds None None)
  | inr s => (0, mkCreds (Some (s_uid s)) (if want_caps then Some (s_effective_caps s) else None))
  end.

Definition sd_bus_creds_has_effective_cap (c : sd_bus_creds) (cap : Z) : Z :=
  match cr_effective_caps c with
  | None => - ENODATA
  | Some l => if existsb (Z.eqb cap) l then 1 else 0
  end.

Definition sd_bus_creds_get_uid (c : sd_bus_creds) : Z * Z :=
  match cr_uid c with
  | None => (- ENODATA, 0)
  | Some u => (0, u)
  end.

(** Modelled from the spec: the wire codec (bus-message.c, not in src/)
    is an external collaborator; its container calls succeed with 0. *)
Definition sd_bus_message_open_container_ret : Z := 0.

(** Modelled from the spec: [sd_bus_send] (bus.c, not in src/) hands the
    message to the bus and returns 1, the value the emitters of §6 pass
    on. *)
Definition sd_bus_send_ret : Z := 1.

Definition sd_bus_message_read_ss (m : sd_bus_message) : option (string * string) :=
  match m_args m with
  | AStr a :: AStr b :: _ => Some (a, b)
  | _ => None
  end.

Definition sd_bus_message_read_s (m : sd_bus_message) : option string :=
  match m_args m with
  | AStr a :: _ => Some a
  | _ => None
  end.

(** [sd_bus_message_enter_container(m, 'v', sig)] after the two strings. *)
Definition sd_bus_message_enter_variant (m : sd_bus_message) (sig : string) : Z :=
  match m_args m with
  | _ :: _ :: AVariant s _ :: _ => if streq s sig then 0 else - ENXIO
  | _ => - ENXIO
  end.

Definition sd_bus_message_is_method_call (m : sd_bus_message) (interface member : string) : bool :=
  match m_type m, m_interface m with
  | METHOD_CALL, Some i => streq i interface && streq (m_member m) member
  | _, _ => false
  end.

Definition is_method_call_type (m : sd_bus_message) : bool :=
  match m_type m with METHOD_CALL => true | _ => false end.

Definition merge_error (error e : option string) : option string :=
  match e with Some n => Some n | None => error end.

Section Engine.

Variable V : validators.
Variable ext : ext_call -> bus -> ext_result.
(** Modelled from the spec: bus-error.c is not in src/; the errno a D-Bus
    error name maps to is a parameter.  [sd_bus_error_setf] stores the
    name and returns the negated errno, [sd_bus_error_get_errno] returns
    the errno. *)
Variable error_errno : string -> Z.

Definition sd_bus_error_setf (name : string) : Z * option string :=
  (- error_errno name, Some name).

Definition sd_bus_error_get_errno (e : option string) : Z :=
  match e with Some n => error_errno n | None => 0 end.

Definition send (o : out) : DM unit := modify_bus (fun b => with_sent (sent b ++ [o]) b).

(** Modelled from the spec: sending a reply hands it to the bus and
    counts as handled (§4.11). *)
Definition sd_bus_reply_method_errorf (m : sd_bus_message) (name : string) : DM Z :=
  if is_method_call_type m then send (OError name) ;;; mret 1 else mret (- EINVAL).

Definition sd_bus_reply_method_return (m : sd_bus_message) (p : payload) : DM Z :=
  if is_method_call_type m then send (OReturn p) ;;; mret 1 else mret (- EINVAL).

(** Modelled from the spec: bus_maybe_reply_error (§4.11, §7): a negative
    return or a set error object becomes an error reply. *)
Definition bus_maybe_reply_error (m : sd_bus_message) (r : Z) (error : option string) : DM Z :=
  if r <? 0 then
    (if is_method_call_type m
     then send (OError (match error with Some n => n | None => SD_BUS_ERROR_FAILED end))
     else mret tt) ;;; mret 1
  else match error with
       | Some n => (if is_method_call_type m then send (OError n) else mret tt) ;;; mret 1
       | None => mret r
       end.

(** Running user code: the invocation is recorded, then the
    registration calls it made take effect. *)
Definition invoke (t : tag) (x : ext_call) : DM ext_result :=
  b <- get_bus ;;
  let e := ext x b in
  modify_bus (fun b => with_trace (trace b ++ [t]) b) ;;;
  lift (run_reg_ops V (er_ops e)) ;;;
  mret e.

(** [c->last_iteration = bus->iteration_counter], the record being
    identified by its allocation. *)
Definition stamp_cb (id k : nat) (c : node_callback) : node_callback :=
  if Nat.eqb (cb_id c) id
  then mkNodeCallback (cb_id c) (cb_callback c) (cb_userdata c) (cb_is_fallback c) k
  else c.

Definition stamp_vm (id k : nat) (v : vtable_member) : vtable_member :=
  if Nat.eqb (vm_id v) id
  then mkVtableMember (vm_id v) (vm_path v) (vm_interface v) (vm_member v) (vm_parent v) (vm_vtable v) k
  else v.

Definition stamp_callback (id : nat) : DM unit :=
  modify_bus (fun b => with_nodes
    (map (fun n => with_callbacks (map (stamp_cb id (iteration_counter b)) (n_callbacks n)) n) (nodes b)) b).

Definition stamp_method (id : nat) : DM unit :=
  modify_bus (fun b => with_methods (map (stamp_vm id (iteration_counter b)) (vtable_methods b)) b).

Definition stamp_property (id : nat) : DM unit :=
  modify_bus (fun b => with_properties (map (stamp_vm id (iteration_counter b)) (vtable_properties b)) b).

Definition live_node (b : bus) (n : node) : node :=
  match hashmap_get_node b (n_path n) with Some x => x | None => n end.

(** ** node_vtable_get_userdata: (r, userdata, error) *)
Definition node_vtable_get_userdata (path : string) (c : node_vtable) (error : option string)
  : DM (Z * Z * option string) :=
  match nv_find c with
  | None => mret (1, nv_userdata c, error)
  | Some f =>
      e <- invoke TOther (XFind f path (nv_interface c) (nv_userdata c)) ;;
      let error' := merge_error error (er_error e) in
      if er_ret e <? 0 then mret (er_ret e, nv_userdata c, error')
      else if is_some error' then mret (sd_bus_error_get_errno error', nv_userdata c, error')
      else if er_ret e =? 0 then mret (0, nv_userdata c, error')
      else mret (1, er_value e, error')
  end.

Definition vtable_property_convert_userdata (p : sd_bus_vtable) (u : Z) : Z := u + offset p.

Definition vtable_property_get_userdata (path : string) (p : vtable_member) (error : option string)
  : DM (Z * Z * option string) :=
  '(r, u, error) <- node_vtable_get_userdata path (vm_parent p) error ;;
  if r <=? 0 then mret (r, u, error) else
  b <- get_bus ;;
  if nodes_modified b then mret (0, u, error)
  else mret (1, vtable_property_convert_userdata (vm_vtable p) u, error).

(** ** check_access: (r, error) *)
Definition check_access (b : bus) (m : sd_bus_message) (c : vtable_member) (error : option string)
  : Z * option string :=
  if trusted b then (0, error)
  else if has_flag (flags (vm_vtable c)) SD_BUS_VTABLE_UNPRIVILEGED then (0, error)
  else
    let '(r, creds) := sd_bus_query_sender_creds m (is_kernel b) in
    if r <? 0 then (r, error)
    else
      let cap0 := CAPABILITY_SHIFT (flags (vm_vtable c)) in
      let cap1 := if cap0 =? 0 then CAPABILITY_SHIFT (flags (vtable_start (nv_vtable (vm_parent c)))) else cap0 in
      let cap := if cap1 =? 0 then CAP_SYS_ADMIN else cap1 - 1 in
      if 0 <? sd_bus_creds_has_effective_cap creds cap then (1, error)
      else
        let '(r', uid) := sd_bus_creds_get_uid creds in
        if (0 <=? r') && (uid =? self_uid b) then (1, error)
        else sd_bus_error_setf SD_BUS_ERROR_ACCESS_DENIED.

(** ** node_callbacks_run *)
Fixpoint node_callbacks_run (m : sd_bus_message) (l : list node_callback) (require_fallback : bool) : DM Z :=
  match l with
  | [] => mret 0
  | c :: l' =>
      b <- get_bus ;;
      if nodes_modified b then mret 0 else
      if require_fallback && negb (cb_is_fallback c) then node_callbacks_run m l' require_fallback else
      set_found ;;;
      if Nat.eqb (cb_last_iteration c) (iteration_counter b) then node_callbacks_run m l' require_fallback else
      stamp_callback (cb_id c) ;;;
      e <- invoke (TCallback (cb_id c)) (XCallback (cb_callback c) (cb_userdata c) m) ;;
      r <- bus_maybe_reply_error m (er_ret e) (er_error e) ;;
      if negb (r =? 0) then mret r else node_callbacks_run m l' require_fallback
  end.

(** ** method_callbacks_run *)
Definition method_callbacks_run (m : sd_bus_message) (c : vtable_member) (require_fallback : bool) : DM Z :=
  call (
    if require_fallback && negb (nv_is_fallback (vm_parent c)) then return_ 0 else
    b <- get_bus ;;
    let '(r, error) := check_access b m c None in
    if r <? 0 then (r' <- bus_maybe_reply_error m r error ;; return_ r') else
    '(r, u, error) <- node_vtable_get_userdata (m_path m) (vm_parent c) error ;;
    if r <=? 0 then (r' <- bus_maybe_reply_error m r error ;; return_ r') else
    b <- get_bus ;;
    if nodes_modified b then return_ 0 else
    set_found ;;;
    if Nat.eqb (vm_last_iteration c) (iteration_counter b) then return_ 0 else
    stamp_method (vm_id c) ;;;
    if negb (streq (signature (vm_vtable c)) (m_signature m))
    then sd_bus_reply_method_errorf m SD_BUS_ERROR_INVALID_ARGS
    else
      match handler (vm_vtable c) with
      | Some h =>
          e <- invoke (TMethod (vm_id c)) (XMethod h m u) ;;
          bus_maybe_reply_error m (er_ret e) (merge_error error (er_error e))
      | None =>
          r <- sd_bus_reply_method_return m PEmpty ;;
          if r <? 0 then return_ r else mret 1
      end).

(** ** Property getters and setters: (r, value appended, error) *)
Definition invoke_property_get (t : tag) (v : sd_bus_vtable) (path interface property : string)
           (u : Z) (error : option string) : DM (Z * Z * option string) :=
  match handler v with
  | Some g =>
      e <- invoke t (XGet g path interface property u) ;;
      let error' := merge_error error (er_error e) in
      if er_ret e <? 0 then mret (er_ret e, er_value e, error')
      else if is_some error' then mret (sd_bus_error_get_errno error', er_value e, error')
      else mret (er_ret e, er_value e, error')
  | None =>
      (* automatic handling: the datum stored at the userdata is appended *)
      if streq (signature v) "as" then mret (0, u, error)
      else if negb (signature_is_single V (signature v)) then crash
      else if negb (bus_type_is_basic V (first_char (signature v))) then crash
      else mret (0, u, error)
  end.

Definition invoke_property_set (t : tag) (v : sd_bus_vtable) (m : sd_bus_message)
           (path interface property : string) (u : Z) (error : option string) : DM (Z * option string) :=
  match set v with
  | Some s =>
      e <- invoke t (XSet s m path interface property u) ;;
      let error' := merge_error error (er_error e) in
      if er_ret e <? 0 then mret (er_ret e, error')
      else if is_some error' then mret (sd_bus_error_get_errno error', error')
      else mret (er_ret e, error')
  | None =>
      (* automatic handling: the value is read from the variant into the userdata *)
      if negb (signature_is_single V (signature v)) then crash
      else if negb (bus_type_is_basic V (first_char (signature v))) then crash
      else mret (1, error)
  end.

(** ** property_get_set_callbacks_run *)
Definition property_get_set_callbacks_run (m : sd_bus_message) (c : vtable_member)
           (require_fallback is_get : bool) : DM Z :=
  call (
    if require_fallback && negb (nv_is_fallback (vm_parent c)) then return_ 0 else
    '(r, u, error) <- vtable_property_get_userdata (m_path m) c None ;;
    if r <=? 0 then (r' <- bus_maybe_reply_error m r error ;; return_ r') else
    b <- get_bus ;;
    if nodes_modified b then return_ 0 else
    set_found ;;;
    p <- (if is_get then
            (* no protection against re-execution here: Get is assumed idempotent *)
            '(r, val, error) <- invoke_property_get (TGet (vm_id c)) (vm_vtable c) (m_path m)
                                  (vm_interface c) (vm_member c) u error ;;
            if r <? 0 then (r' <- bus_maybe_reply_error m r error ;; return_ r') else
            b <- get_bus ;;
            if nodes_modified b then return_ 0 else
            mret (PValue val)
          else
            if negb (vtable_type_eqb (type (vm_vtable c)) _SD_BUS_VTABLE_WRITABLE_PROPERTY)
            then (r' <- sd_bus_reply_method_errorf m SD_BUS_ERROR_PROPERTY_READ_ONLY ;; return_ r') else
            if Nat.eqb (vm_last_iteration c) (iteration_counter b) then return_ 0 else
            stamp_property (vm_id c) ;;;
            let r := sd_bus_message_enter_variant m (signature (vm_vtable c)) in
            if r <? 0 then return_ r else
            b <- get_bus ;;
            let '(r, error) := check_access b m c error in
            if r <? 0 then (r' <- bus_maybe_reply_error m r error ;; return_ r') else
            '(r, error) <- invoke_property_set (TSet (vm_id c)) (vm_vtable c) m (m_path m)
                              (vm_interface c) (vm_member c) u error ;;
            if r <? 0 then (r' <- bus_maybe_reply_error m r error ;; return_ r') else
            b <- get_bus ;;
            if nodes_modified b then return_ 0 else
            mret PEmpty) ;;
    send (OReturn p) ;;;
    mret 1).

(** ** vtable_append_all_properties: (r, entries, error) *)
Fixpoint append_properties (path interface : string) (l : list sd_bus_vtable) (u : Z)
         (error : option string) (acc : list (string * Z)) : DM (Z * list (string * Z) * option string) :=
  match l with
  | [] => mret (1, acc, error)
  | v :: l' =>
      if negb (vtable_type_eqb (type v) _SD_BUS_VTABLE_PROPERTY ||
               vtable_type_eqb (type v) _SD_BUS_VTABLE_WRITABLE_PROPERTY)
      then append_properties path interface l' u error acc else
      if has_flag (flags v) SD_BUS_VTABLE_HIDDEN then append_properties path interface l' u error acc else
      '(r, val, error) <- invoke_property_get TOther v path interface (member v)
                            (vtable_property_convert_userdata v u) error ;;
      if r <? 0 then mret (r, acc, error) else
      b <- get_bus ;;
      if nodes_modified b then mret (0, acc, error) else
      append_properties path interface l' u error (acc ++ [(member v, val)])
  end.

Definition vtable_append_all_properties (path : string) (c : node_vtable) (u : Z) (error : option string)
  : DM (Z * list (string * Z) * option string) :=
  if has_flag (flags (vtable_start (nv_vtable c))) SD_BUS_VTABLE_HIDDEN then mret (1, [], error)
  else append_properties path (nv_interface c) (vtable_body (nv_vtable c)) u error [].

(** ** property_get_all_callbacks_run *)
Fixpoint get_all_loop (m : sd_bus_message) (l : list node_vtable) (require_fallback : bool)
         (iface : option string) (found_interface : bool) (acc : list (string * Z))
  : DM (bool * list (string * Z)) :=
  match l with
  | [] => mret (found_interface, acc)
  | c :: l' =>
      if require_fallback && negb (nv_is_fallback c)
      then get_all_loop m l' require_fallback iface found_interface acc else
      '(r, u, error) <- node_vtable_get_userdata (m_path m) c None ;;
      if r <? 0 then (r' <- bus_maybe_reply_error m r error ;; return_ r') else
      b <- get_bus ;;
      if nodes_modified b then return_ 0 else
      if r =? 0 then get_all_loop m l' require_fallback iface found_interface acc else
      set_found ;;;
      (if match iface with Some i => negb (streq (nv_interface c) i) | None => false end
       then get_all_loop m l' require_fallback iface found_interface acc
       else
         '(r, entries, error) <- vtable_append_all_properties (m_path m) c u error ;;
         if r <? 0 then (r' <- bus_maybe_reply_error m r error ;; return_ r') else
         b <- get_bus ;;
         if nodes_modified b then return_ 0 else
         get_all_loop m l' require_fallback iface true (acc ++ entries))
  end.

Definition property_get_all_callbacks_run (m : sd_bus_message) (first : list node_vtable)
           (require_fallback : bool) (iface : option string) : DM Z :=
  call (
    let found_interface :=
      match iface with
      | None => true
      | Some i => streq i IFACE_PROPERTIES || streq i IFACE_PEER || streq i IFACE_INTROSPECTABLE
      end in
    '(found_interface, acc) <- get_all_loop m first require_fallback iface found_interface [] ;;
    if negb found_interface then
      (r <- sd_bus_reply_method_errorf m SD_BUS_ERROR_UNKNOWN_INTERFACE ;;
       if r <? 0 then return_ r else return_ 1)
    else
      send (OReturn (PDict acc)) ;;;
      mret 1).

(** ** bus_node_with_object_manager: the node or one of its ancestors *)
Fixpoint bus_node_with_object_manager_aux (fuel : nat) (b : bus) (n : node) : bool :=
  match fuel with
  | O => false
  | S fuel' =>
      if n_object_manager n then true
      else match n_parent n with
           | Some p => match hashmap_get_node b p with
                       | Some pn => bus_node_with_object_manager_aux fuel' b pn
                       | None => false
                       end
           | None => false
           end
  end.

Definition bus_node_with_object_manager (b : bus) (n : node) : bool :=
  bus_node_with_object_manager_aux (S (length (nodes b))) b n.

(** ** bus_node_exists *)
Fixpoint node_exists_vtables (l : list node_vtable) (path : string) (require_fallback : bool) : DM (option bool) :=
  match l with
  | [] => mret None
  | c :: l' =>
      if require_fallback && negb (nv_is_fallback c) then node_exists_vtables l' path require_fallback else
      '(r, _, _) <- node_vtable_get_userdata path c None ;;
      if 0 <? r then mret (Some true) else
      b <- get_bus ;;
      if nodes_modified b then mret (Some false) else
      node_exists_vtables l' path require_fallback
  end.

Definition bus_node_exists (n : node) (path : string) (require_fallback : bool) : DM bool :=
  if existsb (fun k => negb require_fallback || cb_is_fallback k) (n_callbacks n) then mret true else
  o <- node_exists_vtables (n_vtables n) path require_fallback ;;
  match o with
  | Some x => mret x
  | None => mret (negb require_fallback &&
                  (negb (match n_enumerators n with [] => true | _ => false end) || n_object_manager n))
  end.

(** ** The enumerator walker: (r, set, error) *)

(** [set_consume]: 1 when added, -EEXIST when already there. *)
Definition set_consume (s : list string) (k : string) : Z * list string :=
  if existsb (streq k) s then (- EEXIST, s) else (1, s ++ [k]).

Fixpoint add_children (prefix : string) (ks : list string) (r : Z) (s : list string) : Z * list string :=
  match ks with
  | [] => (r, s)
  | k :: ks' =>
      if r <? 0 then add_children prefix ks' r s
      else if negb (object_path_is_valid V k) then add_children prefix ks' (- EINVAL) s
      else if negb (object_path_startswith k prefix) then add_children prefix ks' r s
      else let '(r, s) := set_consume s k in
           add_children prefix ks' (if r =? - EEXIST then 0 else r) s
  end.

Fixpoint add_enumerated_to_set (prefix : string) (l : list node_enumerator) (s : list string)
         (error : option string) : DM (Z * list string * option string) :=
  match l with
  | [] => mret (0, s, error)
  | c :: l' =>
      b <- get_bus ;;
      if nodes_modified b then mret (0, s, error) else
      e <- invoke TOther (XEnumerate (ne_callback c) (ne_userdata c) prefix) ;;
      let error := merge_error error (er_error e) in
      if er_ret e <? 0 then mret (er_ret e, s, error)
      else if is_some error then mret (sd_bus_error_get_errno error, s, error)
      else
        let '(r, s) := add_children prefix (er_children e) (er_ret e) s in
        if r <? 0 then mret (r, s, error)
        else add_enumerated_to_set prefix l' s error
  end.

Fixpoint add_subtree_to_set (fuel : nat) (prefix : string) (n : node) (s : list string)
         (error : option string) : DM (Z * list string * option string) :=
  match fuel with
  | O => diverge
  | S fuel' =>
      '(r, s, error) <- add_enumerated_to_set prefix (n_enumerators n) s error ;;
      if r <? 0 then mret (r, s, error) else
      b <- get_bus ;;
      if nodes_modified b then mret (0, s, error) else
      (fix children (cs : list string) (s : list string) (error : option string)
         : DM (Z * list string * option string) :=
         match cs with
         | [] => mret (0, s, error)
         | i :: cs' =>
             b <- get_bus ;;
             match hashmap_get_node b i with
             | None => children cs' s error
             | Some ni =>
                 if negb (object_path_startswith (n_path ni) prefix) then children cs' s error else
                 let '(_, s) := set_consume s (n_path ni) in
                 '(r, s, error) <- add_subtree_to_set fuel' prefix ni s error ;;
                 if r <? 0 then mret (r, s, error) else
                 b <- get_bus ;;
                 if nodes_modified b then mret (0, s, error) else
                 children cs' s error
             end
         end) (n_child n) s error
  end.

Definition get_child_nodes (prefix : string) (n : node) (error : option string)
  : DM (Z * list string * option string) :=
  b <- get_bus ;;
  '(r, s, error) <- add_subtree_to_set (S (length (nodes b))) prefix n [] error ;;
  if r <? 0 then mret (r, [], error) else mret (0, s, error).

(** ** process_introspect *)
Definition streq_ptr (a b : option string) : bool :=
  match a, b with
  | Some x, Some y => streq x y
  | None, None => true
  | _, _ => false
  end.

(** The vtable loop: (empty, interfaces written). *)
Fixpoint introspect_loop (m : sd_bus_message) (l : list node_vtable) (require_fallback : bool)
         (error : option string) (empty : bool) (previous_interface : option string)
         (ifaces : list string) : DM (bool * list string) :=
  match l with
  | [] => mret (empty, ifaces)
  | c :: l' =>
      if require_fallback && negb (nv_is_fallback c)
      then introspect_loop m l' require_fallback error empty previous_interface ifaces else
      '(r, _, error) <- node_vtable_get_userdata (m_path m) c error ;;
      if r <? 0 then (r' <- bus_maybe_reply_error m r error ;; return_ r') else
      b <- get_bus ;;
      if nodes_modified b then return_ 0 else
      if r =? 0 then introspect_loop m l' require_fallback error empty previous_interface ifaces else
      if has_flag (flags (vtable_start (nv_vtable c))) SD_BUS_VTABLE_HIDDEN
      then introspect_loop m l' require_fallback error false previous_interface ifaces else
      let ifaces := if streq_ptr previous_interface (Some (nv_interface c)) then ifaces
                    else ifaces ++ [nv_interface c] in
      introspect_loop m l' require_fallback error false (Some (nv_interface c)) ifaces
  end.

Definition process_introspect (m : sd_bus_message) (n : node) (require_fallback : bool) : DM Z :=
  call (
    '(r, s, error) <- get_child_nodes (m_path m) n None ;;
    if r <? 0 then (r' <- bus_maybe_reply_error m r error ;; return_ r') else
    b <- get_bus ;;
    if nodes_modified b then return_ 0 else
    let om := bus_node_with_object_manager b n in
    let empty := match s with [] => true | _ => false end in
    '(empty, ifaces) <- introspect_loop m (n_vtables (live_node b n)) require_fallback error empty None [] ;;
    (if empty then
       b <- get_bus ;;
       e <- bus_node_exists (live_node b n) (m_path m) require_fallback ;;
       b <- get_bus ;;
       if nodes_modified b then return_ 0 else
       if negb e then return_ 0 else mret tt
     else mret tt) ;;;
    set_found ;;;
    send (OReturn (PIntrospect om ifaces s)) ;;;
    mret 1).

(** ** object_manager_serialize_path *)
Definition add_group (groups : list (string * list (string * Z))) (same : bool) (i : string)
           (ps : list (string * Z)) : list (string * list (string * Z)) :=
  if same then
    match rev groups with
    | (j, qs) :: rg => rev rg ++ [(j, qs ++ ps)]
    | [] => [(i, ps)]
    end
  else groups ++ [(i, ps)].

Fixpoint serialize_loop (path : string) (require_fallback : bool) (l : list node_vtable)
         (previous_interface : option string) (groups : list (string * list (string * Z)))
         (error : option string) : DM (Z * list (string * list (string * Z)) * option string) :=
  match l with
  | [] => mret (1, groups, error)
  | i :: l' =>
      if require_fallback && negb (nv_is_fallback i)
      then serialize_loop path require_fallback l' previous_interface groups error else
      '(r, u, error) <- node_vtable_get_userdata path i error ;;
      if r <? 0 then mret (r, groups, error) else
      b <- get_bus ;;
      if nodes_modified b then mret (0, groups, error) else
      if r =? 0 then serialize_loop path require_fallback l' previous_interface groups error else
      let same := streq_ptr previous_interface (Some (nv_interface i)) in
      '(r, ps, error) <- vtable_append_all_properties path i u error ;;
      if r <? 0 then mret (r, groups, error) else
      b <- get_bus ;;
      if nodes_modified b then mret (0, groups, error) else
      serialize_loop path require_fallback l' (Some (nv_interface i))
                     (add_group groups same (nv_interface i) ps) error
  end.

Definition object_manager_serialize_path (prefix path : string) (require_fallback : bool)
           (error : option string)
  : DM (Z * list (string * list (string * list (string * Z))) * option string) :=
  b <- get_bus ;;
  match hashmap_get_node b prefix with
  | None => mret (0, [], error)
  | Some n =>
      '(r, groups, error) <- serialize_loop path require_fallback (n_vtables n) None [] error ;;
      if r <=? 0 then mret (r, [], error)
      else mret (1, match groups with [] => [] | _ => [(path, groups)] end, error)
  end.

Fixpoint serialize_prefixes (path : string) (ps : list string)
         (acc : list (string * list (string * list (string * Z)))) (error : option string)
  : DM (Z * list (string * list (string * list (string * Z))) * option string) :=
  match ps with
  | [] => mret (0, acc, error)
  | p :: ps' =>
      '(r, o, error) <- object_manager_serialize_path p path true error ;;
      if r <? 0 then mret (r, acc, error) else
      b <- get_bus ;;
      if nodes_modified b then mret (0, acc, error) else
      serialize_prefixes path ps' (acc ++ o) error
  end.

Definition object_manager_serialize_path_and_fallbacks (path : string) (error : option string)
  : DM (Z * list (string * list (string * list (string * Z))) * option string) :=
  '(r, o, error) <- object_manager_serialize_path path path false error ;;
  if r <? 0 then mret (r, o, error) else
  b <- get_bus ;;
  if nodes_modified b then mret (0, o, error) else
  serialize_prefixes path (object_path_prefixes path) o error.

(** ** process_get_managed_objects *)

(** The existence loop over the vtables, run with the stale [r] of the
    container call: [inl r] is [return r], [inr empty] leaves the loop. *)
Fixpoint managed_objects_exists (r : Z) (require_fallback : bool) (l : list node_vtable) : Z + bool :=
  match l with
  | [] => inr true
  | c :: l' =>
      if require_fallback && negb (nv_is_fallback c) then managed_objects_exists r require_fallback l' else
      if r <? 0 then inl r else
      if r =? 0 then managed_objects_exists r require_fallback l' else
      inr false
  end.

Fixpoint serialize_set (s : list string) (acc : list (string * list (string * list (string * Z))))
         (error : option string)
  : DM (Z * list (string * list (string * list (string * Z))) * option string) :=
  match s with
  | [] => mret (0, acc, error)
  | path :: s' =>
      '(r, o, error) <- object_manager_serialize_path_and_fallbacks path error ;;
      if r <? 0 then mret (r, acc, error) else
      b <- get_bus ;;
      if nodes_modified b then mret (0, acc, error) else
      serialize_set s' (acc ++ o) error
  end.

Definition process_get_managed_objects (m : sd_bus_message) (n : node) (require_fallback : bool) : DM Z :=
  call (
    b <- get_bus ;;
    if negb (bus_node_with_object_manager b n) then return_ 0 else
    '(r, s, error) <- get_child_nodes (m_path m) n None ;;
    if r <? 0 then return_ r else
    b <- get_bus ;;
    if nodes_modified b then return_ 0 else
    if negb (is_method_call_type m) then return_ (- EINVAL) else
    let r := sd_bus_message_open_container_ret in
    if r <? 0 then return_ r else
    '(objs) <-
      (match s with
       | [] =>
           match managed_objects_exists r require_fallback (n_vtables (live_node b n)) with
           | inl r => return_ r
           | inr true => return_ 0
           | inr false => mret []
           end
       | _ =>
           '(r, objs, error) <- serialize_set s [] error ;;
           if r <? 0 then return_ r else
           b <- get_bus ;;
           if nodes_modified b then return_ 0 else
           mret objs
       end) ;;
    send (OReturn (PManaged objs)) ;;;
    mret 1).

(** ** object_find_and_run *)
Definition object_find_and_run (m : sd_bus_message) (p : string) (require_fallback : bool) : DM Z :=
  call (
    b <- get_bus ;;
    match hashmap_get_node b p with
    | None => return_ 0
    | Some n =>
    r <- node_callbacks_run m (n_callbacks n) require_fallback ;;
    if negb (r =? 0) then return_ r else
    b <- get_bus ;;
    if nodes_modified b then return_ 0 else
    match m_interface m with
    | None => return_ 0
    | Some interface =>
    (match hashmap_get_member (vtable_methods b) p interface (m_member m) with
     | Some v =>
         r <- method_callbacks_run m v require_fallback ;;
         if negb (r =? 0) then return_ r else
         b <- get_bus ;;
         if nodes_modified b then return_ 0 else mret tt
     | None => mret tt
     end) ;;;
    b <- get_bus ;;
    let n := live_node b n in
    (if streq interface IFACE_PROPERTIES then
       let get := streq (m_member m) "Get" in
       if get || streq (m_member m) "Set" then
         match sd_bus_message_read_ss m with
         | None =>
             r <- sd_bus_reply_method_errorf m SD_BUS_ERROR_INVALID_ARGS ;; return_ r
         | Some (i, mem) =>
             match hashmap_get_member (vtable_properties b) p i mem with
             | Some v =>
                 r <- property_get_set_callbacks_run m v require_fallback get ;;
                 if negb (r =? 0) then return_ r else mret tt
             | None => mret tt
             end
         end
       else if streq (m_member m) "GetAll" then
         match sd_bus_message_read_s m with
         | None =>
             r <- sd_bus_reply_method_errorf m SD_BUS_ERROR_INVALID_ARGS ;; return_ r
         | Some i =>
             let iface := if isempty i then None else Some i in
             r <- property_get_all_callbacks_run m (n_vtables n) require_fallback iface ;;
             if negb (r =? 0) then return_ r else mret tt
         end
       else mret tt
     else if sd_bus_message_is_method_call m IFACE_INTROSPECTABLE "Introspect" then
       if negb (isempty (m_signature m))
       then (r <- sd_bus_reply_method_errorf m SD_BUS_ERROR_INVALID_ARGS ;; return_ r) else
       r <- process_introspect m n require_fallback ;;
       if negb (r =? 0) then return_ r else mret tt
     else if sd_bus_message_is_method_call m IFACE_OBJECT_MANAGER "GetManagedObjects" then
       if negb (isempty (m_signature m))
       then (r <- sd_bus_reply_method_errorf m SD_BUS_ERROR_INVALID_ARGS ;; return_ r) else
       r <- process_get_managed_objects m n require_fallback ;;
       if negb (r =? 0) then return_ r else mret tt
     else mret tt) ;;;
    b <- get_bus ;;
    if nodes_modified b then return_ 0 else
    f <- get_found ;;
    (if negb f then
       e <- bus_node_exists (live_node b n) (m_path m) require_fallback ;;
       if e then set_found else mret tt
     else mret tt) ;;;
    mret 0
    end
    end).

(** ** bus_process_object *)
Fixpoint fallback_loop (m : sd_bus_message) (ps : list string) : DM Z :=
  match ps with
  | [] => mret 0
  | prefix :: ps' =>
      b <- get_bus ;;
      if nodes_modified b then mret 0 else
      r <- object_find_and_run m prefix true ;;
      if negb (r =? 0) then return_ r else fallback_loop m ps'
  end.

(** The [do ... while (bus->nodes_modified)] loop; [fuel] bounds the
    number of rounds, running out of it is divergence. *)
Fixpoint process_rounds (fuel : nat) (m : sd_bus_message) : DM Z :=
  match fuel with
  | O => diverge
  | S fuel' =>
      modify_bus (with_modified false) ;;;
      r <- object_find_and_run m (m_path m) false ;;
      if negb (r =? 0) then return_ r else
      fallback_loop m (object_path_prefixes (m_path m)) ;;;
      b <- get_bus ;;
      if nodes_modified b then process_rounds fuel' m else mret 0
  end.

Definition bus_process_object_dm (fuel : nat) (m : sd_bus_message) : DM Z :=
  call (
    if negb (is_method_call_type m) then return_ 0 else
    b <- get_bus ;;
    match nodes b with [] => return_ 0 | _ => mret tt end ;;;
    process_rounds fuel m ;;;
    f <- get_found ;;
    if negb f then return_ 0 else
    r <- (if sd_bus_message_is_method_call m IFACE_PROPERTIES "Get" ||
             sd_bus_message_is_method_call m IFACE_PROPERTIES "Set"
          then sd_bus_reply_method_errorf m SD_BUS_ERROR_UNKNOWN_PROPERTY
          else sd_bus_reply_method_errorf m SD_BUS_ERROR_UNKNOWN_METHOD) ;;
    if r <? 0 then return_ r else mret 1).

(** [bool found_object = false] is local to [bus_process_object]. *)
Definition bus_process_object (fuel : nat) (m : sd_bus_message) : RM Z :=
  fun b => let '(r, (b', _)) := bus_process_object_dm fuel m (b, false) in (r, b').

(** ** emit_properties_changed_on_interface *)

(** The names loop of the first pass, for vtable [c] resolved to [u]:
    (has_invalidating, has_changing, changed values, error). *)
Fixpoint emit_names (prefix path interface : string) (c : node_vtable) (u : Z) (names : list string)
         (has_invalidating has_changing : bool) (changed : list (string * Z)) (error : option string)
  : DM (bool * bool * list (string * Z) * option string) :=
  match names with
  | [] => mret (has_invalidating, has_changing, changed, error)
  | property :: names' =>
      if negb (member_name_is_valid V property) then return_ (- EINVAL) else
      b <- get_bus ;;
      match hashmap_get_member (vtable_properties b) prefix interface property with
      | None => return_ (- ENOENT)
      | Some v =>
          if negb (Nat.eqb (nv_id c) (nv_id (vm_parent v)))
          then emit_names prefix path interface c u names' has_invalidating has_changing changed error else
          if negb (has_flag (flags (vm_vtable v)) SD_BUS_VTABLE_PROPERTY_EMITS_CHANGE) then return_ (- EDOM) else
          if has_flag (flags (vm_vtable v)) SD_BUS_VTABLE_PROPERTY_INVALIDATE_ONLY
          then emit_names prefix path interface c u names' true has_changing changed error else
          '(r, val, error) <- invoke_property_get TOther (vm_vtable v) path interface property
                                (vtable_property_convert_userdata (vm_vtable v) u) error ;;
          if r <? 0 then return_ r else
          b <- get_bus ;;
          if nodes_modified b then return_ 0 else
          emit_names prefix path interface c u names' has_invalidating true (changed ++ [(property, val)]) error
      end
  end.

Fixpoint emit_pass1 (prefix path interface : string) (require_fallback : bool) (names : list string)
         (l : list node_vtable) (has_invalidating has_changing : bool) (changed : list (string * Z))
         (error : option string) : DM (bool * bool * list (string * Z) * option string) :=
  match l with
  | [] => mret (has_invalidating, has_changing, changed, error)
  | c :: l' =>
      if require_fallback && negb (nv_is_fallback c)
      then emit_pass1 prefix path interface require_fallback names l' has_invalidating has_changing changed error else
      if negb (streq (nv_interface c) interface)
      then emit_pass1 prefix path interface require_fallback names l' has_invalidating has_changing changed error else
      '(r, u, error) <- node_vtable_get_userdata path c error ;;
      if r <? 0 then return_ r else
      b <- get_bus ;;
      if nodes_modified b then return_ 0 else
      if r =? 0
      then emit_pass1 prefix path interface require_fallback names l' has_invalidating has_changing changed error else
      '(hi, hc, ch, error) <- emit_names prefix path interface c u names has_invalidating has_changing changed error ;;
      emit_pass1 prefix path interface require_fallback names l' hi hc ch error
  end.

(** The second pass collects the invalidated names; its [assert_se] and
    [assert] abort the program. *)
Fixpoint emit_invalidated_names (prefix interface : string) (c : node_vtable) (names : list string)
         (acc : list string) : DM (list string) :=
  match names with
  | [] => mret acc
  | property :: names' =>
      b <- get_bus ;;
      match hashmap_get_member (vtable_properties b) prefix interface property with
      | None => crash
      | Some v =>
          if negb (Nat.eqb (nv_id c) (nv_id (vm_parent v))) then crash else
          if negb (has_flag (flags (vm_vtable v)) SD_BUS_VTABLE_PROPERTY_INVALIDATE_ONLY)
          then emit_invalidated_names prefix interface c names' acc
          else emit_invalidated_names prefix interface c names' (acc ++ [property])
      end
  end.

Fixpoint emit_pass2 (prefix path interface : string) (require_fallback : bool) (names : list string)
         (l : list node_vtable) (acc : list string) (error : option string) : DM (list string) :=
  match l with
  | [] => mret acc
  | c :: l' =>
      if require_fallback && negb (nv_is_fallback c)
      then emit_pass2 prefix path interface require_fallback names l' acc error else
      if negb (streq (nv_interface c) interface)
      then emit_pass2 prefix path interface require_fallback names l' acc error else
      '(r, _, error) <- node_vtable_get_userdata path c error ;;
      if r <? 0 then return_ r else
      b <- get_bus ;;
      if nodes_modified b then return_ 0 else
      if r =? 0 then emit_pass2 prefix path interface require_fallback names l' acc error else
      acc <- emit_invalidated_names prefix interface c names acc ;;
      emit_pass2 prefix path interface require_fallback names l' acc error
  end.

Definition emit_properties_changed_on_interface (prefix path interface : string)
           (require_fallback : bool) (names : list string) : DM Z :=
  call (
    b <- get_bus ;;
    match hashmap_get_node b prefix with
    | None => return_ 0
    | Some n =>
        '(has_invalidating, has_changing, changed, error) <-
          emit_pass1 prefix path interface require_fallback names (n_vtables n) false false [] None ;;
        if negb has_invalidating && negb has_changing then return_ 0 else
        b <- get_bus ;;
        invalidated <-
          (if has_invalidating
           then emit_pass2 prefix path interface require_fallback names (n_vtables (live_node b n)) [] error
           else mret []) ;;
        send (OPropertiesChanged path interface changed invalidated) ;;;
        mret 1
    end).

Fixpoint emit_prefixes (path interface : string) (names : list string) (ps : list string) : DM Z :=
  match ps with
  | [] => mret 0
  | prefix :: ps' =>
      r <- emit_properties_changed_on_interface prefix path interface true names ;;
      if negb (r =? 0) then return_ r else
      b <- get_bus ;;
      if nodes_modified b then mret 0 else
      emit_prefixes path interface names ps'
  end.

Fixpoint emit_rounds (fuel : nat) (path interface : string) (names : list string) : DM Z :=
  match fuel with
  | O => diverge
  | S fuel' =>
      modify_bus (with_modified false) ;;;
      r <- emit_properties_changed_on_interface path path interface false names ;;
      if negb (r =? 0) then return_ r else
      b <- get_bus ;;
      (if nodes_modified b then mret 0
       else emit_prefixes path interface names (object_path_prefixes path)) ;;;
      b <- get_bus ;;
      if nodes_modified b then emit_rounds fuel' path interface names else mret 0
  end.

Definition sd_bus_emit_properties_changed_strv_dm (fuel : nat) (path interface : string)
           (names : list string) : DM Z :=
  call (
    if negb (object_path_is_valid V path) then return_ (- EINVAL) else
    if negb (interface_name_is_valid V interface) then return_ (- EINVAL) else
    b <- get_bus ;;
    if negb (is_open b) then return_ (- ENOTCONN) else
    if pid_changed b then return_ (- ECHILD) else
    match names with [] => return_ 0 | _ => mret tt end ;;;
    emit_rounds fuel path interface names ;;;
    mret (- ENOENT)).

Definition sd_bus_emit_properties_changed_strv (fuel : nat) (path interface : string)
           (names : list string) : RM Z :=
  fun b => let '(r, (b', _)) := sd_bus_emit_properties_changed_strv_dm fuel path interface names (b, false) in (r, b').

(** [sd_bus_emit_properties_changed]: the variadic names, an empty list
    when the first [name] is NULL. *)
Definition sd_bus_emit_properties_changed (fuel : nat) (path interface : string)
           (names : list string) : RM Z :=
  call (
    b <- get ;;
    if negb (object_path_is_valid V path) then return_ (- EINVAL) else
    if negb (interface_name_is_valid V interface) then return_ (- EINVAL) else
    if negb (is_open b) then return_ (- ENOTCONN) else
    if pid_changed b then return_ (- ECHILD) else
    match names with
    | [] => return_ 0
    | _ => sd_bus_emit_properties_changed_strv fuel path interface names
    end).

(** ** InterfacesAdded

    The message under construction is the list of its entries; the wire
    calls ([sd_bus_message_append_basic], [open_container],
    [close_container]) succeed, as [sd_bus_message_open_container_ret]
    says. *)

(** The vtable loop of [interfaces_added_append_one_prefix]: [inl r] is
    its [return r], [inr (found_interface, properties)] leaves the loop. *)
Fixpoint interfaces_added_vtables (path interface : string) (require_fallback : bool)
         (l : list node_vtable) (found_interface : bool) (props : list (string * Z))
         (error : option string) : DM (Z + (bool * list (string * Z))) :=
  match l with
  | [] => mret (inr (found_interface, props))
  | c :: l' =>
      if require_fallback && negb (nv_is_fallback c)
      then interfaces_added_vtables path interface require_fallback l' found_interface props error else
      if negb (streq (nv_interface c) interface)
      then interfaces_added_vtables path interface require_fallback l' found_interface props error else
      '(r, u, error) <- node_vtable_get_userdata path c error ;;
      if r <? 0 then mret (inl r) else
      b <- get_bus ;;
      if nodes_modified b then mret (inl 0) else
      if r =? 0 then interfaces_added_vtables path interface require_fallback l' found_interface props error else
      '(r, ps, error) <- vtable_append_all_properties path c u error ;;
      if r <? 0 then mret (inl r) else
      b <- get_bus ;;
      if nodes_modified b then mret (inl 0) else
      interfaces_added_vtables path interface require_fallback l' true (props ++ ps) error
  end.

(** (r, the [a{sv}] written); on an early return the caller discards the
    message, so what was written is not kept. *)
Definition interfaces_added_append_one_prefix (prefix path interface : string) (require_fallback : bool)
  : DM (Z * list (string * Z)) :=
  b <- get_bus ;;
  match hashmap_get_node b prefix with
  | None => mret (0, [])
  | Some n =>
      o <- interfaces_added_vtables path interface require_fallback (n_vtables n) false [] None ;;
      match o with
      | inl r => mret (r, [])
      | inr (found_interface, ps) => mret (if found_interface then 1 else 0, ps)
      end
  end.

(** The [OBJECT_PATH_FOREACH_PREFIX] loop of [interfaces_added_append_one]. *)
Fixpoint interfaces_added_prefixes (path interface : string) (ps : list string) : DM (Z * list (string * Z)) :=
  match ps with
  | [] => mret (- ENOENT, [])
  | prefix :: ps' =>
      '(r, props) <- interfaces_added_append_one_prefix prefix path interface true ;;
      if negb (r =? 0) then mret (r, props) else
      b <- get_bus ;;
      if nodes_modified b then mret (0, []) else
      interfaces_added_prefixes path interface ps'
  end.

Definition interfaces_added_append_one (path interface : string) : DM (Z * list (string * Z)) :=
  '(r, props) <- interfaces_added_append_one_prefix path path interface false ;;
  if negb (r =? 0) then mret (r, props) else
  b <- get_bus ;;
  if nodes_modified b then mret (0, []) else
  interfaces_added_prefixes path interface (object_path_prefixes path).

(** [STRV_FOREACH(i, interfaces)]: its [assert_return] and [return r]
    leave [sd_bus_emit_interfaces_added_strv]; [break] on
    [nodes_modified] ends the loop. *)
Fixpoint interfaces_added_loop (path : string) (interfaces : list string)
         (acc : list (string * list (string * Z))) : DM (list (string * list (string * Z))) :=
  match interfaces with
  | [] => mret acc
  | i :: l' =>
      if negb (interface_name_is_valid V i) then return_ (- EINVAL) else
      '(r, props) <- interfaces_added_append_one path i ;;
      if r <? 0 then return_ r else
      b <- get_bus ;;
      if nodes_modified b then mret acc else
      interfaces_added_loop path l' (acc ++ [(i, props)])
  end.

(** The [do ... while (bus->nodes_modified)] loop, a new message each round. *)
Fixpoint interfaces_added_rounds (fuel : nat) (path : string) (interfaces : list string)
  : DM (list (string * list (string * Z))) :=
  match fuel with
  | O => diverge
  | S fuel' =>
      modify_bus (with_modified false) ;;;
      objs <- interfaces_added_loop path interfaces [] ;;
      b <- get_bus ;;
      if nodes_modified b then interfaces_added_rounds fuel' path interfaces else mret objs
  end.

Definition sd_bus_emit_interfaces_added_strv_dm (fuel : nat) (path : string) (interfaces : list string) : DM Z :=
  call (
    if negb (object_path_is_valid V path) then return_ (- EINVAL) else
    b <- get_bus ;;
    if negb (is_open b) then return_ (- ENOTCONN) else
    if pid_changed b then return_ (- ECHILD) else
    match interfaces with [] => return_ 0 | _ => mret tt end ;;;
    objs <- interfaces_added_rounds fuel path interfaces ;;
    send (OInterfacesAdded path objs) ;;;
    mret sd_bus_send_ret).

Definition sd_bus_emit_interfaces_added_strv (fuel : nat) (path : string) (interfaces : list string) : RM Z :=
  fun b => let '(r, (b', _)) := sd_bus_emit_interfaces_added_strv_dm fuel path interfaces (b, false) in (r, b').

(** [sd_bus_emit_interfaces_added]: the variadic interface names. *)
Definition sd_bus_emit_interfaces_added (fuel : nat) (path : string) (interfaces : list string) : RM Z :=
  call (
    b <- get ;;
    if negb (object_path_is_valid V path) then return_ (- EINVAL) else
    if negb (is_open b) then return_ (- ENOTCONN) else
    if pid_changed b then return_ (- ECHILD) else
    sd_bus_emit_interfaces_added_strv fuel path interfaces).

(** ** InterfacesRemoved *)
Definition sd_bus_emit_interfaces_removed_strv (path : string) (interfaces : list string) : RM Z :=
  call (
    b <- get ;;
    if negb (object_path_is_valid V path) then return_ (- EINVAL) else
    if negb (is_open b) then return_ (- ENOTCONN) else
    if pid_changed b then return_ (- ECHILD) else
    match interfaces with [] => return_ 0 | _ => mret tt end ;;;
    modify (fun b => with_sent (sent b ++ [OInterfacesRemoved path interfaces]) b) ;;;
    mret sd_bus_send_ret).

Definition sd_bus_emit_interfaces_removed (path : string) (interfaces : list string) : RM Z :=
  call (
    b <- get ;;
    if negb (object_path_is_valid V path) then return_ (- EINVAL) else
    if negb (is_open b) then return_ (- ENOTCONN) else
    if pid_changed b then return_ (- ECHILD) else
    sd_bus_emit_interfaces_removed_strv path interfaces).

End Engine.

(** * Concrete instances *)

(** Validators that accept everything, with the basic types of D-Bus. *)
Definition basic_type (c : ascii) : bool :=
  existsb (Ascii.eqb c) ["y"; "b"; "n"; "q"; "i"; "u"; "x"; "t"; "d"; "s"; "o"; "g"; "h"]%char.

Definition V_all : validators :=
  mkValidators (fun _ => true) (fun _ => true) (fun _ => true) (fun _ => true) (fun _ => true) basic_type.

(** EACCES for an access denial, EINVAL otherwise. *)
Definition errno_of (name : string) : Z :=
  if streq name SD_BUS_ERROR_ACCESS_DENIED then 13 else EINVAL.

(** User code that returns 0 and does nothing. *)
Definition ext_quiet : ext_call -> bus -> ext_result :=
  fun _ _ => mkExtResult 0 None [] 0 [].

Definition bus_empty : bus :=
  mkBus [] [] [] false 1 false false true false 1000 0 [] [].

Definition call_msg (path : string) (interface member : string) : sd_bus_message :=
  mkMessage METHOD_CALL path (Some interface) member "" [] (inr (mkSender 1000 [])).

(** A bus with one object callback at "/a". *)
Definition bus_one : bus :=
  snd (sd_bus_add_object V_all "/a" 1 0 bus_empty).

Definition vt_start_entry : sd_bus_vtable :=
  mkVtableEntry _SD_BUS_VTABLE_START 0 "" "" "" None None sizeof_sd_bus_vtable 0.
Definition vt_end_entry : sd_bus_vtable :=
  mkVtableEntry _SD_BUS_VTABLE_END 0 "" "" "" None None 0 0.
Definition vt_method_foo : sd_bus_vtable :=
  mkVtableEntry _SD_BUS_VTABLE_METHOD 0 "Foo" "" "" (Some 7%nat) None 0 0.
Definition nv_sample : node_vtable :=
  mkNodeVtable 5 false "org.example.I" (mkVtable 1 [vt_start_entry; vt_method_foo; vt_end_entry]) 0 None.
Definition vm_foo : vtable_member :=
  mkVtableMember 6 "/a" "org.example.I" "Foo" nv_sample vt_method_foo 0.

Definition bus_trusted : bus :=
  mkBus [] [] [] false 1 true false true false 1000 0 [] [].

(** A caller with another UID that holds CAP_SYS_ADMIN. *)
Definition msg_admin_other_uid : sd_bus_message :=
  mkMessage METHOD_CALL "/a" (Some "org.example.I"%string) "Foo" "" [] (inr (mkSender 2000 [CAP_SYS_ADMIN])).

(** Two object callbacks registered at "/a", callback 1 first. *)
Definition bus_two : bus :=
  snd (sd_bus_add_object V_all "/a" 2 0 bus_one).

(** The capability the access check requires, in the words of §4.3
    step 4: the member's tag minus one, else the interface's tag minus
    one, else CAP_SYS_ADMIN. *)
Definition spec_required_capability (c : vtable_member) : Z :=
  let t := CAPABILITY_SHIFT (flags (vm_vtable c)) in
  if negb (t =? 0) then t - 1 else
  let t0 := CAPABILITY_SHIFT (flags (vtable_start (nv_vtable (vm_parent c)))) in
  if negb (t0 =? 0) then t0 - 1 else CAP_SYS_ADMIN.

(** * The last_iteration guard: what the engine records *)

(** Invocations guarded by [last_iteration]: node callbacks, method
    handlers and property setters. *)
Definition guarded_tag (t : tag) : bool :=
  match t with TCallback _ | TMethod _ | TSet _ => true | _ => false end.

Definition tag_id (t : tag) : nat :=
  match t with TCallback i | TMethod i | TGet i | TSet i => i | TOther => O end.

Definition guarded (l : list tag) : list tag := filter guarded_tag l.

(** A record that already ran in this iteration carries the current
    counter; every allocation is below [next_id]. *)
Definition cb_ok (b : bus) (c : node_callback) : Prop :=
  (cb_id c < next_id b)%nat /\
  (In (TCallback (cb_id c)) (trace b) -> cb_last_iteration c = iteration_counter b).

Definition node_ok (b : bus) (n : node) : Prop :=
  NoDup (map cb_id (n_callbacks n)) /\ Forall (cb_ok b) (n_callbacks n).

Definition method_ok (b : bus) (v : vtable_member) : Prop :=
  (vm_id v < next_id b)%nat /\
  (In (TMethod (vm_id v)) (trace b) -> vm_last_iteration v = iteration_counter b).

Definition property_ok (b : bus) (v : vtable_member) : Prop :=
  (vm_id v < next_id b)%nat /\
  (In (TSet (vm_id v)) (trace b) -> vm_last_iteration v = iteration_counter b).

Definition trace_ok (b : bus) : Prop :=
  forall t, In t (trace b) -> guarded_tag t = true -> (tag_id t < next_id b)%nat.

Record Inv (b : bus) : Prop := {
  inv_nodes : Forall (node_ok b) (nodes b);
  inv_methods : Forall (method_ok b) (vtable_methods b);
  inv_properties : Forall (property_ok b) (vtable_properties b);
  inv_trace : trace_ok b;
  inv_nodup : NoDup (guarded (trace b));
}.

(** A bus as registration leaves it: allocations below [next_id] and the
    callbacks of a node pairwise distinct. *)
Definition bus_wf (b : bus) : Prop :=
  Forall (fun n => NoDup (map cb_id (n_callbacks n)) /\
                   Forall (fun c => (cb_id c < next_id b)%nat) (n_callbacks n)) (nodes b) /\
  Forall (fun v => (vm_id v < next_id b)%nat) (vtable_methods b) /\
  Forall (fun v => (vm_id v < next_id b)%nat) (vtable_properties b).

(** What registration keeps. *)
Definition frame (b b' : bus) : Prop :=
  trace b' = trace b /\ sent b' = sent b /\ iteration_counter b' = iteration_counter b /\
  (next_id b <= next_id b')%nat.

Definition rpres_at {A} (b : bus) (m : RM A) : Prop :=
  frame b (snd (m b)) /\ (Inv b -> Inv (snd (m b))).

(** What the dispatcher keeps: [keep_sent] for code that sends nothing,
    [keep_guarded] for code that runs no guarded invocation. *)
Definition dframe (keep_sent keep_guarded : bool) (b b' : bus) : Prop :=
  iteration_counter b' = iteration_counter b /\ (next_id b <= next_id b')%nat /\
  (keep_sent = true -> sent b' = sent b) /\
  (keep_guarded = true -> guarded (trace b') = guarded (trace b)).

Definition dpres_at {A} (ks kg : bool) (s : bus * bool) (m : DM A) : Prop :=
  dframe ks kg (fst s) (fst (snd (m s))) /\ (Inv (fst s) -> Inv (fst (snd (m s)))).

(** The properties whose record [i] carries the current counter. *)
Definition stamped_set (b : bus) (i : nat) : Prop :=
  Forall (fun v => vm_id v = i -> vm_last_iteration v = iteration_counter b) (vtable_properties b).

(** * Helpers for the emitter and registration statements *)

Definition prop_inv_only (v : vtable_member) : bool :=
  has_flag (flags (vm_vtable v)) SD_BUS_VTABLE_PROPERTY_INVALIDATE_ONLY.

Definition prop_emits (v : vtable_member) : bool :=
  has_flag (flags (vm_vtable v)) SD_BUS_VTABLE_PROPERTY_EMITS_CHANGE.

(** A property without a custom getter whose signature the automatic
    getter accepts: [invoke_property_get] neither calls user code nor
    aborts on it. *)
Definition getterless_ok (V : validators) (v : vtable_member) : bool :=
  match handler (vm_vtable v) with
  | None => streq (signature (vm_vtable v)) "as" ||
            (signature_is_single V (signature (vm_vtable v)) && bus_type_is_basic V (first_char (signature (vm_vtable v))))
  | Some _ => false
  end.

Definition vtable_resolves (ext : ext_call -> bus -> ext_result) (path : string) (c : node_vtable) (u : Z) : Prop :=
  match nv_find c with
  | None => u = nv_userdata c
  | Some fd => forall b0,
      0 < er_ret (ext (XFind fd path (nv_interface c) (nv_userdata c)) b0) /\
      er_error (ext (XFind fd path (nv_interface c) (nv_userdata c)) b0) = None /\
      er_ops (ext (XFind fd path (nv_interface c) (nv_userdata c)) b0) = [] /\
      er_value (ext (XFind fd path (nv_interface c) (nv_userdata c)) b0) = u
  end.

Definition same_tree (b b' : bus) : Prop :=
  nodes b' = nodes b /\ vtable_properties b' = vtable_properties b /\
  nodes_modified b' = nodes_modified b /\ sent b' = sent b.

(** Name [q] is valid and indexed in [props] under [prefix]/[interface]
    as the record [look q] of vtable [c]. *)
Definition prop_indexed (V : validators) (props : list vtable_member) (prefix interface : string)
           (c : node_vtable) (look : string -> vtable_member) (q : string) : Prop :=
  member_name_is_valid V q = true /\
  hashmap_get_member props prefix interface q = Some (look q) /\
  nv_id (vm_parent (look q)) = nv_id c.

(** Reading property record [v], named [q], of an object at [path] with
    vtable userdata [u] gives [val]: the automatic getter, or a custom
    getter that succeeds, sets no error and registers nothing. *)
Definition prop_reads (V : validators) (ext : ext_call -> bus -> ext_result) (path interface : string)
           (u : Z) (v : vtable_member) (q : string) (val : Z) : Prop :=
  match handler (vm_vtable v) with
  | None => getterless_ok V v = true /\ val = vtable_property_convert_userdata (vm_vtable v) u
  | Some g => forall b0,
      0 <= er_ret (ext (XGet g path interface q (vtable_property_convert_userdata (vm_vtable v) u)) b0) /\
      er_error (ext (XGet g path interface q (vtable_property_convert_userdata (vm_vtable v) u)) b0) = None /\
      er_ops (ext (XGet g path interface q (vtable_property_convert_userdata (vm_vtable v) u)) b0) = [] /\
      er_value (ext (XGet g path interface q (vtable_property_convert_userdata (vm_vtable v) u)) b0) = val
  end.

Definition prop_emitted (V : validators) (ext : ext_call -> bus -> ext_result) (props : list vtable_member)
           (prefix path interface : string) (c : node_vtable) (u : Z) (look : string -> vtable_member)
           (val : string -> Z) (q : string) : Prop :=
  prop_indexed V props prefix interface c look q /\ prop_emits (look q) = true /\
  (prop_inv_only (look q) = false -> prop_reads V ext path interface u (look q) q (val q)).

(** The signal of an attempt over [names]. *)
Definition prop_signal (path iface : string) (look : string -> vtable_member) (val : string -> Z)
           (names : list string) : out :=
  OPropertiesChanged path iface
    (map (fun q => (q, val q)) (filter (fun q => negb (prop_inv_only (look q))) names))
    (filter (fun q => prop_inv_only (look q)) names).

(** A computation that never ends with an early [return]. *)
Definition no_early_return {S A} (m : ST S A) : Prop := forall s r s', m s <> (Ret r, s').

(** A PROPERTY or WRITABLE_PROPERTY entry that [add_members] refuses. *)
Definition property_entry_rejected (V : validators) (v : sd_bus_vtable) : bool :=
  match type v with
  | _SD_BUS_VTABLE_PROPERTY => property_entry_invalid V v
  | _SD_BUS_VTABLE_WRITABLE_PROPERTY => writable_entry_invalid V v || property_entry_invalid V v
  | _ => false
  end.

(** The value a function body returns or returns early satisfies [P]. *)
Definition res_sat {S} (P : Z -> Prop) (p : res Z * S) : Prop :=
  match fst p with Go x | Ret x => P x | _ => True end.

(** * More concrete instances *)

(** A property "P" of "org.example.I" at "/a" with a custom getter. *)
Definition vt_prop_p : sd_bus_vtable :=
  mkVtableEntry _SD_BUS_VTABLE_PROPERTY 0 "P" "s" "" (Some 9%nat) None 0 0.
Definition vt_with_p : vtable_ref := mkVtable 2 [vt_start_entry; vt_prop_p; vt_end_entry].
Definition bus_prop : bus := snd (add_object_vtable_internal V_all "/a" "org.example.I" vt_with_p false None 0 bus_empty).

(** A getter that registers an object manager at "/b" when there is no
    node there yet, which makes the dispatch restart. *)
Definition ext_get_grows : ext_call -> bus -> ext_result :=
  fun x b => match x with
  | XGet _ _ _ _ _ => match hashmap_get_node b "/b" with
                      | None => mkExtResult 0 None [OpAddObjectManager "/b"] 3 []
                      | Some _ => mkExtResult 0 None [] 3 [] end
  | _ => mkExtResult 0 None [] 0 [] end.

Definition msg_get_p : sd_bus_message :=
  mkMessage METHOD_CALL "/a" (Some IFACE_PROPERTIES) "Get" "ss" [AStr "org.example.I"; AStr "P"] (inr (mkSender 1000 [])).

(** An object manager at "/a", which has a vtable and no children. *)
Definition bus_prop_om : bus := snd (sd_bus_add_object_manager V_all "/a" bus_prop).
Definition node_prop_om : node := Eval vm_compute in
  match hashmap_get_node bus_prop_om "/a" with Some n => n | None => mkNode "" None [] [] [] [] false end.
Definition msg_gmo : sd_bus_message := call_msg "/a" IFACE_OBJECT_MANAGER "GetManagedObjects".

(** A fallback vtable at "/" with property "Q", and an exact vtable at
    "/a" of the same interface with property "P". *)
Definition vt_prop_emit (name : string) : sd_bus_vtable :=
  mkVtableEntry _SD_BUS_VTABLE_PROPERTY SD_BUS_VTABLE_PROPERTY_EMITS_CHANGE name "s" "" None None 0 0.
Definition vt_with_emit (ptr : nat) (name : string) : vtable_ref := mkVtable ptr [vt_start_entry; vt_prop_emit name; vt_end_entry].
Definition bus_fallback_q : bus :=
  snd (add_object_vtable_internal V_all "/" "org.example.I" (vt_with_emit 3 "Q") true None 0 bus_empty).
Definition bus_exact_p : bus :=
  snd (add_object_vtable_internal V_all "/a" "org.example.I" (vt_with_emit 4 "P") false None 0 bus_fallback_q).

(** Properties "P" (EMITS_CHANGE), "N" (no flag) and "R"
    (EMITS_CHANGE and INVALIDATE_ONLY) at "/a", userdata 7. *)
Definition vt_prop_flags (name : string) (fl : Z) : sd_bus_vtable :=
  mkVtableEntry _SD_BUS_VTABLE_PROPERTY fl name "s" "" None None 0 0.
Definition vt_three : vtable_ref :=
  mkVtable 5 [vt_start_entry; vt_prop_flags "P" SD_BUS_VTABLE_PROPERTY_EMITS_CHANGE; vt_prop_flags "N" 0;
              vt_prop_flags "R" (Z.lor SD_BUS_VTABLE_PROPERTY_EMITS_CHANGE SD_BUS_VTABLE_PROPERTY_INVALIDATE_ONLY); vt_end_entry].
Definition bus_three : bus :=
  with_modified false (snd (add_object_vtable_internal V_all "/a" "org.example.I" vt_three false None 7 bus_empty)).
Definition node_three : node := Eval vm_compute in
  match hashmap_get_node bus_three "/a" with Some n => n | None => mkNode "" None [] [] [] [] false end.
Definition vtable_three : node_vtable := Eval vm_compute in
  match n_vtables node_three with c :: _ => c | [] => nv_sample end.
Definition look_three (q : string) : vtable_member :=
  match hashmap_get_member (vtable_properties bus_three) "/a" "org.example.I" q with Some v => v | None => vm_foo end.

(** A vtable whose only entry is a PROPERTY flagged INVALIDATE_ONLY
    without EMITS_CHANGE. *)
Definition vt_bad_prop : sd_bus_vtable :=
  mkVtableEntry _SD_BUS_VTABLE_PROPERTY SD_BUS_VTABLE_PROPERTY_INVALIDATE_ONLY "B" "s" "" None None 0 0.
Definition vt_with_bad : vtable_ref := mkVtable 6 [vt_start_entry; vt_bad_prop; vt_end_entry].
(** A method and a valid property, then the invalid property. *)
Definition vt_ok_then_bad : vtable_ref :=
  mkVtable 8 [vt_start_entry; vt_method_foo; vt_prop_emit "P"; vt_bad_prop; vt_end_entry].

(** ** Registration helpers and further instances *)

Definition root_node : node := mkNode "/" None [] [] [] [] false.

Definition with_root (b : bus) : bus :=
  match hashmap_get_node b "/" with Some _ => b | None => with_nodes (root_node :: nodes b) b end.

(** The bus after [bus_node_allocate] creates [path]. *)
Definition alloc_fresh (path : string) (b : bus) : bus :=
  if streq path "/" then with_nodes (root_node :: nodes b) b
  else let b1 := with_root b in
       with_nodes (node_update "/" (fun pn => with_child (path :: n_child pn) pn)
                     (mkNode path (Some "/"%string) [] [] [] [] false :: nodes b1)) b1.

Definition reg_op_path (o : reg_op) : string :=
  match o with
  | OpAddObject _ p _ _ | OpRemoveObject _ p _ _ => p
  | OpAddVtable p _ _ _ _ _ | OpRemoveVtable p _ _ _ _ _ => p
  | OpAddNodeEnumerator p _ _ | OpRemoveNodeEnumerator p _ _ => p
  | OpAddObjectManager p | OpRemoveObjectManager p => p
  end.

Definition vtable_conflict (fallback : bool) (interface : string) (vtable : vtable_ref) (i : node_vtable) : Prop :=
  nv_is_fallback i <> fallback \/ (nv_interface i = interface /\ vt_ptr (nv_vtable i) = vt_ptr vtable).

Definition no_vtable_for (b : bus) (i p : string) : Prop :=
  match hashmap_get_node b p with
  | None => True
  | Some n => Forall (fun c => nv_interface c <> i) (n_vtables n)
  end.

Definition is_method (v : sd_bus_vtable) : bool :=
  match type v with _SD_BUS_VTABLE_METHOD => true | _ => false end.

Definition is_property (v : sd_bus_vtable) : bool :=
  match type v with _SD_BUS_VTABLE_PROPERTY | _SD_BUS_VTABLE_WRITABLE_PROPERTY => true | _ => false end.

(** Entry [w], placed after the entries [pre] of the same vtable, names
    a member already indexed under [path]/[interface] in [b], or one
    that an entry of [pre] of the same kind names too. *)
Definition member_taken (b : bus) (path interface : string) (pre : list sd_bus_vtable) (w : sd_bus_vtable) : Prop :=
  (is_method w = true /\
   (hashmap_get_member (vtable_methods b) path interface (member w) <> None \/
    exists w', In w' pre /\ is_method w' = true /\ member w' = member w)) \/
  (is_property w = true /\
   (hashmap_get_member (vtable_properties b) path interface (member w) <> None \/
    exists w', In w' pre /\ is_property w' = true /\ member w' = member w)).

(** The members [add_members] put in one index: newest first, one per
    entry, all under the new key, none of whose keys was taken. *)
Definition block_ok (old new : list vtable_member) (np : string) (c : node_vtable) (es : list sd_bus_vtable) : Prop :=
  map vm_vtable new = rev es /\
  Forall (fun m => vm_path m = np /\ vm_interface m = nv_interface c /\ vm_member m = member (vm_vtable m) /\ vm_parent m = c) new /\
  NoDup (map member es) /\
  Forall (fun v => hashmap_get_member old np (nv_interface c) (member v) = None) es.

Definition index_update (ms ps : list vtable_member) (k : nat) (b : bus) : bus :=
  with_methods ms (with_properties ps (with_next_id k b)).

(** The members of one key block that [free_node_vtable] takes out. *)
Definition rm_inv (nm : list vtable_member) (np i : string) (es : list sd_bus_vtable) : Prop :=
  map vm_vtable nm = rev es /\
  Forall (fun m => vm_path m = np /\ vm_interface m = i /\ vm_member m = member (vm_vtable m)) nm /\
  NoDup (map member es).

Definition free_step (np : string) (w : node_vtable) (b : bus) (v : sd_bus_vtable) : bus :=
  match type v with
  | _SD_BUS_VTABLE_METHOD =>
      with_methods (hashmap_remove_member (vtable_methods b) np (nv_interface w) (member v)) b
  | _SD_BUS_VTABLE_PROPERTY | _SD_BUS_VTABLE_WRITABLE_PROPERTY =>
      with_properties (hashmap_remove_member (vtable_properties b) np (nv_interface w) (member v)) b
  | _ => b
  end.

Definition vt_foo : vtable_ref := mkVtable 1 [vt_start_entry; vt_method_foo; vt_end_entry].
Definition vt_foo2 : vtable_ref := mkVtable 2 [vt_start_entry; vt_method_foo; vt_end_entry].
Definition bus_vt : bus :=
  snd (add_object_vtable_internal V_all "/a" "org.example.I" vt_foo false None 0 bus_empty).
(** Object callback 1 and method "Foo" of "org.example.I" at "/a". *)
Definition bus_cb_vt : bus :=
  snd (add_object_vtable_internal V_all "/a" "org.example.I" vt_foo false None 0 bus_one).
(** A node callback that registers an object manager at "/b" when there
    is no node there yet, which makes the dispatch restart, and a method
    handler that returns 1. *)
Definition ext_cb_grows : ext_call -> bus -> ext_result :=
  fun x b => match x with
  | XCallback _ _ _ => match hashmap_get_node b "/b" with
                       | None => mkExtResult 0 None [OpAddObjectManager "/b"] 0 []
                       | Some _ => mkExtResult 0 None [] 0 [] end
  | XMethod _ _ _ => mkExtResult 1 None [] 0 []
  | _ => mkExtResult 0 None [] 0 [] end.
Definition bus_forked : bus :=
  mkBus [] [] [] false 1 false false true true 1000 0 [] [].
Definition V_rooted : validators :=
  mkValidators (fun p => match p with String "/" _ => true | _ => false end)
    (fun _ => true) (fun _ => true) (fun _ => true) (fun _ => true) basic_type.

(** The early [return]s of a computation return values that are at most
    zero. *)
Definition ret_nonpos {S A} (m : ST S A) : Prop := forall s r s', m s = (Ret r, s') -> r <= 0.

(** [emit_zero_attempts s s0]: from [s], the restart loop of
    [sd_bus_emit_properties_changed_strv] can reach [s0] by emission
    attempts (the exact path without [require_fallback], or a prefix of
    it with [require_fallback]) that all return 0, and by the resets of
    [nodes_modified] that open its rounds. *)
Inductive emit_zero_attempts (V : validators) (ext : ext_call -> bus -> ext_result) (ee : string -> Z)
          (path interface : string) (names : list string) : bus * bool -> bus * bool -> Prop :=
| eza_done s : emit_zero_attempts V ext ee path interface names s s
| eza_attempt prefix rf s s1 s2 :
    (prefix = path /\ rf = false \/ In prefix (object_path_prefixes path) /\ rf = true) ->
    emit_properties_changed_on_interface V ext ee prefix path interface rf names s = (Go 0, s1) ->
    emit_zero_attempts V ext ee path interface names s1 s2 ->
    emit_zero_attempts V ext ee path interface names s s2
| eza_reset s s2 :
    emit_zero_attempts V ext ee path interface names (with_modified false (fst s), snd s) s2 ->
    emit_zero_attempts V ext ee path interface names s s2.

(** [subsequence l l']: [l] is [l'] with some elements left out, the
    others kept in order. *)
Inductive subsequence {A} : list A -> list A -> Prop :=
| subsequence_nil : subsequence [] []
| subsequence_skip x l l' : subsequence l l' -> subsequence l (x :: l')
| subsequence_take x l l' : subsequence l l' -> subsequence (x :: l) (x :: l').

(** * Properties *)

(** C10: a message that is not a method call, and any message on a bus
    with no nodes, is answered with 0 and leaves the bus as it was: no
    user code is invoked (the trace is unchanged) and nothing is sent. *)
Theorem bus_process_object_ignored (V : validators) ext ee fuel m b :
  (m_type m <> METHOD_CALL \/ nodes b = []) ->
  bus_process_object V ext ee fuel m b = (Go 0, b).
Proof.
  intros H.
  unfold bus_process_object, bus_process_object_dm, call, mbind, get_bus, return_, mret.
  destruct H as [H | H].
  - unfold is_method_call_type. destruct (m_type m); try reflexivity. congruence.
  - destruct (is_method_call_type m); simpl; [rewrite H|]; reflexivity.
Qed.

Lemma bus_process_object_ignored_witness :
  bus_process_object V_all ext_quiet errno_of 3
    (mkMessage SIGNAL "/a" None "Changed" "" [] (inl 0)) bus_one = (Go 0, bus_one).
Proof. apply bus_process_object_ignored. left. discriminate. Defined.

(** C1 (counterexample): a method call to a path where nothing is
    registered, on a bus that has nodes, makes every attempt return 0
    and leaves found_object unset; the call returns 0 and no
    UNKNOWN_METHOD reply is sent. *)
Lemma bus_process_object_no_reply_counterexample :
  let '(r, b') := bus_process_object V_all ext_quiet errno_of 3 (call_msg "/b" "org.example.I" "Foo") bus_one in
  r = Go 0 /\ sent b' = [].
Proof. vm_compute. split; reflexivity. Qed.

(** C1 (amended): when every attempt of the dispatch returns 0, the
    UNKNOWN_PROPERTY (Properties.Get/Set) or UNKNOWN_METHOD reply is
    sent, and 1 returned, exactly when found_object was set; without it
    0 is returned and nothing is sent.  When an attempt returns a
    non-zero value, that value is returned and no such reply is added. *)
Theorem bus_process_object_unknown (V : validators) ext ee fuel m b b' f r :
  is_method_call_type m = true -> nodes b <> [] ->
  (process_rounds V ext ee fuel m (b, false) = (Go 0, (b', f)) ->
   bus_process_object V ext ee fuel m b =
     if f then
       (Go 1, with_sent (sent b' ++
                 [OError (if sd_bus_message_is_method_call m IFACE_PROPERTIES "Get" ||
                             sd_bus_message_is_method_call m IFACE_PROPERTIES "Set"
                          then SD_BUS_ERROR_UNKNOWN_PROPERTY else SD_BUS_ERROR_UNKNOWN_METHOD)]) b')
     else (Go 0, b')) /\
  (process_rounds V ext ee fuel m (b, false) = (Ret r, (b', f)) ->
   bus_process_object V ext ee fuel m b = (Go r, b')).
Proof.
  intros Hm Hn.
  unfold bus_process_object, bus_process_object_dm, call, mbind, get_bus, return_, mret.
  rewrite Hm. simpl.
  destruct (nodes b) as [|nd ns] eqn:E; [congruence|].
  split; intros Hr; rewrite Hr; [|reflexivity].
  unfold get_found. destruct f; [|reflexivity].
  unfold sd_bus_reply_method_errorf, send, modify_bus, mbind, mret.
  rewrite Hm.
  destruct (sd_bus_message_is_method_call m IFACE_PROPERTIES "Get" ||
            sd_bus_message_is_method_call m IFACE_PROPERTIES "Set"); reflexivity.
Qed.

Lemma bus_process_object_unknown_witness :
  let '(r, b') := bus_process_object V_all ext_quiet errno_of 3 (call_msg "/a" "org.example.I" "Foo") bus_one in
  r = Go 1 /\ sent b' = [OError SD_BUS_ERROR_UNKNOWN_METHOD].
Proof.
  pose proof (proj1 (bus_process_object_unknown V_all ext_quiet errno_of 3 (call_msg "/a" "org.example.I" "Foo") bus_one
    (fst (snd (process_rounds V_all ext_quiet errno_of 3 (call_msg "/a" "org.example.I" "Foo") (bus_one, false))))
    (snd (snd (process_rounds V_all ext_quiet errno_of 3 (call_msg "/a" "org.example.I" "Foo") (bus_one, false))))
    0 eq_refl ltac:(vm_compute; discriminate)) ltac:(vm_compute; reflexivity)) as H.
  rewrite H. vm_compute. split; reflexivity.
Defined.

(** C3 (counterexample): on a trusted bus the access check returns 0
    and sets no error, and access is granted: 0 does not mean denial. *)
Lemma check_access_trusted_counterexample :
  check_access errno_of bus_trusted (call_msg "/a" "org.example.I" "Foo") vm_foo None = (0, None).
Proof. reflexivity. Qed.

(** The access check by cases: the trusted or UNPRIVILEGED grant, then
    the credential query, then the capability and UID tests. *)
Lemma check_access_cases ee b m c error :
  check_access ee b m c error =
    if trusted b || has_flag (flags (vm_vtable c)) SD_BUS_VTABLE_UNPRIVILEGED then (0, error) else
    match m_sender m with
    | inl q => if q <? 0 then (q, error) else sd_bus_error_setf ee SD_BUS_ERROR_ACCESS_DENIED
    | inr s =>
        if (is_kernel b && existsb (Z.eqb (spec_required_capability c)) (s_effective_caps s)) ||
           (s_uid s =? self_uid b)
        then (1, error) else sd_bus_error_setf ee SD_BUS_ERROR_ACCESS_DENIED
    end.
Proof.
  unfold check_access, sd_bus_query_sender_creds.
  destruct (trusted b); [reflexivity|].
  destruct (has_flag (flags (vm_vtable c)) SD_BUS_VTABLE_UNPRIVILEGED); [reflexivity|]. cbn [orb].
  destruct (m_sender m) as [q | s].
  - destruct (q <? 0); [reflexivity|].
    match goal with |- context [sd_bus_creds_has_effective_cap ?cr ?cap] => generalize cap; intro k end.
    reflexivity.
  - cbv beta iota zeta. unfold spec_required_capability.
    assert (Hcap : forall t t0 : Z,
              (if (if t =? 0 then t0 else t) =? 0 then CAP_SYS_ADMIN else (if t =? 0 then t0 else t) - 1) =
              (if negb (t =? 0) then t - 1 else if negb (t0 =? 0) then t0 - 1 else CAP_SYS_ADMIN)).
    { intros t t0. destruct (t =? 0) eqn:E; cbn [negb]; [destruct (t0 =? 0); reflexivity|rewrite E; reflexivity]. }
    rewrite Hcap.
    generalize (if negb (CAPABILITY_SHIFT (flags (vm_vtable c)) =? 0) then CAPABILITY_SHIFT (flags (vm_vtable c)) - 1
                else if negb (CAPABILITY_SHIFT (flags (vtable_start (nv_vtable (vm_parent c)))) =? 0)
                then CAPABILITY_SHIFT (flags (vtable_start (nv_vtable (vm_parent c)))) - 1 else CAP_SYS_ADMIN).
    intro k.
    unfold sd_bus_creds_has_effective_cap, sd_bus_creds_get_uid; cbn [cr_effective_caps cr_uid].
    destruct (is_kernel b); cbn [andb orb].
    + destruct (existsb (Z.eqb k) (s_effective_caps s)); cbn [orb]; [reflexivity|].
      change (0 <? 0) with false. cbv iota. change (0 <=? 0) with true. reflexivity.
    + change (0 <? - ENODATA) with false. cbv iota. change (0 <=? 0) with true. reflexivity.
Qed.

(** C3 (amended): the access check returns 0 with the error untouched
    when the bus is trusted or the member is UNPRIVILEGED.  Otherwise a
    failed credential query (negative code [q]) gives [q] with the error
    untouched; after a query that succeeds, a caller admitted by the
    capability or UID test gets 1 with the error untouched; and every
    other case gives the value of setting ACCESS_DENIED: the negated
    errno of that error name, with that error name set.  Only the last
    outcome denies access.  As the errno of ACCESS_DENIED is positive, a
    result of 0 is never a denial: it leaves the error untouched and
    comes only from the trusted or UNPRIVILEGED grant. *)
Theorem check_access_outcomes ee b m c error :
  check_access ee b m c error =
    (if trusted b || has_flag (flags (vm_vtable c)) SD_BUS_VTABLE_UNPRIVILEGED then (0, error) else
     match m_sender m with
     | inl q =>
         if q <? 0 then (q, error)
         else (- ee SD_BUS_ERROR_ACCESS_DENIED, Some SD_BUS_ERROR_ACCESS_DENIED)
     | inr s =>
         if (is_kernel b && existsb (Z.eqb (spec_required_capability c)) (s_effective_caps s)) ||
            (s_uid s =? self_uid b)
         then (1, error) else (- ee SD_BUS_ERROR_ACCESS_DENIED, Some SD_BUS_ERROR_ACCESS_DENIED)
     end) /\
  (0 < ee SD_BUS_ERROR_ACCESS_DENIED ->
   fst (check_access ee b m c error) = 0 ->
   snd (check_access ee b m c error) = error /\
   (trusted b = true \/ has_flag (flags (vm_vtable c)) SD_BUS_VTABLE_UNPRIVILEGED = true)).
Proof.
  rewrite check_access_cases. unfold sd_bus_error_setf. split; [reflexivity|].
  intros Hee. destruct (trusted b); [intros _; split; [reflexivity | left; reflexivity]|].
  destruct (has_flag (flags (vm_vtable c)) SD_BUS_VTABLE_UNPRIVILEGED); [intros _; split; [reflexivity | right; reflexivity]|].
  cbn [orb]. destruct (m_sender m) as [q | s].
  - destruct (q <? 0) eqn:Hq; cbn [fst]; intros H0; [apply Z.ltb_lt in Hq; lia | lia].
  - destruct (_ || _); cbn [fst]; intros H0; lia.
Qed.

(** C4 (counterexample): on a bus that is not kernel-mediated, a caller
    holding the required capability (CAP_SYS_ADMIN here) but with another
    UID is denied: its capability set is not consulted. *)
Lemma check_access_userspace_counterexample :
  check_access errno_of bus_empty msg_admin_other_uid vm_foo None =
    (- 13, Some SD_BUS_ERROR_ACCESS_DENIED).
Proof. reflexivity. Qed.

(** C4 (amended): on a bus that is not trusted, for a member that is not
    UNPRIVILEGED: when the credential query succeeds, the caller is
    admitted (1) when the bus is kernel-mediated and the caller holds the
    required capability (the member's tag minus one, else the interface
    START entry's tag minus one, else CAP_SYS_ADMIN), or when its UID is
    the process's UID, and is otherwise denied with ACCESS_DENIED; when
    the query fails with a negative code, that code is returned, with the
    error untouched, instead of ACCESS_DENIED. *)
Theorem check_access_capability ee b m c error :
  trusted b = false ->
  has_flag (flags (vm_vtable c)) SD_BUS_VTABLE_UNPRIVILEGED = false ->
  (forall s, m_sender m = inr s ->
   check_access ee b m c error =
     if (is_kernel b && existsb (Z.eqb (spec_required_capability c)) (s_effective_caps s)) ||
        (s_uid s =? self_uid b)
     then (1, error) else sd_bus_error_setf ee SD_BUS_ERROR_ACCESS_DENIED) /\
  (forall q, m_sender m = inl q -> q < 0 -> check_access ee b m c error = (q, error)).
Proof.
  intros Ht Hu. rewrite check_access_cases, Ht, Hu. cbn [orb].
  split; intros x Hs; rewrite Hs; [reflexivity|].
  intros Hq. apply Z.ltb_lt in Hq. rewrite Hq. reflexivity.
Qed.
Lemma check_access_capability_witness :
  check_access errno_of bus_empty msg_admin_other_uid vm_foo None =
    sd_bus_error_setf errno_of SD_BUS_ERROR_ACCESS_DENIED /\
  check_access errno_of bus_empty
    (mkMessage METHOD_CALL "/a" (Some "org.example.I"%string) "Foo" "" [] (inl (- ENODATA))) vm_foo None =
    (- ENODATA, None).
Proof.
  split.
  - apply (proj1 (check_access_capability errno_of bus_empty msg_admin_other_uid vm_foo None eq_refl eq_refl)
             (mkSender 2000 [CAP_SYS_ADMIN]) eq_refl).
  - apply (proj2 (check_access_capability errno_of bus_empty
             (mkMessage METHOD_CALL "/a" (Some "org.example.I"%string) "Foo" "" [] (inl (- ENODATA))) vm_foo None
             eq_refl eq_refl) (- ENODATA) eq_refl).
    cbv; reflexivity.
Defined.

(** C3 witness: the errno of ACCESS_DENIED is 13, and the trusted grant
    of the counterexample. *)
Lemma check_access_outcomes_witness :
  0 < errno_of SD_BUS_ERROR_ACCESS_DENIED /\
  snd (check_access errno_of bus_trusted (call_msg "/a" "org.example.I" "Foo") vm_foo None) = None /\
  (trusted bus_trusted = true \/ has_flag (flags (vm_vtable vm_foo)) SD_BUS_VTABLE_UNPRIVILEGED = true).
Proof.
  assert (H : 0 < errno_of SD_BUS_ERROR_ACCESS_DENIED) by reflexivity.
  split; [exact H|].
  apply (proj2 (check_access_outcomes errno_of bus_trusted (call_msg "/a" "org.example.I" "Foo") vm_foo None) H).
  reflexivity.
Defined.

(** ** Node store lookups *)
Lemma node_get_path ns p n : node_get ns p = Some n -> n_path n = p.
Proof.
  induction ns as [|x ns IH]; simpl; [discriminate|].
  destruct (streq (n_path x) p) eqn:E; [|exact IH].
  intros H; injection H as <-. apply String.eqb_eq. exact E.
Qed.

Lemma node_get_update ns p f :
  (forall n, n_path (f n) = n_path n) ->
  node_get (node_update p f ns) p = option_map f (node_get ns p).
Proof.
  intros Hf. induction ns as [|x ns IH]; simpl; [reflexivity|].
  destruct (streq (n_path x) p) eqn:E; simpl.
  - rewrite Hf, E. reflexivity.
  - rewrite E. exact IH.
Qed.

(** C5 (counterexample): callback 1 registered at "/a" before callback
    2; the node's list holds 2 first, and a dispatch runs record 1
    (callback 2) before record 0 (callback 1). *)
Lemma node_callbacks_registration_order_counterexample :
  option_map (fun n => map (fun c => (cb_id c, cb_callback c)) (n_callbacks n)) (hashmap_get_node bus_two "/a") =
    Some [(1%nat, 2%nat); (0%nat, 1%nat)] /\
  trace (snd (bus_process_object V_all ext_quiet errno_of 3 (call_msg "/a" "org.example.I" "Foo") bus_two)) =
    [TCallback 1; TCallback 0].
Proof. vm_compute. split; reflexivity. Qed.


(** * The dispatch and emission invariants *)


(** ** Registration keeps the invariant *)

Lemma frame_refl b : frame b b.
Proof. repeat split; auto. Qed.

Lemma frame_trans b1 b2 b3 : frame b1 b2 -> frame b2 b3 -> frame b1 b3.
Proof. unfold frame; intros (A1 & B1 & C1 & D1) (A2 & B2 & C2 & D2); repeat split; congruence || lia. Qed.

Lemma cb_ok_mono b b' c : frame b b' -> cb_ok b c -> cb_ok b' c.
Proof. unfold frame, cb_ok; intros (A & _ & C & D) (E & F); rewrite A, C; split; [lia | exact F]. Qed.

Lemma node_ok_mono b b' n : frame b b' -> node_ok b n -> node_ok b' n.
Proof.
  intros Hf (H1 & H2); split; [exact H1|].
  eapply Forall_impl; [|exact H2]. intros c; apply cb_ok_mono; exact Hf.
Qed.

Lemma method_ok_mono b b' v : frame b b' -> method_ok b v -> method_ok b' v.
Proof. unfold frame, method_ok; intros (A & _ & C & D) (E & F); rewrite A, C; split; [lia | exact F]. Qed.

Lemma property_ok_mono b b' v : frame b b' -> property_ok b v -> property_ok b' v.
Proof. unfold frame, property_ok; intros (A & _ & C & D) (E & F); rewrite A, C; split; [lia | exact F]. Qed.

Lemma trace_ok_mono b b' : frame b b' -> trace_ok b -> trace_ok b'.
Proof. unfold frame, trace_ok; intros (A & _ & C & D) H t Ht Hg; rewrite A in Ht; specialize (H t Ht Hg); lia. Qed.

(** The invariant of a bus reached by registration, from its three
    collections. *)
Lemma Inv_rebuild b b' :
  Inv b -> frame b b' ->
  Forall (node_ok b') (nodes b') -> Forall (method_ok b') (vtable_methods b') ->
  Forall (property_ok b') (vtable_properties b') -> Inv b'.
Proof.
  intros HI Hf Hn Hm Hp. constructor; auto.
  - eapply trace_ok_mono; [exact Hf | apply HI].
  - destruct Hf as (A & _). rewrite A. apply HI.
Qed.

Lemma Inv_frame b b' :
  Inv b -> frame b b' -> nodes b' = nodes b -> vtable_methods b' = vtable_methods b ->
  vtable_properties b' = vtable_properties b -> Inv b'.
Proof.
  intros HI Hf En Em Ep. apply (Inv_rebuild b); auto.
  - rewrite En. eapply Forall_impl; [|apply HI]. intros n; apply node_ok_mono; exact Hf.
  - rewrite Em. eapply Forall_impl; [|apply HI]. intros v; apply method_ok_mono; exact Hf.
  - rewrite Ep. eapply Forall_impl; [|apply HI]. intros v; apply property_ok_mono; exact Hf.
Qed.

Ltac fr := unfold frame; cbn; repeat split; auto; lia.

(** The monadic steps. *)
Lemma rpres_bind_at {A B} b (m : RM A) (k : A -> RM B) :
  rpres_at b m ->
  (forall a b', m b = (Go a, b') -> rpres_at b' (k a)) ->
  rpres_at b (mbind m k).
Proof.
  unfold rpres_at, mbind. intros [Hf Hm] Hk.
  destruct (m b) as [r b'] eqn:E. cbn in Hf, Hm.
  destruct r; cbn; auto.
  destruct (Hk a b' eq_refl) as (Hf' & HI'). split.
  - eapply frame_trans; eauto.
  - auto.
Qed.

Lemma rpres_bind_get {B} b (k : bus -> RM B) : rpres_at b (k b) -> rpres_at b (mbind get k).
Proof. intros H. exact H. Qed.

Lemma rpres_call b (m : RM Z) : rpres_at b m -> rpres_at b (call m).
Proof.
  unfold rpres_at, call. destruct (m b) as [r b'] eqn:E.
  destruct r; cbn; auto.
Qed.

Lemma rpres_mret {A} b (a : A) : rpres_at b (mret a).
Proof. split; [apply frame_refl | auto]. Qed.
Lemma rpres_return {A} b r : rpres_at (A:=A) b (return_ r).
Proof. split; [apply frame_refl | auto]. Qed.
Lemma rpres_crash {A} b : rpres_at (A:=A) b crash.
Proof. split; [apply frame_refl | auto]. Qed.
Lemma rpres_diverge {A} b : rpres_at (A:=A) b diverge.
Proof. split; [apply frame_refl | auto]. Qed.

Lemma rpres_new_id b : rpres_at b new_id.
Proof.
  split.
  - repeat split; cbn; lia.
  - intros HI. apply (Inv_frame b); auto. repeat split; cbn; lia.
Qed.

Lemma rpres_with_modified b x : rpres_at b (modify (with_modified x)).
Proof.
  split; [fr|]. intros HI. apply (Inv_frame b); auto. fr.
Qed.

Lemma Forall_node_update (P : node -> Prop) p f ns :
  Forall P ns -> (forall n, P n -> P (f n)) -> Forall P (node_update p f ns).
Proof.
  intros H Hf. unfold node_update. apply Forall_map.
  eapply Forall_impl; [|exact H]. intros n Hn. destruct (streq (n_path n) p); auto.
Qed.

Lemma Forall_remove_first {A} (P : A -> Prop) q l : Forall P l -> Forall P (remove_first q l).
Proof.
  induction 1; cbn; [constructor|]. destruct (q x); auto.
Qed.

Lemma NoDup_map_remove_first {A B} (g : A -> B) q l :
  NoDup (map g l) -> NoDup (map g (remove_first q l)).
Proof.
  induction l as [|x l IH]; cbn; [auto|]. intros H. inversion H; subst.
  destruct (q x); [assumption|]. cbn. constructor; [|auto].
  intros Hin. apply H2. clear -Hin. induction l as [|y l IH]; cbn in *; [contradiction|].
  destruct (q y); cbn in *; [right; exact Hin|]. destruct Hin; auto.
Qed.

(** Updates of a node that leave its callbacks alone. *)
Lemma rpres_update_node b p f :
  (forall n, n_callbacks (f n) = n_callbacks n) -> rpres_at b (update_node p f).
Proof.
  intros Hc. split; [fr|]. intros HI.
  apply (Inv_rebuild b); cbn; try fr; try apply HI.
  apply Forall_node_update; [apply HI|]. intros n (H1 & H2); split; rewrite Hc; assumption.
Qed.

Lemma rpres_update_node_callbacks b p q :
  rpres_at b (update_node p (fun nd => with_callbacks (remove_first q (n_callbacks nd)) nd)).
Proof.
  split; [fr|]. intros HI.
  apply (Inv_rebuild b); cbn; try fr; try apply HI.
  apply Forall_node_update; [apply HI|]. intros n (H1 & H2); split; cbn.
  - apply NoDup_map_remove_first; exact H1.
  - apply Forall_remove_first; exact H2.
Qed.

Lemma rpres_node_remove b p :
  rpres_at b (modify (fun b => with_nodes (node_remove p (nodes b)) b)).
Proof.
  split; [fr|]. intros HI.
  apply (Inv_rebuild b); cbn; try fr; try apply HI.
  unfold node_remove. apply Forall_forall. intros n Hn. apply filter_In in Hn.
  eapply Forall_forall; [apply HI | apply Hn].
Qed.

Lemma rpres_node_new b path parent :
  rpres_at b (modify (fun b => with_nodes (mkNode path parent [] [] [] [] false :: nodes b) b)).
Proof.
  split; [fr|]. intros HI.
  apply (Inv_rebuild b); cbn; try fr; try apply HI.
  constructor; [|apply HI]. split; cbn; constructor.
Qed.



Lemma rpres_frame {A} b (m : RM A) : rpres_at b m -> frame b (snd (m b)).
Proof. intros H; apply H. Qed.

Lemma rpres_new_id_bind {B} b (k : nat -> RM B) :
  frame (with_next_id (S (next_id b)) b) (snd (k (next_id b) (with_next_id (S (next_id b)) b))) ->
  (Inv b -> Inv (snd (k (next_id b) (with_next_id (S (next_id b)) b)))) ->
  rpres_at b (mbind new_id k).
Proof.
  intros Hf HI. split; cbn.
  - eapply frame_trans; [|exact Hf]. fr.
  - exact HI.
Qed.

Ltac rp_gen :=
  match goal with
  | |- rpres_at _ (call _) => apply rpres_call
  | |- rpres_at _ (mbind get _) => apply rpres_bind_get; cbv beta
  | |- rpres_at _ (mret _) => apply rpres_mret
  | |- rpres_at _ (return_ _) => apply rpres_return
  | |- rpres_at _ crash => apply rpres_crash
  | |- rpres_at _ diverge => apply rpres_diverge
  | |- rpres_at _ new_id => apply rpres_new_id
  | |- rpres_at _ (modify (with_modified _)) => apply rpres_with_modified
  | |- rpres_at _ (modify (fun b => with_nodes (node_remove _ (nodes b)) b)) => apply rpres_node_remove
  | |- rpres_at _ (modify (fun b => with_nodes (mkNode _ _ [] [] [] [] false :: nodes b) b)) => apply rpres_node_new
  | |- rpres_at _ (update_node _ (fun nd => with_callbacks (remove_first _ (n_callbacks nd)) nd)) =>
      apply rpres_update_node_callbacks
  | |- rpres_at _ (update_node _ _) => apply rpres_update_node; intros; reflexivity
  | |- rpres_at _ (mbind _ _) => apply rpres_bind_at; [|intros ? ? ?; cbv beta]
  | |- rpres_at _ (if ?c then _ else _) => destruct c
  | |- rpres_at _ (match ?x with _ => _ end) => destruct x
  end.

Ltac rp_step :=
  match goal with
  | |- rpres_at _ (mbind new_id _) => apply rpres_new_id_bind
  | _ => rp_gen
  end.

Lemma rpres_bus_node_allocate_aux fuel path b : rpres_at b (bus_node_allocate_aux fuel path).
Proof.
  revert path b. induction fuel as [|fuel IH]; intros path b; cbn [bus_node_allocate_aux].
  - apply rpres_diverge.
  - repeat (rp_step || apply IH).
Qed.

Lemma rpres_bus_node_allocate path b : rpres_at b (bus_node_allocate path).
Proof. apply rpres_bus_node_allocate_aux. Qed.

Lemma rpres_bus_node_gc_aux fuel p b : rpres_at b (bus_node_gc_aux fuel p).
Proof.
  revert p b. induction fuel as [|fuel IH]; intros p b; cbn [bus_node_gc_aux].
  - apply rpres_diverge.
  - repeat (rp_step || apply IH).
Qed.

Lemma rpres_bus_node_gc path b : rpres_at b (bus_node_gc path).
Proof. apply rpres_bus_node_gc_aux. Qed.

Lemma Forall_lt_next b :
  Inv b -> Forall (fun nd => Forall (fun x => (cb_id x < next_id b)%nat) (n_callbacks nd)) (nodes b).
Proof.
  intros HI. eapply Forall_impl; [|apply HI]. intros nd (_ & H).
  eapply Forall_impl; [|exact H]. intros x Hx; apply Hx.
Qed.

Lemma not_in_trace_next b t : Inv b -> guarded_tag t = true -> tag_id t = next_id b -> ~ In t (trace b).
Proof. intros HI Hg Ht Hin. pose proof (inv_trace b HI t Hin Hg). lia. Qed.

Lemma Forall_node_update2 (P Q : node -> Prop) p f ns :
  Forall P ns -> (forall n, P n -> Q n) -> (forall n, P n -> Q (f n)) -> Forall Q (node_update p f ns).
Proof.
  intros H HQ Hf. unfold node_update. apply Forall_map.
  eapply Forall_impl; [|exact H]. intros n Hn. destruct (streq (n_path n) p); auto.
Qed.

Lemma Inv_prepend_callback b p cbk u f :
  Inv b ->
  Inv (with_nodes (node_update p (fun nd => with_callbacks (mkNodeCallback (next_id b) cbk u f 0 :: n_callbacks nd) nd)
                      (nodes (with_next_id (S (next_id b)) b))) (with_next_id (S (next_id b)) b)).
Proof.
  intros HI. set (b' := with_next_id (S (next_id b)) b).
  assert (Hf : frame b b') by fr.
  apply (Inv_rebuild b); [exact HI | fr | | | ].
  - cbn. apply (Forall_node_update2 (fun nd => node_ok b' nd /\
                   Forall (fun x => (cb_id x < next_id b)%nat) (n_callbacks nd))).
    + apply Forall_and; [|apply (Forall_lt_next b); auto].
      eapply Forall_impl; [|apply HI]. intros n; apply node_ok_mono; exact Hf.
    + intros nd ((H1 & H2) & H3). split; [exact H1|]. exact H2.
    + intros nd ((H1 & H2) & H3). split.
      * cbn. constructor; [|exact H1]. intros Hin. apply in_map_iff in Hin.
        destruct Hin as (x & Ex & Hx). eapply Forall_forall in H3; [|exact Hx]. lia.
      * cbn. constructor; [|exact H2]. split; cbn; [lia|]. intros Hin. exfalso.
        apply (not_in_trace_next b (TCallback (next_id b)) HI eq_refl eq_refl). exact Hin.
  - cbn. eapply Forall_impl; [|apply HI]. intros v; apply method_ok_mono; exact Hf.
  - cbn. eapply Forall_impl; [|apply HI]. intros v; apply property_ok_mono; exact Hf.
Qed.

Lemma Inv_with_modified b x : Inv b -> Inv (with_modified x b).
Proof. intros HI. apply (Inv_frame b); auto; fr. Qed.

Lemma rpres_bus_add_object V f path cbk u b : rpres_at b (bus_add_object V f path cbk u).
Proof.
  unfold bus_add_object. repeat rp_step; try apply rpres_bus_node_allocate.
  - fr.
  - intros HI. cbn [mbind update_node modify mret snd].
    apply Inv_with_modified. apply Inv_prepend_callback. exact HI.
Qed.

Lemma rpres_bus_remove_object V f path cbk u b : rpres_at b (bus_remove_object V f path cbk u).
Proof.
  unfold bus_remove_object. repeat (rp_step || apply rpres_bus_node_gc).
Qed.

Lemma hashmap_put_member_inr l m l' : hashmap_put_member l m = inr l' -> l' = m :: l.
Proof. unfold hashmap_put_member. destruct hashmap_get_member; congruence. Qed.

Lemma Inv_add_method b np i mem c v :
  Inv b ->
  Inv (with_methods (mkVtableMember (next_id b) np i mem c v 0 :: vtable_methods (with_next_id (S (next_id b)) b))
                    (with_next_id (S (next_id b)) b)).
Proof.
  intros HI. assert (Hf : frame b (with_next_id (S (next_id b)) b)) by fr.
  apply (Inv_rebuild b); [exact HI | fr | | | ]; cbn.
  - eapply Forall_impl; [|apply HI]. intros n; apply node_ok_mono; exact Hf.
  - constructor.
    + split; cbn; [lia|]. intros Hin; exfalso.
      apply (not_in_trace_next b (TMethod (next_id b)) HI eq_refl eq_refl). exact Hin.
    + eapply Forall_impl; [|apply HI]. intros w; apply method_ok_mono; exact Hf.
  - eapply Forall_impl; [|apply HI]. intros w; apply property_ok_mono; exact Hf.
Qed.

Lemma Inv_add_property b np i mem c v :
  Inv b ->
  Inv (with_properties (mkVtableMember (next_id b) np i mem c v 0 :: vtable_properties (with_next_id (S (next_id b)) b))
                       (with_next_id (S (next_id b)) b)).
Proof.
  intros HI. assert (Hf : frame b (with_next_id (S (next_id b)) b)) by fr.
  apply (Inv_rebuild b); [exact HI | fr | | | ]; cbn.
  - eapply Forall_impl; [|apply HI]. intros n; apply node_ok_mono; exact Hf.
  - eapply Forall_impl; [|apply HI]. intros w; apply method_ok_mono; exact Hf.
  - constructor.
    + split; cbn; [lia|]. intros Hin; exfalso.
      apply (not_in_trace_next b (TSet (next_id b)) HI eq_refl eq_refl). exact Hin.
    + eapply Forall_impl; [|apply HI]. intros w; apply property_ok_mono; exact Hf.
Qed.

Lemma rpres_add_property_member V np c v b : rpres_at b (add_property_member V np c v).
Proof.
  unfold add_property_member. destruct (property_entry_invalid V v); [apply rpres_mret|].
  apply rpres_new_id_bind; cbn [mbind get];
    destruct hashmap_put_member as [r|l] eqn:E; cbn; try fr.
  - intros HI. apply (Inv_frame b); auto; fr.
  - intros HI. apply hashmap_put_member_inr in E. subst l. apply Inv_add_property. exact HI.
Qed.

Lemma rpres_add_method_block np c v b :
  rpres_at b (mid <- new_id ;; b <- get ;;
              match hashmap_put_member (vtable_methods b)
                      (mkVtableMember mid np (nv_interface c) (member v) c v 0) with
              | inl r => mret r
              | inr l => put (with_methods l b) ;;; mret 0
              end).
Proof.
  apply rpres_new_id_bind; cbn [mbind get];
    destruct hashmap_put_member as [r|l] eqn:E; cbn; try fr.
  - intros HI. apply (Inv_frame b); auto; fr.
  - intros HI. apply hashmap_put_member_inr in E. subst l. apply Inv_add_method. exact HI.
Qed.

Lemma rpres_add_members V np c l b : rpres_at b (add_members V np c l).
Proof.
  revert b. induction l as [|v l IH]; intros b; cbn [add_members]; [apply rpres_mret|].
  apply rpres_bind_at.
  - destruct (type v);
      try (destruct (method_entry_invalid V v); [apply rpres_mret | apply rpres_add_method_block]);
      repeat rp_step; apply rpres_add_property_member.
  - intros r b' _. destruct (r <? 0); [apply rpres_mret | apply IH].
Qed.

Lemma rpres_free_node_vtable np w b : rpres_at b (free_node_vtable np w).
Proof.
  unfold free_node_vtable, modify, rpres_at. cbn [snd].
  generalize (until_end (vt_entries (nv_vtable w))). intros l. revert b.
  induction l as [|v l IH]; intros b; cbn [fold_left]; [split; [fr | auto]|].
  match goal with |- context [fold_left ?F l ?G] =>
    assert (Hs : frame b G /\ (Inv b -> Inv G)) end.
  - destruct (type v); cbn; (split; [fr|intros HI]); try exact HI.
    + apply (Inv_rebuild b); cbn; try exact HI; try fr; try apply HI.
      apply Forall_remove_first; apply HI.
    + apply (Inv_rebuild b); cbn; try exact HI; try fr; try apply HI.
      apply Forall_remove_first; apply HI.
    + apply (Inv_rebuild b); cbn; try exact HI; try fr; try apply HI.
      apply Forall_remove_first; apply HI.
  - destruct Hs as [Hs1 Hs2]. edestruct IH as [H1 H2]. split.
    + eapply frame_trans; [exact Hs1 | exact H1].
    + intros HI; apply H2, Hs2, HI.
Qed.

Lemma rpres_add_object_vtable_internal V path i vt f fd u b :
  rpres_at b (add_object_vtable_internal V path i vt f fd u).
Proof.
  unfold add_object_vtable_internal.
  repeat (rp_gen || apply rpres_bus_node_allocate || apply rpres_bus_node_gc
          || apply rpres_new_id || apply rpres_add_members || apply rpres_free_node_vtable).
Qed.

Lemma rpres_remove_object_vtable_internal V path i vt f fd u b :
  rpres_at b (remove_object_vtable_internal V path i vt f fd u).
Proof.
  unfold remove_object_vtable_internal.
  repeat (rp_gen || apply rpres_bus_node_gc || apply rpres_free_node_vtable).
Qed.

Lemma rpres_run_reg_op V o b : rpres_at b (run_reg_op V o).
Proof.
  destruct o; cbn [run_reg_op].
  - apply rpres_bus_add_object.
  - apply rpres_bus_remove_object.
  - apply rpres_add_object_vtable_internal.
  - apply rpres_remove_object_vtable_internal.
  - unfold sd_bus_add_node_enumerator. repeat (rp_gen || apply rpres_bus_node_allocate).
  - unfold sd_bus_remove_node_enumerator. repeat (rp_gen || apply rpres_bus_node_gc).
  - unfold sd_bus_add_object_manager. repeat (rp_gen || apply rpres_bus_node_allocate).
  - unfold sd_bus_remove_object_manager. repeat (rp_gen || apply rpres_bus_node_gc).
Qed.

Lemma rpres_run_reg_ops V l b : rpres_at b (run_reg_ops V l).
Proof.
  revert b. induction l as [|o l IH]; intros b; cbn [run_reg_ops]; [apply rpres_mret|].
  apply rpres_bind_at; [apply rpres_run_reg_op | intros; apply IH].
Qed.



(** ** The dispatcher keeps the invariant *)

Lemma dframe_refl ks kg b : dframe ks kg b b.
Proof. repeat split; auto. Qed.

Ltac dfr := unfold dframe; cbn; repeat split; try (intros; first [reflexivity | lia | discriminate]).

Lemma dframe_trans ks kg b1 b2 b3 : dframe ks kg b1 b2 -> dframe ks kg b2 b3 -> dframe ks kg b1 b3.
Proof.
  unfold dframe; intros (A1 & B1 & C1 & D1) (A2 & B2 & C2 & D2); repeat split.
  - congruence.
  - lia.
  - intros H; rewrite (C2 H), (C1 H); reflexivity.
  - intros H; rewrite (D2 H), (D1 H); reflexivity.
Qed.

Lemma dframe_weaken ks kg ks' kg' b b' :
  dframe ks kg b b' -> (ks' = true -> ks = true) -> (kg' = true -> kg = true) -> dframe ks' kg' b b'.
Proof. unfold dframe; intros (A & B & C & D) H1 H2; repeat split; auto. Qed.

Lemma dpres_weaken {A} ks kg ks' kg' s (m : DM A) :
  dpres_at ks kg s m -> (ks' = true -> ks = true) -> (kg' = true -> kg = true) -> dpres_at ks' kg' s m.
Proof. intros [H1 H2] A1 A2. split; [eapply dframe_weaken; eauto | exact H2]. Qed.

Lemma dpres_bind_at {A B} ks kg s (m : DM A) (k : A -> DM B) :
  dpres_at ks kg s m ->
  (forall a s', m s = (Go a, s') -> dpres_at ks kg s' (k a)) ->
  dpres_at ks kg s (mbind m k).
Proof.
  unfold dpres_at, mbind. intros [Hf Hm] Hk.
  destruct (m s) as [r s'] eqn:E. cbn in Hf, Hm.
  destruct r; cbn; auto.
  destruct (Hk a s' eq_refl) as (Hf' & HI'). split.
  - eapply dframe_trans; eauto.
  - auto.
Qed.

Lemma dpres_call ks kg s (m : DM Z) : dpres_at ks kg s m -> dpres_at ks kg s (call m).
Proof. unfold dpres_at, call. destruct (m s) as [r s'] eqn:E. destruct r; cbn; auto. Qed.

Lemma dpres_mret {A} ks kg s (a : A) : dpres_at ks kg s (mret a).
Proof. split; [apply dframe_refl | auto]. Qed.
Lemma dpres_return {A} ks kg s r : dpres_at (A:=A) ks kg s (return_ r).
Proof. split; [apply dframe_refl | auto]. Qed.
Lemma dpres_crash {A} ks kg s : dpres_at (A:=A) ks kg s crash.
Proof. split; [apply dframe_refl | auto]. Qed.
Lemma dpres_diverge {A} ks kg s : dpres_at (A:=A) ks kg s diverge.
Proof. split; [apply dframe_refl | auto]. Qed.
Lemma dpres_get_bus ks kg s : dpres_at ks kg s get_bus.
Proof. split; [apply dframe_refl | auto]. Qed.
Lemma dpres_get_found ks kg s : dpres_at ks kg s get_found.
Proof. split; [apply dframe_refl | auto]. Qed.
Lemma dpres_set_found ks kg s : dpres_at ks kg s set_found.
Proof. destruct s; split; [apply dframe_refl | auto]. Qed.

Lemma dpres_bind_get_bus {B} ks kg s (k : bus -> DM B) : dpres_at ks kg s (k (fst s)) -> dpres_at ks kg s (mbind get_bus k).
Proof. intros H. exact H. Qed.
Lemma dpres_bind_get_found {B} ks kg s (k : bool -> DM B) : dpres_at ks kg s (k (snd s)) -> dpres_at ks kg s (mbind get_found k).
Proof. intros H. exact H. Qed.

Lemma dpres_lift {A} ks kg s (m : RM A) : rpres_at (fst s) m -> dpres_at ks kg s (lift m).
Proof.
  destruct s as [b f]. unfold lift, dpres_at. cbn. destruct (m b) as [r b'] eqn:E.
  intros [(A1 & B1 & C1 & D1) HI]. cbn. rewrite E in *. cbn in *. split; [|exact HI].
  repeat split; auto. intros _. rewrite A1; reflexivity.
Qed.

Lemma dpres_with_modified ks kg s x : dpres_at ks kg s (modify_bus (with_modified x)).
Proof. destruct s; split; cbn; [dfr | intros HI; apply Inv_with_modified, HI]. Qed.

Lemma Inv_with_sent b x : Inv b -> Inv (with_sent x b).
Proof. intros HI. destruct HI; constructor; assumption. Qed.

Lemma dpres_send kg s o : dpres_at false kg s (send o).
Proof.
  destruct s; split; cbn; [dfr | intros HI; apply Inv_with_sent, HI].
Qed.

(** Appending an unguarded invocation to the trace. *)
Lemma guarded_app_unguarded l t : guarded_tag t = false -> guarded (l ++ [t]) = guarded l.
Proof. intros H. unfold guarded. rewrite filter_app. cbn. rewrite H, app_nil_r. reflexivity. Qed.

Lemma Inv_append_unguarded b t :
  guarded_tag t = false -> Inv b -> Inv (with_trace (trace b ++ [t]) b).
Proof.
  intros Ht HI. destruct t; try discriminate.
  - (* TGet *)
    destruct HI as [H1 H2 H3 H4 H5]. constructor; cbn.
    + eapply Forall_impl; [|exact H1]. intros n (A & B); split; [exact A|].
      eapply Forall_impl; [|exact B]. intros c (C & D); split; [exact C|].
      intros Hin. apply D. apply in_app_or in Hin. destruct Hin as [Hin|[Hin|[]]]; [exact Hin | discriminate].
    + eapply Forall_impl; [|exact H2]. intros v (C & D); split; [exact C|].
      intros Hin. apply D. apply in_app_or in Hin. destruct Hin as [Hin|[Hin|[]]]; [exact Hin | discriminate].
    + eapply Forall_impl; [|exact H3]. intros v (C & D); split; [exact C|].
      intros Hin. apply D. apply in_app_or in Hin. destruct Hin as [Hin|[Hin|[]]]; [exact Hin | discriminate].
    + intros t Hin Hg. apply in_app_or in Hin. destruct Hin as [Hin|[Hin|[]]]; [apply H4; auto | subst; discriminate].
    + rewrite guarded_app_unguarded by reflexivity. exact H5.
  - destruct HI as [H1 H2 H3 H4 H5]. constructor; cbn.
    + eapply Forall_impl; [|exact H1]. intros n (A & B); split; [exact A|].
      eapply Forall_impl; [|exact B]. intros c (C & D); split; [exact C|].
      intros Hin. apply D. apply in_app_or in Hin. destruct Hin as [Hin|[Hin|[]]]; [exact Hin | discriminate].
    + eapply Forall_impl; [|exact H2]. intros v (C & D); split; [exact C|].
      intros Hin. apply D. apply in_app_or in Hin. destruct Hin as [Hin|[Hin|[]]]; [exact Hin | discriminate].
    + eapply Forall_impl; [|exact H3]. intros v (C & D); split; [exact C|].
      intros Hin. apply D. apply in_app_or in Hin. destruct Hin as [Hin|[Hin|[]]]; [exact Hin | discriminate].
    + intros t Hin Hg. apply in_app_or in Hin. destruct Hin as [Hin|[Hin|[]]]; [apply H4; auto | subst; discriminate].
    + rewrite guarded_app_unguarded by reflexivity. exact H5.
Qed.

Lemma dpres_append_unguarded s t :
  guarded_tag t = false -> dpres_at true true s (modify_bus (fun b => with_trace (trace b ++ [t]) b)).
Proof.
  intros Ht. destruct s as [b f]. split; cbn.
  - dfr. intros _. apply guarded_app_unguarded, Ht.
  - intros HI. apply Inv_append_unguarded; auto.
Qed.

Lemma dpres_invoke_unguarded V ext t x s :
  guarded_tag t = false -> dpres_at true true s (invoke V ext t x).
Proof.
  intros Ht. unfold invoke. apply dpres_bind_get_bus.
  apply dpres_bind_at; [apply dpres_append_unguarded, Ht | intros ? s' _].
  apply dpres_bind_at; [apply dpres_lift, rpres_run_reg_ops | intros; apply dpres_mret].
Qed.



Section Unguarded.

Variable V : validators.
Variable ext : ext_call -> bus -> ext_result.
Variable ee : string -> Z.

Lemma dpres_invoke_ung ks kg t x s :
  guarded_tag t = false -> dpres_at ks kg s (invoke V ext t x).
Proof.
  intros Ht. eapply dpres_weaken; [apply dpres_invoke_unguarded, Ht | intros; reflexivity | intros; reflexivity].
Qed.

Ltac flag := intros ?; first [reflexivity | assumption].

Ltac dp_gen :=
  match goal with
  | |- dpres_at _ _ _ (call _) => apply dpres_call
  | |- dpres_at _ _ _ (mbind get_bus _) => apply dpres_bind_get_bus; cbv beta
  | |- dpres_at _ _ _ (mbind get_found _) => apply dpres_bind_get_found; cbv beta
  | |- dpres_at _ _ _ (mret _) => apply dpres_mret
  | |- dpres_at _ _ _ (return_ _) => apply dpres_return
  | |- dpres_at _ _ _ crash => apply dpres_crash
  | |- dpres_at _ _ _ diverge => apply dpres_diverge
  | |- dpres_at _ _ _ get_bus => apply dpres_get_bus
  | |- dpres_at _ _ _ set_found => apply dpres_set_found
  | |- dpres_at _ _ _ (modify_bus (with_modified _)) => apply dpres_with_modified
  | |- dpres_at _ _ _ (send _) => apply dpres_send
  | |- dpres_at _ _ _ (invoke _ _ _ _) => apply dpres_invoke_ung; reflexivity
  | |- dpres_at _ _ _ (mbind _ _) => apply dpres_bind_at; [|intros ? ? ?; cbv beta]
  | |- dpres_at _ _ _ (if ?c then _ else _) => destruct c
  | |- dpres_at _ _ _ (match ?x with _ => _ end) => destruct x
  | |- dpres_at _ _ _ (let _ := _ in _) => cbv zeta
  end.

Ltac use L := first [apply L | eapply dpres_weaken; [apply L | flag | flag]].

Lemma dpres_node_vtable_get_userdata s p c e : dpres_at true true s (node_vtable_get_userdata V ext ee p c e).
Proof. unfold node_vtable_get_userdata. repeat dp_gen. Qed.

Lemma dpres_vtable_property_get_userdata s p c e : dpres_at true true s (vtable_property_get_userdata V ext ee p c e).
Proof. unfold vtable_property_get_userdata. repeat (dp_gen || use dpres_node_vtable_get_userdata). Qed.

Lemma dpres_bus_maybe_reply_error kg s m r e : dpres_at false kg s (bus_maybe_reply_error m r e).
Proof. unfold bus_maybe_reply_error. repeat dp_gen. Qed.

Lemma dpres_reply_errorf kg s m n : dpres_at false kg s (sd_bus_reply_method_errorf m n).
Proof. unfold sd_bus_reply_method_errorf. repeat dp_gen. Qed.

Lemma dpres_reply_return kg s m p : dpres_at false kg s (sd_bus_reply_method_return m p).
Proof. unfold sd_bus_reply_method_return. repeat dp_gen. Qed.

Lemma dpres_invoke_property_get s t v p i pr u e :
  guarded_tag t = false -> dpres_at true true s (invoke_property_get V ext ee t v p i pr u e).
Proof. intros Ht. unfold invoke_property_get. repeat (dp_gen || (apply dpres_invoke_ung; exact Ht)). Qed.

Lemma dpres_append_properties s p i l u e acc : dpres_at true true s (append_properties V ext ee p i l u e acc).
Proof.
  revert s e acc. induction l as [|v l IH]; intros s e acc; cbn [append_properties];
    repeat (dp_gen || apply IH || (apply dpres_invoke_property_get; reflexivity)).
Qed.

Lemma dpres_vtable_append_all_properties s p c u e : dpres_at true true s (vtable_append_all_properties V ext ee p c u e).
Proof. unfold vtable_append_all_properties. repeat (dp_gen || apply dpres_append_properties). Qed.

Lemma dpres_get_all_loop kg s m l rf i fi acc : dpres_at false kg s (get_all_loop V ext ee m l rf i fi acc).
Proof.
  revert s fi acc. induction l as [|c l IH]; intros s fi acc; cbn [get_all_loop];
    repeat (dp_gen || apply IH || use dpres_node_vtable_get_userdata || use dpres_bus_maybe_reply_error
            || use dpres_vtable_append_all_properties).
Qed.

Lemma dpres_property_get_all_callbacks_run kg s m l rf i :
  dpres_at false kg s (property_get_all_callbacks_run V ext ee m l rf i).
Proof.
  unfold property_get_all_callbacks_run.
  repeat (dp_gen || use dpres_get_all_loop || use dpres_reply_errorf).
Qed.

Lemma dpres_node_exists_vtables s l p rf : dpres_at true true s (node_exists_vtables V ext ee l p rf).
Proof.
  revert s. induction l as [|c l IH]; intros s; cbn [node_exists_vtables];
    repeat (dp_gen || apply IH || use dpres_node_vtable_get_userdata).
Qed.

Lemma dpres_bus_node_exists s n p rf : dpres_at true true s (bus_node_exists V ext ee n p rf).
Proof. unfold bus_node_exists. repeat (dp_gen || apply dpres_node_exists_vtables). Qed.

Lemma dpres_add_enumerated_to_set s p l st e : dpres_at true true s (add_enumerated_to_set V ext ee p l st e).
Proof.
  revert s st e. induction l as [|c l IH]; intros s st e; cbn [add_enumerated_to_set];
    repeat (dp_gen || apply IH).
Qed.

Lemma dpres_add_subtree_to_set fuel s p n st e : dpres_at true true s (add_subtree_to_set V ext ee fuel p n st e).
Proof.
  revert s n st e. induction fuel as [|fuel IH]; intros s n st e; cbn [add_subtree_to_set]; [apply dpres_diverge|].
  apply dpres_bind_at; [apply dpres_add_enumerated_to_set | intros [[r st'] e'] s' _].
  repeat dp_gen.
  generalize (n_child n) as cs. intros cs. revert s' st' e'. induction cs as [|i cs IHc]; intros s1 st1 e1;
    cbn beta iota; repeat (dp_gen || apply IH || apply IHc).
Qed.

Lemma dpres_get_child_nodes s p n e : dpres_at true true s (get_child_nodes V ext ee p n e).
Proof. unfold get_child_nodes. repeat (dp_gen || apply dpres_add_subtree_to_set). Qed.

Lemma dpres_introspect_loop kg s m l rf e em pi ifs : dpres_at false kg s (introspect_loop V ext ee m l rf e em pi ifs).
Proof.
  revert s e em pi ifs. induction l as [|c l IH]; intros s e em pi ifs; cbn [introspect_loop];
    repeat (dp_gen || apply IH || use dpres_node_vtable_get_userdata || use dpres_bus_maybe_reply_error).
Qed.

Lemma dpres_process_introspect kg s m n rf : dpres_at false kg s (process_introspect V ext ee m n rf).
Proof.
  unfold process_introspect.
  repeat (dp_gen || use dpres_get_child_nodes || use dpres_bus_maybe_reply_error || use dpres_introspect_loop
          || use dpres_bus_node_exists).
Qed.

Lemma dpres_serialize_loop s p rf l pi g e : dpres_at true true s (serialize_loop V ext ee p rf l pi g e).
Proof.
  revert s pi g e. induction l as [|c l IH]; intros s pi g e; cbn [serialize_loop];
    repeat (dp_gen || apply IH || apply dpres_node_vtable_get_userdata || apply dpres_vtable_append_all_properties).
Qed.

Lemma dpres_object_manager_serialize_path s pr p rf e :
  dpres_at true true s (object_manager_serialize_path V ext ee pr p rf e).
Proof. unfold object_manager_serialize_path. repeat (dp_gen || apply dpres_serialize_loop). Qed.

Lemma dpres_serialize_prefixes s p ps acc e : dpres_at true true s (serialize_prefixes V ext ee p ps acc e).
Proof.
  revert s acc e. induction ps as [|q ps IH]; intros s acc e; cbn [serialize_prefixes];
    repeat (dp_gen || apply IH || apply dpres_object_manager_serialize_path).
Qed.

Lemma dpres_serialize_path_and_fallbacks s p e :
  dpres_at true true s (object_manager_serialize_path_and_fallbacks V ext ee p e).
Proof.
  unfold object_manager_serialize_path_and_fallbacks.
  repeat (dp_gen || apply dpres_object_manager_serialize_path || apply dpres_serialize_prefixes).
Qed.

Lemma dpres_serialize_set s l acc e : dpres_at true true s (serialize_set V ext ee l acc e).
Proof.
  revert s acc e. induction l as [|q l IH]; intros s acc e; cbn [serialize_set];
    repeat (dp_gen || apply IH || apply dpres_serialize_path_and_fallbacks).
Qed.

Lemma dpres_process_get_managed_objects kg s m n rf : dpres_at false kg s (process_get_managed_objects V ext ee m n rf).
Proof.
  unfold process_get_managed_objects.
  repeat (dp_gen || use dpres_get_child_nodes || use dpres_serialize_set).
Qed.

End Unguarded.



Lemma In_guarded t l : guarded_tag t = true -> In t l <-> In t (guarded l).
Proof. intros Ht. unfold guarded. rewrite filter_In. intuition. Qed.

Lemma In_guarded_eq t l l' : guarded_tag t = true -> guarded l = guarded l' -> In t l -> In t l'.
Proof. intros Ht E H. apply (In_guarded t l' Ht). rewrite <- E. apply (In_guarded t l Ht). exact H. Qed.

Lemma cb_ok_transfer b b' c :
  iteration_counter b' = iteration_counter b -> (next_id b <= next_id b')%nat ->
  guarded (trace b') = guarded (trace b) -> cb_ok b c -> cb_ok b' c.
Proof.
  intros A B C (D & E). split; [lia|]. intros Hin. rewrite A. apply E.
  apply (In_guarded_eq (TCallback (cb_id c)) (trace b') (trace b) eq_refl C Hin).
Qed.

Lemma method_ok_transfer b b' v :
  iteration_counter b' = iteration_counter b -> (next_id b <= next_id b')%nat ->
  guarded (trace b') = guarded (trace b) -> method_ok b v -> method_ok b' v.
Proof.
  intros A B C (D & E). split; [lia|]. intros Hin. rewrite A. apply E.
  apply (In_guarded_eq (TMethod (vm_id v)) (trace b') (trace b) eq_refl C Hin).
Qed.

Lemma property_ok_transfer b b' v :
  iteration_counter b' = iteration_counter b -> (next_id b <= next_id b')%nat ->
  guarded (trace b') = guarded (trace b) -> property_ok b v -> property_ok b' v.
Proof.
  intros A B C (D & E). split; [lia|]. intros Hin. rewrite A. apply E.
  apply (In_guarded_eq (TSet (vm_id v)) (trace b') (trace b) eq_refl C Hin).
Qed.

(** Stamping a record keeps the invariant. *)
Lemma Inv_stamp_callback b f i : Inv b -> Inv (fst (snd (stamp_callback i (b, f)))).
Proof.
  intros [H1 H2 H3 H4 H5]. constructor; cbn; try assumption.
  apply Forall_map. eapply Forall_impl; [|exact H1]. intros n (A & B). split; cbn.
  - rewrite map_map. erewrite map_ext; [exact A|]. intros c; unfold stamp_cb; destruct Nat.eqb; reflexivity.
  - apply Forall_map. eapply Forall_impl; [|exact B]. intros c (C & D). unfold stamp_cb.
    destruct (Nat.eqb (cb_id c) i); split; cbn; auto.
Qed.

Lemma Inv_stamp_method b f i : Inv b -> Inv (fst (snd (stamp_method i (b, f)))).
Proof.
  intros [H1 H2 H3 H4 H5]. constructor; cbn; try assumption.
  apply Forall_map. eapply Forall_impl; [|exact H2]. intros v (C & D). unfold stamp_vm.
  destruct (Nat.eqb (vm_id v) i); split; cbn; auto.
Qed.

Lemma Inv_stamp_property b f i : Inv b -> Inv (fst (snd (stamp_property i (b, f)))).
Proof.
  intros [H1 H2 H3 H4 H5]. constructor; cbn; try assumption.
  apply Forall_map. eapply Forall_impl; [|exact H3]. intros v (C & D). unfold stamp_vm.
  destruct (Nat.eqb (vm_id v) i); split; cbn; auto.
Qed.

(** A guarded invocation may be appended once its records carry the
    current counter and it is not in the trace yet. *)
Lemma NoDup_guarded_app l t :
  guarded_tag t = true -> ~ In t l -> NoDup (guarded l) -> NoDup (guarded (l ++ [t])).
Proof.
  intros Ht Hn Hd. unfold guarded in *. rewrite filter_app. cbn. rewrite Ht.
  apply NoDup_app; auto.
  - repeat constructor. intros [].
  - intros x Hx [Hy|[]]. subst. apply filter_In in Hx. tauto.
Qed.

Lemma Inv_append_callback b i :
  Inv b -> (i < next_id b)%nat -> ~ In (TCallback i) (trace b) ->
  Forall (fun n => Forall (fun c => cb_id c = i -> cb_last_iteration c = iteration_counter b) (n_callbacks n)) (nodes b) ->
  Inv (with_trace (trace b ++ [TCallback i]) b).
Proof.
  intros [H1 H2 H3 H4 H5] Hi Hn Hs. constructor; cbn.
  - apply Forall_forall. intros n Hn'. pose proof (proj1 (Forall_forall _ _) H1 n Hn') as (A & B).
    pose proof (proj1 (Forall_forall _ _) Hs n Hn') as C. split; [exact A|].
    apply Forall_forall. intros c Hc. pose proof (proj1 (Forall_forall _ _) B c Hc) as (D & E).
    split; [exact D|]. intros Hin. apply in_app_or in Hin. destruct Hin as [Hin|[Hin|[]]].
    + apply E, Hin.
    + injection Hin as Hin. apply (proj1 (Forall_forall _ _) C c Hc). congruence.
  - eapply Forall_impl; [|exact H2]. intros v (C & D); split; [exact C|].
    intros Hin. apply D. apply in_app_or in Hin. destruct Hin as [Hin|[Hin|[]]]; [exact Hin | discriminate].
  - eapply Forall_impl; [|exact H3]. intros v (C & D); split; [exact C|].
    intros Hin. apply D. apply in_app_or in Hin. destruct Hin as [Hin|[Hin|[]]]; [exact Hin | discriminate].
  - intros t Hin Hg. apply in_app_or in Hin. destruct Hin as [Hin|[Hin|[]]]; [apply H4; auto | subst; exact Hi].
  - apply NoDup_guarded_app; auto.
Qed.

Lemma Inv_append_method b i :
  Inv b -> (i < next_id b)%nat -> ~ In (TMethod i) (trace b) ->
  Forall (fun v => vm_id v = i -> vm_last_iteration v = iteration_counter b) (vtable_methods b) ->
  Inv (with_trace (trace b ++ [TMethod i]) b).
Proof.
  intros [H1 H2 H3 H4 H5] Hi Hn Hs. constructor; cbn.
  - eapply Forall_impl; [|exact H1]. intros n (A & B). split; [exact A|].
    eapply Forall_impl; [|exact B]. intros c (C & D); split; [exact C|].
    intros Hin. apply D. apply in_app_or in Hin. destruct Hin as [Hin|[Hin|[]]]; [exact Hin | discriminate].
  - apply Forall_forall. intros v Hv. pose proof (proj1 (Forall_forall _ _) H2 v Hv) as (D & E).
    split; [exact D|]. intros Hin. apply in_app_or in Hin. destruct Hin as [Hin|[Hin|[]]].
    + apply E, Hin.
    + injection Hin as Hin. apply (proj1 (Forall_forall _ _) Hs v Hv). congruence.
  - eapply Forall_impl; [|exact H3]. intros v (C & D); split; [exact C|].
    intros Hin. apply D. apply in_app_or in Hin. destruct Hin as [Hin|[Hin|[]]]; [exact Hin | discriminate].
  - intros t Hin Hg. apply in_app_or in Hin. destruct Hin as [Hin|[Hin|[]]]; [apply H4; auto | subst; exact Hi].
  - apply NoDup_guarded_app; auto.
Qed.

Lemma Inv_append_set b i :
  Inv b -> (i < next_id b)%nat -> ~ In (TSet i) (trace b) ->
  Forall (fun v => vm_id v = i -> vm_last_iteration v = iteration_counter b) (vtable_properties b) ->
  Inv (with_trace (trace b ++ [TSet i]) b).
Proof.
  intros [H1 H2 H3 H4 H5] Hi Hn Hs. constructor; cbn.
  - eapply Forall_impl; [|exact H1]. intros n (A & B). split; [exact A|].
    eapply Forall_impl; [|exact B]. intros c (C & D); split; [exact C|].
    intros Hin. apply D. apply in_app_or in Hin. destruct Hin as [Hin|[Hin|[]]]; [exact Hin | discriminate].
  - eapply Forall_impl; [|exact H2]. intros v (C & D); split; [exact C|].
    intros Hin. apply D. apply in_app_or in Hin. destruct Hin as [Hin|[Hin|[]]]; [exact Hin | discriminate].
  - apply Forall_forall. intros v Hv. pose proof (proj1 (Forall_forall _ _) H3 v Hv) as (D & E).
    split; [exact D|]. intros Hin. apply in_app_or in Hin. destruct Hin as [Hin|[Hin|[]]].
    + apply E, Hin.
    + injection Hin as Hin. apply (proj1 (Forall_forall _ _) Hs v Hv). congruence.
  - intros t Hin Hg. apply in_app_or in Hin. destruct Hin as [Hin|[Hin|[]]]; [apply H4; auto | subst; exact Hi].
  - apply NoDup_guarded_app; auto.
Qed.

Lemma stamped_callback b f i :
  let b' := fst (snd (stamp_callback i (b, f))) in
  Forall (fun n => Forall (fun c => cb_id c = i -> cb_last_iteration c = iteration_counter b') (n_callbacks n)) (nodes b').
Proof.
  cbn. apply Forall_forall. intros n Hn. apply in_map_iff in Hn. destruct Hn as (n0 & <- & _).
  cbn. apply Forall_forall. intros c Hc. apply in_map_iff in Hc. destruct Hc as (c0 & <- & _).
  unfold stamp_cb. destruct (Nat.eqb (cb_id c0) i) eqn:E; cbn; [reflexivity|].
  intros H; apply Nat.eqb_neq in E; contradiction.
Qed.

Lemma stamped_method b f i :
  let b' := fst (snd (stamp_method i (b, f))) in
  Forall (fun v => vm_id v = i -> vm_last_iteration v = iteration_counter b') (vtable_methods b').
Proof.
  cbn. apply Forall_forall. intros v Hv. apply in_map_iff in Hv. destruct Hv as (v0 & <- & _).
  unfold stamp_vm. destruct (Nat.eqb (vm_id v0) i) eqn:E; cbn; [reflexivity|].
  intros H; apply Nat.eqb_neq in E; contradiction.
Qed.

Lemma stamped_property b f i :
  let b' := fst (snd (stamp_property i (b, f))) in
  Forall (fun v => vm_id v = i -> vm_last_iteration v = iteration_counter b') (vtable_properties b').
Proof.
  cbn. apply Forall_forall. intros v Hv. apply in_map_iff in Hv. destruct Hv as (v0 & <- & _).
  unfold stamp_vm. destruct (Nat.eqb (vm_id v0) i) eqn:E; cbn; [reflexivity|].
  intros H; apply Nat.eqb_neq in E; contradiction.
Qed.

Lemma invoke_facts V ext t x s :
  frame (with_trace (trace (fst s) ++ [t]) (fst s)) (fst (snd (invoke V ext t x s))) /\
  (Inv (with_trace (trace (fst s) ++ [t]) (fst s)) -> Inv (fst (snd (invoke V ext t x s)))).
Proof.
  destruct s as [b f]. unfold invoke, lift, mbind, get_bus, modify_bus, mret. cbn beta iota.
  pose proof (rpres_run_reg_ops V (er_ops (ext x b)) (with_trace (trace b ++ [t]) b)) as [Hf HI].
  destruct (run_reg_ops V (er_ops (ext x b)) (with_trace (trace b ++ [t]) b)) as [r b'] eqn:E.
  cbn in Hf, HI. cbn. rewrite E. destruct r; cbn; auto.
Qed.



Section Guarded.

Variable V : validators.
Variable ext : ext_call -> bus -> ext_result.
Variable ee : string -> Z.

Lemma node_callbacks_run_pres m l rf s :
  dframe false false (fst s) (fst (snd (node_callbacks_run V ext m l rf s))) /\
  (Inv (fst s) -> NoDup (map cb_id l) -> Forall (cb_ok (fst s)) l ->
   Inv (fst (snd (node_callbacks_run V ext m l rf s)))).
Proof.
  revert s. induction l as [|c l IH]; intros [b f]; cbn [node_callbacks_run].
  - split; [apply dframe_refl | auto].
  - unfold mbind, get_bus. cbn beta iota. cbn [fst snd].
    destruct (nodes_modified b); [split; [apply dframe_refl | auto]|].
    destruct (rf && negb (cb_is_fallback c)).
    { destruct (IH (b, f)) as [H1 H2]. split; [exact H1|]. intros HI Hd Hf.
      inversion Hd; inversion Hf; subst. apply H2; auto. }
    unfold set_found. cbn beta iota.
    destruct (Nat.eqb (cb_last_iteration c) (iteration_counter b)) eqn:Eg.
    { destruct (IH (b, true)) as [H1 H2]. split; [exact H1|]. intros HI Hd Hf.
      inversion Hd; inversion Hf; subst. apply H2; auto. }
    unfold stamp_callback, modify_bus. cbn beta iota.
    set (bs := with_nodes (map (fun n => with_callbacks (map (stamp_cb (cb_id c) (iteration_counter b)) (n_callbacks n)) n) (nodes b)) b).
    pose proof (invoke_facts V ext (TCallback (cb_id c)) (XCallback (cb_callback c) (cb_userdata c) m) (bs, true)) as [If II].

    destruct (invoke V ext (TCallback (cb_id c)) (XCallback (cb_callback c) (cb_userdata c) m) (bs, true)) as [r1 s1] eqn:E1.
    cbn [fst snd] in If, II.
    assert (Hframe1 : dframe false false b (fst s1)).
    { destruct If as (A & B & C & D). cbn in *. repeat split; try discriminate; lia. }
    assert (HInv1 : Inv b -> NoDup (map cb_id (c :: l)) -> Forall (cb_ok b) (c :: l) -> Inv (fst s1)).
    { intros HI Hd Hf. apply II. inversion Hf as [|? ? (Hc1 & Hc2) Hf']; subst.
      apply Inv_append_callback.
      - apply (Inv_stamp_callback b true (cb_id c) HI).
      - exact Hc1.
      - intros Hin. apply Nat.eqb_neq in Eg. apply Eg. apply Hc2. exact Hin.
      - apply (stamped_callback b true (cb_id c)). }
    destruct r1 as [e| | |]; cbn [fst snd]; try (split; [exact Hframe1 | exact HInv1]).
    pose proof (dpres_bus_maybe_reply_error true s1 m (er_ret e) (er_error e)) as [Rf RI].

    destruct (bus_maybe_reply_error m (er_ret e) (er_error e) s1) as [r2 s2] eqn:E2.
    cbn [fst snd] in Rf, RI.
    assert (Hframe2 : dframe false false b (fst s2)).
    { eapply dframe_trans; [exact Hframe1|]. eapply dframe_weaken; [exact Rf | auto | auto]. }
    destruct r2 as [r| | |]; cbn [fst snd]; try (split; [exact Hframe2 | intros; apply RI, HInv1; auto]).
    destruct (negb (r =? 0)); cbn [fst snd]; [split; [exact Hframe2 | intros; apply RI, HInv1; auto]|].
    destruct (IH s2) as [H1 H2]. split.
    + eapply dframe_trans; [exact Hframe2 | exact H1].
    + intros HI Hd Hf. inversion Hd as [|? ? Hnin Hd']; inversion Hf as [|? ? Hc Hf']; subst.
      apply H2; auto.
      destruct If as (A & B & C & D). destruct Rf as (A2 & B2 & C2 & D2).
      apply Forall_forall. intros c' Hc'. pose proof (proj1 (Forall_forall _ _) Hf' c' Hc') as (G1 & G2).
      split.
      * cbn in *. lia.
      * intros Hin. rewrite A2, C by reflexivity. cbn.
        assert (Hin1 : In (TCallback (cb_id c')) (trace (fst s1))).
        { apply (In_guarded_eq (TCallback (cb_id c')) (trace (fst s2)) (trace (fst s1)) eq_refl (D2 eq_refl) Hin). }
        rewrite A in Hin1. cbn in Hin1. apply in_app_or in Hin1. destruct Hin1 as [Hin1|[Hin1|[]]].
        -- apply G2, Hin1.
        -- exfalso. injection Hin1 as Hin1. apply Hnin. rewrite Hin1. apply in_map, Hc'.
Qed.

End Guarded.



Lemma mbind_go {S A B} (m : ST S A) (k : A -> ST S B) s a s' : m s = (Go a, s') -> mbind m k s = k a s'.
Proof. intros E. unfold mbind. rewrite E. reflexivity. Qed.
Lemma mbind_ret {S A B} (m : ST S A) (k : A -> ST S B) s r s' : m s = (Ret r, s') -> mbind m k s = (Ret r, s').
Proof. intros E. unfold mbind. rewrite E. reflexivity. Qed.
Lemma mbind_crash {S A B} (m : ST S A) (k : A -> ST S B) s s' : m s = (Crash, s') -> mbind m k s = (Crash, s').
Proof. intros E. unfold mbind. rewrite E. reflexivity. Qed.
Lemma mbind_diverge {S A B} (m : ST S A) (k : A -> ST S B) s s' : m s = (Diverge, s') -> mbind m k s = (Diverge, s').
Proof. intros E. unfold mbind. rewrite E. reflexivity. Qed.

Lemma call_state {S} (m : ST S Z) s : snd (call m s) = snd (m s).
Proof. unfold call. destruct (m s) as [[] s']; reflexivity. Qed.

Ltac bstep E r s' :=
  match goal with
  | |- context [mbind ?m ?k ?s] =>
      destruct (m s) as [[r|r| |] s'] eqn:E;
      [rewrite (mbind_go m k s r s' E) | rewrite (mbind_ret m k s r s' E)
      | rewrite (mbind_crash m k s s' E) | rewrite (mbind_diverge m k s s' E)]
  end.

(** The facts a computation gives about the state it ends in. *)
Lemma dpres_end {A} ks kg s (m : DM A) r s' : dpres_at ks kg s m -> m s = (r, s') ->
  dframe ks kg (fst s) (fst s') /\ (Inv (fst s) -> Inv (fst s')).
Proof. intros [H1 H2] E. rewrite E in H1, H2. split; assumption. Qed.

(** Finishing with code that runs no guarded invocation. *)
Lemma finish_unguarded {A} ks kg b0 (H : Prop) s (m : DM A) :
  dframe false false b0 (fst s) -> (H -> Inv (fst s)) -> dpres_at ks kg s m ->
  dframe false false b0 (fst (snd (m s))) /\ (H -> Inv (fst (snd (m s)))).
Proof.
  intros F I [F' I']. split.
  - eapply dframe_trans; [exact F | eapply dframe_weaken; [exact F' | discriminate | discriminate]].
  - intros h. apply I', I, h.
Qed.

Lemma mbind_get_bus_eq {B} (k : bus -> DM B) s : mbind get_bus k s = k (fst s) s.
Proof. reflexivity. Qed.
Lemma mbind_set_found_eq {B} (k : unit -> DM B) s : mbind set_found k s = k tt (fst s, true).
Proof. destruct s; reflexivity. Qed.
Lemma mbind_modify_bus_eq {B} g (k : unit -> DM B) s : mbind (modify_bus g) k s = k tt (g (fst s), snd s).
Proof. destruct s; reflexivity. Qed.
Lemma mbind_get_found_eq {B} (k : bool -> DM B) s : mbind get_found k s = k (snd s) s.
Proof. reflexivity. Qed.

Ltac flag := intros ?; first [reflexivity | assumption | discriminate].
Ltac use L := first [apply L | eapply dpres_weaken; [apply L | flag | flag]].

Ltac dp_gen :=
  match goal with
  | |- dpres_at _ _ _ (call _) => apply dpres_call
  | |- dpres_at _ _ _ (mbind get_bus _) => apply dpres_bind_get_bus; cbv beta
  | |- dpres_at _ _ _ (mbind get_found _) => apply dpres_bind_get_found; cbv beta
  | |- dpres_at _ _ _ (mret _) => apply dpres_mret
  | |- dpres_at _ _ _ (return_ _) => apply dpres_return
  | |- dpres_at _ _ _ crash => apply dpres_crash
  | |- dpres_at _ _ _ diverge => apply dpres_diverge
  | |- dpres_at _ _ _ get_bus => apply dpres_get_bus
  | |- dpres_at _ _ _ set_found => apply dpres_set_found
  | |- dpres_at _ _ _ (modify_bus (with_modified _)) => apply dpres_with_modified
  | |- dpres_at _ _ _ (send _) => apply dpres_send
  | |- dpres_at _ _ _ (mbind _ _) => apply dpres_bind_at; [|intros ? ? ?; cbv beta]
  | |- dpres_at _ _ _ (if ?c then _ else _) => destruct c
  | |- dpres_at _ _ _ (match ?x with _ => _ end) => destruct x
  | |- dpres_at _ _ _ (let _ := _ in _) => cbv zeta
  end.

Ltac dp_all :=
  repeat (dp_gen || use dpres_bus_maybe_reply_error || use dpres_reply_errorf || use dpres_reply_return).

Ltac fin s := apply (finish_unguarded false false _ _ s); [assumption | assumption | dp_all].

Lemma conj_imp2 {P Q R T : Prop} : P /\ (Q /\ R -> T) -> P /\ (Q -> R -> T).
Proof. intros [A B]. split; [exact A | intros; apply B; auto]. Qed.

Lemma method_callbacks_run_pres V ext ee m c rf s :
  dframe false false (fst s) (fst (snd (method_callbacks_run V ext ee m c rf s))) /\
  (Inv (fst s) -> method_ok (fst s) c -> Inv (fst (snd (method_callbacks_run V ext ee m c rf s)))).
Proof.
  unfold method_callbacks_run. rewrite call_state.
  apply conj_imp2.
  set (H0 := Inv (fst s) /\ method_ok (fst s) c).
  assert (F0 : dframe false false (fst s) (fst s)) by apply dframe_refl.
  assert (I0 : H0 -> Inv (fst s)) by (intros [h _]; exact h).
  destruct (rf && negb (nv_is_fallback (vm_parent c))); [cbn; auto|].
  rewrite mbind_get_bus_eq.
  destruct (check_access ee (fst s) m c None) as [r0 error0].
  destruct (r0 <? 0); [fin s|].
  bstep E1 r s1; pose proof (dpres_end _ _ _ _ _ _ (dpres_node_vtable_get_userdata V ext ee s (m_path m) (vm_parent c) error0) E1) as [F1 I1];
    try (split; [eapply dframe_trans; [exact F0 | eapply dframe_weaken; [exact F1 | flag | flag]] | intros h; apply I1, I0, h]).
  destruct r as [[r1 u1] error1].
  assert (F1' : dframe false false (fst s) (fst s1)) by (eapply dframe_weaken; [exact F1 | flag | flag]).
  assert (I1' : H0 -> Inv (fst s1)) by (intros h; apply I1, I0, h).
  assert (M1 : H0 -> method_ok (fst s1) c).
  { intros [_ h]. destruct F1 as (A & B & _ & D). apply (method_ok_transfer (fst s)); auto. }
  destruct (r1 <=? 0); [fin s1|].
  rewrite mbind_get_bus_eq.
  destruct (nodes_modified (fst s1)); [fin s1|].
  rewrite mbind_set_found_eq.
  destruct (Nat.eqb (vm_last_iteration c) (iteration_counter (fst s1))) eqn:Eg; [cbn; auto|].
  unfold stamp_method. rewrite mbind_modify_bus_eq. cbn [fst snd].
  set (s2 := (with_methods (map (stamp_vm (vm_id c) (iteration_counter (fst s1))) (vtable_methods (fst s1))) (fst s1), true)).
  assert (F2 : dframe false false (fst s) (fst s2)) by (eapply dframe_trans; [exact F1'| dfr]).
  assert (I2 : H0 -> Inv (fst s2)) by (intros h; apply (Inv_stamp_method (fst s1) true), I1', h).
  destruct (negb (streq (signature (vm_vtable c)) (m_signature m))); [fin s2|].
  destruct (handler (vm_vtable c)) as [h|]; [|fin s2].
  pose proof (invoke_facts V ext (TMethod (vm_id c)) (XMethod h m u1) s2) as [If II].
  bstep E3 r3 s3; cbn [fst snd] in If, II.
  all: assert (F3 : dframe false false (fst s) (fst s3)) by
         (eapply dframe_trans; [exact F2 | destruct If as (A & B & C & D); cbn in *; dfr]).
  all: assert (I3 : H0 -> Inv (fst s3)) by
         (intros hh; apply II; apply Inv_append_method;
          [ apply I2, hh
          | cbn; apply (M1 hh)
          | cbn; intros Hin; apply Nat.eqb_neq in Eg; apply Eg, (M1 hh), Hin
          | apply (stamped_method (fst s1) true (vm_id c)) ]).
  all: try (split; [exact F3 | exact I3]).
  eapply (finish_unguarded false false (fst s) H0 s3); [exact F3 | exact I3 | use dpres_bus_maybe_reply_error].
Qed.

Lemma seq_reach {A B} b0 (H : Prop) s (m : DM A) (k : A -> DM B) :
  dframe false false b0 (fst (snd (m s))) /\ (H -> Inv (fst (snd (m s)))) ->
  (forall a s', m s = (Go a, s') -> dframe false false b0 (fst s') -> (H -> Inv (fst s')) ->
     dframe false false b0 (fst (snd (k a s'))) /\ (H -> Inv (fst (snd (k a s'))))) ->
  dframe false false b0 (fst (snd (mbind m k s))) /\ (H -> Inv (fst (snd (mbind m k s)))).
Proof.
  intros [F I] K. unfold mbind. destruct (m s) as [[a| | |] s'] eqn:E; cbn in F, I |- *; auto.
Qed.

Lemma invoke_property_set_pres V ext ee s i v m p ifc pr u e :
  dframe false false (fst s) (fst (snd (invoke_property_set V ext ee (TSet i) v m p ifc pr u e s))) /\
  (Inv (fst s) /\ (i < next_id (fst s))%nat /\ ~ In (TSet i) (trace (fst s)) /\ stamped_set (fst s) i ->
   Inv (fst (snd (invoke_property_set V ext ee (TSet i) v m p ifc pr u e s)))).
Proof.
  unfold invoke_property_set. destruct (set v) as [st|].
  - pose proof (invoke_facts V ext (TSet i) (XSet st m p ifc pr u) s) as [If II].
    bstep E r s1; cbn [fst snd] in If, II.
    all: assert (F1 : dframe false false (fst s) (fst s1)) by
           (destruct If as (A & B & C & D); cbn in *; dfr).
    all: assert (I1 : Inv (fst s) /\ (i < next_id (fst s))%nat /\ ~ In (TSet i) (trace (fst s)) /\ stamped_set (fst s) i ->
                      Inv (fst s1)) by
           (intros (h1 & h2 & h3 & h4); apply II, Inv_append_set; auto).
    all: try (split; [exact F1 | exact I1]).
    fin s1.
  - apply (finish_unguarded false false _ _ s); [apply dframe_refl | intros h; apply h | dp_all].
Qed.

Lemma property_get_set_callbacks_run_pres V ext ee m c rf g s :
  dframe false false (fst s) (fst (snd (property_get_set_callbacks_run V ext ee m c rf g s))) /\
  (Inv (fst s) -> property_ok (fst s) c -> Inv (fst (snd (property_get_set_callbacks_run V ext ee m c rf g s)))).
Proof.
  unfold property_get_set_callbacks_run. rewrite call_state. apply conj_imp2.
  set (H0 := Inv (fst s) /\ property_ok (fst s) c).
  assert (F0 : dframe false false (fst s) (fst s)) by apply dframe_refl.
  assert (I0 : H0 -> Inv (fst s)) by (intros [h _]; exact h).
  destruct (rf && negb (nv_is_fallback (vm_parent c))); [cbn; auto|].
  bstep E1 r s1; pose proof (dpres_end _ _ _ _ _ _ (dpres_vtable_property_get_userdata V ext ee s (m_path m) c None) E1) as [F1 I1];
    try (split; [eapply dframe_trans; [exact F0 | eapply dframe_weaken; [exact F1 | flag | flag]] | intros h; apply I1, I0, h]).
  destruct r as [[r1 u1] error1].
  assert (F1' : dframe false false (fst s) (fst s1)) by (eapply dframe_weaken; [exact F1 | flag | flag]).
  assert (I1' : H0 -> Inv (fst s1)) by (intros h; apply I1, I0, h).
  assert (M1 : H0 -> property_ok (fst s1) c).
  { intros [_ h]. destruct F1 as (A & B & _ & D). apply (property_ok_transfer (fst s)); auto. }
  destruct (r1 <=? 0); [fin s1|].
  rewrite mbind_get_bus_eq.
  destruct (nodes_modified (fst s1)); [fin s1|].
  rewrite mbind_set_found_eq.
  assert (F1'' : dframe false false (fst s) (fst (fst s1, true))) by exact F1'.
  assert (I1'' : H0 -> Inv (fst (fst s1, true))) by exact I1'.
  destruct g.
  { fin (fst s1, true). use dpres_invoke_property_get; reflexivity. }
  apply seq_reach; [| intros a s' _ F' I'; fin s'].
  destruct (negb (vtable_type_eqb (type (vm_vtable c)) _SD_BUS_VTABLE_WRITABLE_PROPERTY)); [fin (fst s1, true)|].
  destruct (Nat.eqb (vm_last_iteration c) (iteration_counter (fst s1))) eqn:Eg; [cbn; auto|].
  unfold stamp_property. rewrite mbind_modify_bus_eq. cbn [fst snd].
  set (s2 := (with_properties (map (stamp_vm (vm_id c) (iteration_counter (fst s1))) (vtable_properties (fst s1))) (fst s1), true)).
  assert (F2 : dframe false false (fst s) (fst s2)) by (eapply dframe_trans; [exact F1'| dfr]).
  assert (I2 : H0 -> Inv (fst s2)) by (intros h; apply (Inv_stamp_property (fst s1) true), I1', h).
  cbv zeta. destruct (sd_bus_message_enter_variant m (signature (vm_vtable c)) <? 0); [cbn; auto|].
  rewrite mbind_get_bus_eq.
  destruct (check_access ee (fst s2) m c error1) as [r4 error4].
  destruct (r4 <? 0); [fin s2|].
  pose proof (invoke_property_set_pres V ext ee s2 (vm_id c) (vm_vtable c) m (m_path m)
                (vm_interface c) (vm_member c) u1 error4) as [Pf PI].
  bstep E5 r5 s5; cbn [fst snd] in Pf, PI.
  all: assert (F5 : dframe false false (fst s) (fst s5)) by (eapply dframe_trans; [exact F2 | exact Pf]).
  all: assert (I5 : H0 -> Inv (fst s5)) by
         (intros hh; apply PI; split; [apply I2, hh|]; split; [cbn; apply (M1 hh)|]; split;
          [ cbn; intros Hin; apply Nat.eqb_neq in Eg; apply Eg, (M1 hh), Hin
          | apply (stamped_property (fst s1) true (vm_id c)) ]).
  all: try (split; [exact F5 | exact I5]).
  destruct r5 as [r5 error5]. fin s5.
Qed.

Lemma node_get_In ns p n : node_get ns p = Some n -> In n ns.
Proof.
  induction ns as [|x ns IH]; cbn; [discriminate|]. destruct (streq (n_path x) p).
  - intros E; injection E as <-; left; reflexivity.
  - intros E; right; auto.
Qed.

Lemma member_get_In l p i mem v : hashmap_get_member l p i mem = Some v -> In v l.
Proof. unfold hashmap_get_member. intros E. apply find_some in E. apply E. Qed.

Lemma reach_ncr V ext m p n rf s b0 (H : Prop) :
  hashmap_get_node (fst s) p = Some n -> dframe false false b0 (fst s) -> (H -> Inv (fst s)) ->
  dframe false false b0 (fst (snd (node_callbacks_run V ext m (n_callbacks n) rf s))) /\
  (H -> Inv (fst (snd (node_callbacks_run V ext m (n_callbacks n) rf s)))).
Proof.
  intros E F I. destruct (node_callbacks_run_pres V ext m (n_callbacks n) rf s) as [A B]. split.
  - eapply dframe_trans; eauto.
  - intros h. pose proof (I h) as HI. apply node_get_In in E.
    pose proof (proj1 (Forall_forall _ _) (inv_nodes _ HI) n E) as [N1 N2]. apply B; auto.
Qed.

Lemma reach_mcr V ext ee m c rf s b0 (H : Prop) p i mem :
  hashmap_get_member (vtable_methods (fst s)) p i mem = Some c -> dframe false false b0 (fst s) -> (H -> Inv (fst s)) ->
  dframe false false b0 (fst (snd (method_callbacks_run V ext ee m c rf s))) /\
  (H -> Inv (fst (snd (method_callbacks_run V ext ee m c rf s)))).
Proof.
  intros E F I. destruct (method_callbacks_run_pres V ext ee m c rf s) as [A B]. split.
  - eapply dframe_trans; eauto.
  - intros h. pose proof (I h) as HI. apply member_get_In in E.
    apply B; auto. apply (proj1 (Forall_forall _ _) (inv_methods _ HI) c E).
Qed.

Lemma reach_pgscr V ext ee m c rf g s b0 (H : Prop) p i mem :
  hashmap_get_member (vtable_properties (fst s)) p i mem = Some c -> dframe false false b0 (fst s) -> (H -> Inv (fst s)) ->
  dframe false false b0 (fst (snd (property_get_set_callbacks_run V ext ee m c rf g s))) /\
  (H -> Inv (fst (snd (property_get_set_callbacks_run V ext ee m c rf g s)))).
Proof.
  intros E F I. destruct (property_get_set_callbacks_run_pres V ext ee m c rf g s) as [A B]. split.
  - eapply dframe_trans; eauto.
  - intros h. pose proof (I h) as HI. apply member_get_In in E.
    apply B; auto. apply (proj1 (Forall_forall _ _) (inv_properties _ HI) c E).
Qed.

Ltac rs :=
  match goal with
  | |- dframe false false _ (fst (snd (mbind get_bus _ _))) /\ _ => rewrite mbind_get_bus_eq; cbv beta
  | |- dframe false false _ (fst (snd (mbind get_found _ _))) /\ _ => rewrite mbind_get_found_eq; cbv beta
  | |- dframe false false _ (fst (snd (mbind set_found _ _))) /\ _ => rewrite mbind_set_found_eq; cbv beta
  | |- dframe false false _ (fst (snd (mret _ _))) /\ _ => split; assumption
  | |- dframe false false _ (fst (snd (return_ _ _))) /\ _ => split; assumption
  | |- dframe false false _ (fst (snd (node_callbacks_run _ _ _ _ _ _))) /\ _ =>
      eapply reach_ncr; [eassumption | assumption | assumption]
  | |- dframe false false _ (fst (snd (method_callbacks_run _ _ _ _ _ _ _))) /\ _ =>
      eapply reach_mcr; [eassumption | assumption | assumption]
  | |- dframe false false _ (fst (snd (property_get_set_callbacks_run _ _ _ _ _ _ _ _))) /\ _ =>
      eapply reach_pgscr; [eassumption | assumption | assumption]
  | |- dframe false false _ (fst (snd (mbind _ _ _))) /\ _ =>
      apply seq_reach; [| let a := fresh "a" in let s' := fresh "s" in let E := fresh "E" in
                          let F := fresh "F" in let I := fresh "I" in intros a s' E F I; cbv beta]
  | |- dframe false false _ (fst (snd ((if ?c then _ else _) _))) /\ _ => destruct c
  | |- dframe false false _ (fst (snd ((match ?x with _ => _ end) _))) /\ _ => destruct x eqn:?
  | |- dframe false false _ (fst (snd ((let _ := _ in _) _))) /\ _ => cbv zeta
  end.

Ltac rleaf V ext ee :=
  eapply (finish_unguarded false false); [eassumption | eassumption |
    first [ use (dpres_property_get_all_callbacks_run V ext ee) | use (dpres_process_introspect V ext ee)
          | use (dpres_process_get_managed_objects V ext ee) | use (dpres_bus_node_exists V ext ee)
          | use dpres_reply_errorf | use dpres_bus_maybe_reply_error | dp_all ]].

Lemma object_find_and_run_pres V ext ee m p rf s :
  dframe false false (fst s) (fst (snd (object_find_and_run V ext ee m p rf s))) /\
  (Inv (fst s) -> Inv (fst (snd (object_find_and_run V ext ee m p rf s)))).
Proof.
  unfold object_find_and_run. rewrite call_state.
  assert (F0 : dframe false false (fst s) (fst s)) by apply dframe_refl.
  assert (I0 : Inv (fst s) -> Inv (fst s)) by auto.
  repeat (rs || rleaf V ext ee).
Qed.



Ltac rs2 V ext ee :=
  first [ rs
        | eapply (finish_unguarded false false); [eassumption | eassumption | apply object_find_and_run_pres]
        | eapply (finish_unguarded false false); [eassumption | eassumption | first [apply dpres_with_modified | apply dpres_diverge | solve [dp_all]]] ].

Lemma fallback_loop_pres V ext ee m ps s :
  dframe false false (fst s) (fst (snd (fallback_loop V ext ee m ps s))) /\
  (Inv (fst s) -> Inv (fst (snd (fallback_loop V ext ee m ps s)))).
Proof.
  revert s; induction ps as [|q ps IH]; intros s; cbn [fallback_loop].
  - split; [apply dframe_refl | auto].
  - assert (F0 : dframe false false (fst s) (fst s)) by apply dframe_refl.
    assert (I0 : Inv (fst s) -> Inv (fst s)) by auto.
    repeat first [ rs2 V ext ee
                 | eapply (finish_unguarded false false); [eassumption | eassumption | apply IH] ].
Qed.

Lemma process_rounds_pres V ext ee fuel m s :
  dframe false false (fst s) (fst (snd (process_rounds V ext ee fuel m s))) /\
  (Inv (fst s) -> Inv (fst (snd (process_rounds V ext ee fuel m s)))).
Proof.
  revert s; induction fuel as [|fuel IH]; intros s; cbn [process_rounds].
  - split; [apply dframe_refl | auto].
  - assert (F0 : dframe false false (fst s) (fst s)) by apply dframe_refl.
    assert (I0 : Inv (fst s) -> Inv (fst s)) by auto.
    repeat first [ rs2 V ext ee
                 | eapply (finish_unguarded false false); [eassumption | eassumption | apply fallback_loop_pres]
                 | eapply (finish_unguarded false false); [eassumption | eassumption | apply IH] ].
Qed.

Lemma bus_process_object_dm_pres V ext ee fuel m s :
  dframe false false (fst s) (fst (snd (bus_process_object_dm V ext ee fuel m s))) /\
  (Inv (fst s) -> Inv (fst (snd (bus_process_object_dm V ext ee fuel m s)))).
Proof.
  unfold bus_process_object_dm. rewrite call_state.
  assert (F0 : dframe false false (fst s) (fst s)) by apply dframe_refl.
  assert (I0 : Inv (fst s) -> Inv (fst s)) by auto.
  repeat first [ rs2 V ext ee
               | eapply (finish_unguarded false false); [eassumption | eassumption | apply process_rounds_pres] ].
Qed.

Lemma Inv_of_wf b : bus_wf b -> trace b = [] -> Inv b.
Proof.
  intros [HN [HM HP]] HT. constructor.
  - eapply Forall_impl; [|exact HN]. intros n [ND L]. split; [exact ND|].
    eapply Forall_impl; [|exact L]. intros c Hc. split; [exact Hc|]. rewrite HT. intros [].
  - eapply Forall_impl; [|exact HM]. intros v Hv. split; [exact Hv|]. rewrite HT. intros [].
  - eapply Forall_impl; [|exact HP]. intros v Hv. split; [exact Hv|]. rewrite HT. intros [].
  - intros t. rewrite HT. intros [].
  - rewrite HT. constructor.
Qed.

(** C6 (amended): started on a bus as registration leaves it, with an
    empty record of invocations, a whole dispatch of [bus_process_object]
    (restarts included) invokes each node callback, each method handler
    and each property setter at most once: the guarded invocations it
    records have no duplicates. *)
Theorem bus_process_object_guarded_once V ext ee fuel m b :
  bus_wf b -> trace b = [] ->
  NoDup (guarded (trace (snd (bus_process_object V ext ee fuel m b)))).
Proof.
  intros W T. unfold bus_process_object.
  destruct (bus_process_object_dm_pres V ext ee fuel m (b, false)) as [_ I].
  destruct (bus_process_object_dm V ext ee fuel m (b, false)) as [r [b' f]]. cbn in *.
  apply (inv_nodup b'), I, Inv_of_wf; assumption.
Qed.

Lemma managed_objects_exists_zero rf l : managed_objects_exists 0 rf l = inr true.
Proof. induction l as [|c l IH]; cbn; [reflexivity|]. destruct (rf && negb (nv_is_fallback c)); exact IH. Qed.

(** C9: a GetManagedObjects dispatch on a node that has, or inherits,
    the object-manager marker and whose enumerated child set is empty
    returns 0 and sends no reply, whatever vtables the node has. *)
Theorem process_get_managed_objects_empty V ext ee m n rf s s1 r e :
  is_method_call_type m = true ->
  bus_node_with_object_manager (fst s) n = true ->
  get_child_nodes V ext ee (m_path m) n None s = (Go (r, [], e), s1) -> 0 <= r ->
  process_get_managed_objects V ext ee m n rf s = (Go 0, s1) /\ sent (fst s1) = sent (fst s).
Proof.
  intros HM HO HC Hr. split.
  - unfold process_get_managed_objects, call. rewrite mbind_get_bus_eq, HO. cbn [negb].
    rewrite (mbind_go _ _ _ _ _ HC).
    destruct (r <? 0) eqn:E; [apply Z.ltb_lt in E; lia|].
    rewrite mbind_get_bus_eq. destruct (nodes_modified (fst s1)); [reflexivity|].
    rewrite HM. cbn [negb]. unfold sd_bus_message_open_container_ret. cbn [Z.ltb Z.compare].
    rewrite managed_objects_exists_zero. reflexivity.
  - destruct (dpres_get_child_nodes V ext ee s (m_path m) n None) as [[_ [_ [K _]]] _].
    rewrite HC in K. apply K. reflexivity.
Qed.



Lemma mbind_Ret_inv {S A B} (m : ST S A) (k : A -> ST S B) s r s' :
  mbind m k s = (Ret r, s') -> m s = (Ret r, s') \/ exists a s1, m s = (Go a, s1) /\ k a s1 = (Ret r, s').
Proof.
  unfold mbind. destruct (m s) as [[a|r0| |] s1]; intros E; try discriminate.
  - right. exists a, s1. auto.
  - left. injection E as -> ->. reflexivity.
Qed.

Lemma mbind_Go_inv {S A B} (m : ST S A) (k : A -> ST S B) s b s' :
  mbind m k s = (Go b, s') -> exists a s1, m s = (Go a, s1) /\ k a s1 = (Go b, s').
Proof.
  unfold mbind. destruct (m s) as [[a|r0| |] s1]; intros E; try discriminate. exists a, s1. auto.
Qed.

Lemma call_not_Ret {S} (m : ST S Z) s r s' : call m s <> (Ret r, s').
Proof. unfold call. destruct (m s) as [[| | |] ?]; discriminate. Qed.

Lemma emit_prefixes_Ret V ext ee path iface names ps s r s' :
  emit_prefixes V ext ee path iface names ps s = (Ret r, s') ->
  r <> 0 /\ exists prefix s0, In prefix ps /\
    emit_properties_changed_on_interface V ext ee prefix path iface true names s0 = (Go r, s').
Proof.
  revert s; induction ps as [|q ps IH]; intros s E; cbn [emit_prefixes] in E; [discriminate|].
  apply mbind_Ret_inv in E as [E | [a [s1 [E1 E]]]].
  - exfalso. eapply call_not_Ret; exact E.
  - destruct (negb (a =? 0)) eqn:Ha.
    + injection E as -> ->. split; [apply negb_true_iff, Z.eqb_neq in Ha; exact Ha|].
      exists q, s. split; [left; reflexivity | exact E1].
    + rewrite mbind_get_bus_eq in E. destruct (nodes_modified (fst s1)); [discriminate|].
      destruct (IH s1 E) as [Hr [p [s0 [Hp Hs]]]]. split; [exact Hr|]. exists p, s0. split; [right; exact Hp | exact Hs].
Qed.

Lemma emit_rounds_Ret V ext ee fuel path iface names s r s' :
  emit_rounds V ext ee fuel path iface names s = (Ret r, s') ->
  r <> 0 /\ exists prefix rf s0, (prefix = path \/ In prefix (object_path_prefixes path)) /\
    emit_properties_changed_on_interface V ext ee prefix path iface rf names s0 = (Go r, s').
Proof.
  revert s; induction fuel as [|fuel IH]; intros s E; cbn [emit_rounds] in E; [discriminate|].
  apply mbind_Ret_inv in E as [E | [a [s1 [_ E]]]]; [destruct s; discriminate|].
  apply mbind_Ret_inv in E as [E | [x [s2 [E2 E]]]].
  - exfalso. eapply call_not_Ret; exact E.
  - destruct (negb (x =? 0)) eqn:Hx.
    + injection E as -> ->. split; [apply negb_true_iff, Z.eqb_neq in Hx; exact Hx|].
      exists path, false, s1. split; [left; reflexivity | exact E2].
    + rewrite mbind_get_bus_eq in E.
      apply mbind_Ret_inv in E as [E | [y [s3 [_ E]]]].
      * destruct (nodes_modified (fst s2)); [discriminate|].
        destruct (emit_prefixes_Ret _ _ _ _ _ _ _ _ _ _ E) as [Hr [p [s0 [Hp Hs]]]].
        split; [exact Hr|]. exists p, true, s0. split; [right; exact Hp | exact Hs].
      * rewrite mbind_get_bus_eq in E. destruct (nodes_modified (fst s3)); [|discriminate].
        exact (IH s3 E).
Qed.

Lemma emit_prefixes_Go V ext ee path iface names ps s a s' :
  emit_prefixes V ext ee path iface names ps s = (Go a, s') -> a = 0.
Proof.
  revert s; induction ps as [|q ps IH]; intros s E; cbn [emit_prefixes] in E.
  - injection E as <- _. reflexivity.
  - apply mbind_Go_inv in E as [x [s1 [_ E]]].
    destruct (negb (x =? 0)); [discriminate|].
    rewrite mbind_get_bus_eq in E. destruct (nodes_modified (fst s1)); [injection E as <- _; reflexivity|].
    exact (IH s1 E).
Qed.

Lemma emit_rounds_Go V ext ee fuel path iface names s a s' :
  emit_rounds V ext ee fuel path iface names s = (Go a, s') -> a = 0.
Proof.
  revert s; induction fuel as [|fuel IH]; intros s E; cbn [emit_rounds] in E; [discriminate|].
  apply mbind_Go_inv in E as [u [s1 [_ E]]].
  apply mbind_Go_inv in E as [x [s2 [_ E]]].
  destruct (negb (x =? 0)); [discriminate|].
  rewrite mbind_get_bus_eq in E.
  apply mbind_Go_inv in E as [y [s3 [_ E]]].
  rewrite mbind_get_bus_eq in E. destruct (nodes_modified (fst s3)); [exact (IH s3 E)|].
  injection E as <- _. reflexivity.
Qed.

Lemma emit_strv_result V ext ee fuel path iface names s r s' :
  object_path_is_valid V path = true -> interface_name_is_valid V iface = true ->
  is_open (fst s) = true -> pid_changed (fst s) = false -> names <> [] ->
  sd_bus_emit_properties_changed_strv_dm V ext ee fuel path iface names s = (Go r, s') ->
  (r = - ENOENT /\ exists s1, emit_rounds V ext ee fuel path iface names s = (Go 0, s1)) \/
  (r <> 0 /\ exists prefix rf s0, (prefix = path \/ In prefix (object_path_prefixes path)) /\
     emit_properties_changed_on_interface V ext ee prefix path iface rf names s0 = (Go r, s')).
Proof.
  intros Hp Hi Ho Hc Hn E. unfold sd_bus_emit_properties_changed_strv_dm, call in E.
  rewrite Hp, Hi in E. cbn [negb] in E. rewrite mbind_get_bus_eq, Ho, Hc in E. cbn [negb] in E.
  destruct names as [|nm names']; [congruence|].
  unfold mbind, mret in E. cbn beta iota in E.
  destruct (emit_rounds V ext ee fuel path iface (nm :: names') s) as [[a|x| |] s1] eqn:ER;
    try discriminate.
  - left. injection E as <- _. split; [reflexivity|]. exists s1.
    rewrite (emit_rounds_Go _ _ _ _ _ _ _ _ _ _ ER). reflexivity.
  - right. injection E as <- <-. apply (emit_rounds_Ret _ _ _ _ _ _ _ _ _ _ ER).
Qed.



Lemma ner_bind {S A B} (m : ST S A) (k : A -> ST S B) :
  no_early_return m -> (forall a, no_early_return (k a)) -> no_early_return (mbind m k).
Proof.
  intros Hm Hk s r s' E. unfold mbind in E. destruct (m s) as [[a|r0| |] s1] eqn:Em; try discriminate.
  - exact (Hk a s1 r s' E).
  - injection E as -> ->. exact (Hm s r s' Em).
Qed.
Lemma ner_mret {S A} (a : A) : no_early_return (S:=S) (mret a).
Proof. intros s r s'; discriminate. Qed.
Lemma ner_get {S} : no_early_return (S:=S) get.
Proof. intros s r s'; discriminate. Qed.
Lemma ner_put {S} (x : S) : no_early_return (put x).
Proof. intros s r s'; discriminate. Qed.
Lemma ner_modify {S} (f : S -> S) : no_early_return (modify f).
Proof. intros s r s'; discriminate. Qed.
Lemma ner_crash {S A} : no_early_return (S:=S) (A:=A) crash.
Proof. intros s r s'; discriminate. Qed.
Lemma ner_diverge {S A} : no_early_return (S:=S) (A:=A) diverge.
Proof. intros s r s'; discriminate. Qed.
Lemma ner_new_id : no_early_return new_id.
Proof. intros s r s'; discriminate. Qed.
Lemma ner_call {S} (m : ST S Z) : no_early_return (call m).
Proof. intros s r s'. unfold call. destruct (m s) as [[| | |] ?]; discriminate. Qed.

Ltac ner :=
  match goal with
  | |- no_early_return (mbind _ _) => apply ner_bind; [|intros ?; cbv beta]
  | |- no_early_return (mret _) => apply ner_mret
  | |- no_early_return get => apply ner_get
  | |- no_early_return (put _) => apply ner_put
  | |- no_early_return (modify _) => apply ner_modify
  | |- no_early_return (update_node _ _) => apply ner_modify
  | |- no_early_return crash => apply ner_crash
  | |- no_early_return diverge => apply ner_diverge
  | |- no_early_return new_id => apply ner_new_id
  | |- no_early_return (call _) => apply ner_call
  | |- no_early_return (if ?c then _ else _) => destruct c
  | |- no_early_return (match ?x with _ => _ end) => destruct x
  | |- no_early_return (let _ := _ in _) => cbv zeta
  end.

Lemma ner_get_bus : no_early_return get_bus.
Proof. intros s r s'; discriminate. Qed.

Lemma ner_modify_bus g : no_early_return (modify_bus g).
Proof. intros [b f] r s'; discriminate. Qed.

Lemma ner_lift {A} (m : RM A) : no_early_return m -> no_early_return (lift m).
Proof.
  intros H [b f] r s'. unfold lift. destruct (m b) as [[a|x| |] b'] eqn:E; try discriminate.
  intros Eq. injection Eq as Hx _. subst x. exact (H b r b' E).
Qed.

Lemma ner_run_reg_ops V l : no_early_return (run_reg_ops V l).
Proof.
  induction l as [|o l IH]; cbn [run_reg_ops]; [apply ner_mret|].
  apply ner_bind; [|intros; exact IH].
  intros s r s'. destruct o; cbn [run_reg_op];
    unfold bus_add_object, bus_remove_object, add_object_vtable_internal, remove_object_vtable_internal,
      sd_bus_add_node_enumerator, sd_bus_remove_node_enumerator, sd_bus_add_object_manager,
      sd_bus_remove_object_manager; apply call_not_Ret.
Qed.

Lemma ner_invoke V ext t x : no_early_return (invoke V ext t x).
Proof.
  unfold invoke.
  repeat (apply ner_get_bus || apply ner_modify_bus || (apply ner_lift; apply ner_run_reg_ops) || ner).
Qed.

Lemma ner_node_vtable_get_userdata V ext ee path c e : no_early_return (node_vtable_get_userdata V ext ee path c e).
Proof. unfold node_vtable_get_userdata. repeat (apply ner_invoke || ner). Qed.

Lemma ner_invoke_property_get V ext ee t v path i q u e : no_early_return (invoke_property_get V ext ee t v path i q u e).
Proof. unfold invoke_property_get. repeat (apply ner_invoke || ner). Qed.

Lemma ner_emit_invalidated_names p i c names acc : no_early_return (emit_invalidated_names p i c names acc).
Proof.
  revert acc. induction names as [|q names IH]; intros acc; cbn [emit_invalidated_names];
    repeat (apply IH || apply ner_get_bus || ner).
Qed.

Lemma rnp_ner {S A} (m : ST S A) : no_early_return m -> ret_nonpos m.
Proof. intros H s r s' E. exfalso. exact (H s r s' E). Qed.

Lemma rnp_bind {S A B} (m : ST S A) (k : A -> ST S B) :
  ret_nonpos m -> (forall a, ret_nonpos (k a)) -> ret_nonpos (mbind m k).
Proof.
  intros Hm Hk s r s' E. apply mbind_Ret_inv in E as [E | [a [s1 [_ E]]]];
    [exact (Hm _ _ _ E) | exact (Hk a _ _ _ E)].
Qed.

Lemma rnp_return {S A} r : r <= 0 -> ret_nonpos (S:=S) (A:=A) (return_ r).
Proof. intros H s r' s' E. injection E as E1 _. rewrite <- E1. exact H. Qed.

Ltac rnp :=
  match goal with
  | |- ret_nonpos (mbind _ _) => apply rnp_bind; [|intros ?; cbv beta]
  | |- ret_nonpos (return_ _) =>
      apply rnp_return;
      first [ lia | cbv; intros ?; discriminate
            | match goal with H : (_ <? 0) = true |- _ => apply Z.ltb_lt in H; lia end ]
  | |- ret_nonpos (if ?c then _ else _) => destruct c eqn:?
  | |- ret_nonpos (match ?x with _ => _ end) => destruct x
  | |- ret_nonpos (let _ := _ in _) => cbv zeta
  | |- ret_nonpos _ => apply rnp_ner
  end.

Ltac ner_emit :=
  first [ apply ner_get_bus | apply ner_mret | apply ner_crash | apply ner_invoke_property_get
        | apply ner_node_vtable_get_userdata | apply ner_emit_invalidated_names ].

Lemma rnp_emit_names V ext ee prefix path iface c u names hi hc ch e :
  ret_nonpos (emit_names V ext ee prefix path iface c u names hi hc ch e).
Proof.
  revert hi hc ch e. induction names as [|p names IH]; intros hi hc ch e; cbn [emit_names];
    repeat (apply IH || ner_emit || rnp).
Qed.

Lemma rnp_emit_pass1 V ext ee prefix path iface rf names l hi hc ch e :
  ret_nonpos (emit_pass1 V ext ee prefix path iface rf names l hi hc ch e).
Proof.
  revert hi hc ch e. induction l as [|c l IH]; intros hi hc ch e; cbn [emit_pass1];
    repeat (apply IH || apply rnp_emit_names || ner_emit || rnp).
Qed.

Lemma rnp_emit_pass2 V ext ee prefix path iface rf names l acc e :
  ret_nonpos (emit_pass2 V ext ee prefix path iface rf names l acc e).
Proof.
  revert acc e. induction l as [|c l IH]; intros acc e; cbn [emit_pass2];
    repeat (apply IH || ner_emit || rnp).
Qed.

Section Emit.

Variable V : validators.
Variable ext : ext_call -> bus -> ext_result.
Variable ee : string -> Z.

Lemma dpres_emit_names s prefix path iface c u names hi hc ch e :
  dpres_at true true s (emit_names V ext ee prefix path iface c u names hi hc ch e).
Proof.
  revert s hi hc ch e. induction names as [|p names IH]; intros s hi hc ch e; cbn [emit_names];
    repeat (dp_gen || apply IH || (apply dpres_invoke_property_get; reflexivity)).
Qed.

Lemma dpres_emit_pass1 s prefix path iface rf names l hi hc ch e :
  dpres_at true true s (emit_pass1 V ext ee prefix path iface rf names l hi hc ch e).
Proof.
  revert s hi hc ch e. induction l as [|c l IH]; intros s hi hc ch e; cbn [emit_pass1];
    repeat (dp_gen || apply IH || apply dpres_emit_names || apply dpres_node_vtable_get_userdata).
Qed.

Lemma dpres_emit_invalidated_names s prefix iface c names acc :
  dpres_at true true s (emit_invalidated_names prefix iface c names acc).
Proof.
  revert s acc. induction names as [|p names IH]; intros s acc; cbn [emit_invalidated_names];
    repeat (dp_gen || apply IH).
Qed.

Lemma dpres_emit_pass2 s prefix path iface rf names l acc e :
  dpres_at true true s (emit_pass2 V ext ee prefix path iface rf names l acc e).
Proof.
  revert s acc e. induction l as [|c l IH]; intros s acc e; cbn [emit_pass2];
    repeat (dp_gen || apply IH || apply dpres_emit_invalidated_names || apply dpres_node_vtable_get_userdata).
Qed.

Ltac hstep H E r s' :=
  match type of H with
  | context [mbind ?m ?k ?s] =>
      destruct (m s) as [[r|r| |] s'] eqn:E;
      [rewrite (mbind_go m k s r s' E) in H | rewrite (mbind_ret m k s r s' E) in H
      | rewrite (mbind_crash m k s s' E) in H | rewrite (mbind_diverge m k s s' E) in H]
  end.

Lemma dpres_sent {A} kg s (m : DM A) r s' : dpres_at true kg s m -> m s = (r, s') -> sent (fst s') = sent (fst s).
Proof. intros D E. destruct (dpres_end _ _ _ _ _ _ D E) as [[_ [_ [K _]]] _]. apply K; reflexivity. Qed.

Lemma emit_attempt_sent prefix path iface rf names s r s' :
  emit_properties_changed_on_interface V ext ee prefix path iface rf names s = (Go r, s') ->
  sent (fst s') = sent (fst s) \/
  (r = 1 /\ exists ch inv, sent (fst s') = sent (fst s) ++ [OPropertiesChanged path iface ch inv]).
Proof.
  intros E. unfold emit_properties_changed_on_interface, call in E. rewrite mbind_get_bus_eq in E.
  destruct (hashmap_get_node (fst s) prefix) as [n|]; [|injection E as _ <-; left; reflexivity].
  hstep E E1 x s1; try discriminate.
  - destruct x as [[[hi hc] ch] e].
    pose proof (dpres_sent _ _ _ _ _ (dpres_emit_pass1 _ _ _ _ _ _ _ _ _ _ _) E1) as S1.
    destruct (negb hi && negb hc); [injection E as _ <-; left; exact S1|].
    rewrite mbind_get_bus_eq in E.
    hstep E E2 inv s2; try discriminate.
    + assert (S2 : sent (fst s2) = sent (fst s1)).
      { destruct hi; [exact (dpres_sent _ _ _ _ _ (dpres_emit_pass2 _ _ _ _ _ _ _ _ _) E2)|].
        injection E2 as _ <-. reflexivity. }
      destruct s2 as [b2 f2]. cbn in E. injection E as <- <-. right. split; [reflexivity|].
      exists ch, inv. cbn in S2 |- *. rewrite S2, S1. reflexivity.
    + injection E as _ <-. left. rewrite <- S1.
      destruct hi; [exact (dpres_sent _ _ _ _ _ (dpres_emit_pass2 _ _ _ _ _ _ _ _ _) E2)|discriminate].
  - injection E as _ <-. left. exact (dpres_sent _ _ _ _ _ (dpres_emit_pass1 _ _ _ _ _ _ _ _ _ _ _) E1).
Qed.


Lemma emit_attempt_outcome prefix path iface rf names s r s' :
  emit_properties_changed_on_interface V ext ee prefix path iface rf names s = (Go r, s') ->
  (r <= 0 /\ sent (fst s') = sent (fst s)) \/
  (r = 1 /\ exists ch inv, sent (fst s') = sent (fst s) ++ [OPropertiesChanged path iface ch inv]).
Proof.
  intros E. unfold emit_properties_changed_on_interface, call in E. rewrite mbind_get_bus_eq in E.
  destruct (hashmap_get_node (fst s) prefix) as [n|]; [|injection E as <- <-; left; split; [lia | reflexivity]].
  hstep E E1 x s1; try discriminate.
  - destruct x as [[[hi hc] ch] e].
    pose proof (dpres_sent _ _ _ _ _ (dpres_emit_pass1 _ _ _ _ _ _ _ _ _ _ _) E1) as S1.
    destruct (negb hi && negb hc); [injection E as <- <-; left; split; [lia | exact S1]|].
    rewrite mbind_get_bus_eq in E.
    hstep E E2 inv s2; try discriminate.
    + assert (S2 : sent (fst s2) = sent (fst s1)).
      { destruct hi; [exact (dpres_sent _ _ _ _ _ (dpres_emit_pass2 _ _ _ _ _ _ _ _ _) E2)|].
        injection E2 as _ <-. reflexivity. }
      destruct s2 as [b2 f2]. cbn in E. injection E as <- <-. right. split; [reflexivity|].
      exists ch, inv. cbn in S2 |- *. rewrite S2, S1. reflexivity.
    + injection E as <- <-. left. destruct hi; [|discriminate].
      split; [exact (rnp_emit_pass2 V ext ee _ _ _ _ _ _ _ _ _ _ _ E2)|].
      rewrite <- S1. exact (dpres_sent _ _ _ _ _ (dpres_emit_pass2 _ _ _ _ _ _ _ _ _) E2).
  - injection E as <- <-. left.
    split; [exact (rnp_emit_pass1 V ext ee _ _ _ _ _ _ _ _ _ _ _ _ _ E1)|].
    exact (dpres_sent _ _ _ _ _ (dpres_emit_pass1 _ _ _ _ _ _ _ _ _ _ _) E1).
Qed.

End Emit.

Lemma emit_zero_attempts_trans V ext ee path iface names s1 s2 s3 :
  emit_zero_attempts V ext ee path iface names s1 s2 ->
  emit_zero_attempts V ext ee path iface names s2 s3 ->
  emit_zero_attempts V ext ee path iface names s1 s3.
Proof.
  induction 1 as [s | p rf s s1' s2' Hk Ha _ IH | s s2' _ IH]; intros H.
  - exact H.
  - eapply eza_attempt; [exact Hk | exact Ha | exact (IH H)].
  - apply eza_reset. exact (IH H).
Qed.

Lemma emit_zero_attempts_sent V ext ee path iface names s s' :
  emit_zero_attempts V ext ee path iface names s s' -> sent (fst s') = sent (fst s).
Proof.
  induction 1 as [s | p rf s s1 s2 _ Ha _ IH | s s2 _ IH].
  - reflexivity.
  - rewrite IH. destruct (emit_attempt_outcome V ext ee _ _ _ _ _ _ _ _ Ha) as [[_ H] | [H _]];
      [exact H | discriminate].
  - rewrite IH. reflexivity.
Qed.

Lemma emit_prefixes_zero V ext ee path iface names ps s s' :
  incl ps (object_path_prefixes path) ->
  emit_prefixes V ext ee path iface names ps s = (Go 0, s') ->
  emit_zero_attempts V ext ee path iface names s s'.
Proof.
  revert s; induction ps as [|q ps IH]; intros s Hps E; cbn [emit_prefixes] in E.
  - injection E as <-. apply eza_done.
  - apply mbind_Go_inv in E as [x [s1 [E1 E]]].
    destruct (negb (x =? 0)) eqn:Hx; [discriminate|].
    apply negb_false_iff, Z.eqb_eq in Hx. subst x.
    apply (eza_attempt V ext ee path iface names q true s s1 s'); [right; split; [apply Hps; left; reflexivity | reflexivity] | exact E1|].
    rewrite mbind_get_bus_eq in E. destruct (nodes_modified (fst s1)); [injection E as <-; apply eza_done|].
    apply (IH s1); [intros p Hp; apply Hps; right; exact Hp | exact E].
Qed.

Lemma emit_prefixes_first V ext ee path iface names ps s r s' :
  incl ps (object_path_prefixes path) ->
  emit_prefixes V ext ee path iface names ps s = (Ret r, s') ->
  r <> 0 /\ exists prefix s0, In prefix (object_path_prefixes path) /\
    emit_zero_attempts V ext ee path iface names s s0 /\
    emit_properties_changed_on_interface V ext ee prefix path iface true names s0 = (Go r, s').
Proof.
  revert s; induction ps as [|q ps IH]; intros s Hps E; cbn [emit_prefixes] in E; [discriminate|].
  apply mbind_Ret_inv in E as [E | [a [s1 [E1 E]]]].
  - exfalso. eapply call_not_Ret; exact E.
  - destruct (negb (a =? 0)) eqn:Ha.
    + injection E as -> ->. split; [apply negb_true_iff, Z.eqb_neq in Ha; exact Ha|].
      exists q, s. split; [apply Hps; left; reflexivity | split; [apply eza_done | exact E1]].
    + apply negb_false_iff, Z.eqb_eq in Ha. subst a.
      rewrite mbind_get_bus_eq in E. destruct (nodes_modified (fst s1)); [discriminate|].
      destruct (IH s1 (fun p Hp => Hps p (or_intror Hp)) E) as [Hr [p [s0 [Hp [Z0 Hs]]]]].
      split; [exact Hr|]. exists p, s0. split; [exact Hp|]. split; [|exact Hs].
      eapply eza_attempt; [right; split; [apply Hps; left; reflexivity | reflexivity] | exact E1 | exact Z0].
Qed.

Lemma emit_rounds_zero V ext ee fuel path iface names s s' :
  emit_rounds V ext ee fuel path iface names s = (Go 0, s') ->
  emit_zero_attempts V ext ee path iface names s s'.
Proof.
  revert s; induction fuel as [|fuel IH]; intros s E; cbn [emit_rounds] in E; [discriminate|].
  destruct s as [b f]. apply mbind_Go_inv in E as [u [s1 [E1 E]]]. injection E1 as _ <-.
  apply eza_reset. cbn [fst snd].
  apply mbind_Go_inv in E as [x [s2 [E2 E]]].
  destruct (negb (x =? 0)) eqn:Hx; [discriminate|].
  apply negb_false_iff, Z.eqb_eq in Hx. subst x.
  apply (eza_attempt V ext ee path iface names path false _ s2 s'); [left; split; reflexivity | exact E2|].
  rewrite mbind_get_bus_eq in E.
  apply mbind_Go_inv in E as [y [s3 [E3 E]]].
  assert (Z3 : emit_zero_attempts V ext ee path iface names s2 s3).
  { destruct (nodes_modified (fst s2)); [injection E3 as _ <-; apply eza_done|].
    pose proof (emit_prefixes_Go _ _ _ _ _ _ _ _ _ _ E3) as Hy. subst y.
    exact (emit_prefixes_zero _ _ _ _ _ _ _ _ _ (incl_refl _) E3). }
  rewrite mbind_get_bus_eq in E.
  apply (emit_zero_attempts_trans _ _ _ _ _ _ _ _ _ Z3).
  destruct (nodes_modified (fst s3)); [exact (IH s3 E)|].
  injection E as <-. apply eza_done.
Qed.

Lemma emit_rounds_first V ext ee fuel path iface names s r s' :
  emit_rounds V ext ee fuel path iface names s = (Ret r, s') ->
  r <> 0 /\ exists prefix rf s0,
    (prefix = path /\ rf = false \/ In prefix (object_path_prefixes path) /\ rf = true) /\
    emit_zero_attempts V ext ee path iface names s s0 /\
    emit_properties_changed_on_interface V ext ee prefix path iface rf names s0 = (Go r, s').
Proof.
  revert s; induction fuel as [|fuel IH]; intros s E; cbn [emit_rounds] in E; [discriminate|].
  destruct s as [b f].
  apply mbind_Ret_inv in E as [E | [u [s1 [E1 E]]]]; [discriminate|]. injection E1 as _ <-.
  assert (R : forall s0, emit_zero_attempts V ext ee path iface names (with_modified false b, f) s0 ->
                         emit_zero_attempts V ext ee path iface names (b, f) s0)
    by (intros s0 H; apply eza_reset; exact H).
  apply mbind_Ret_inv in E as [E | [x [s2 [E2 E]]]].
  - exfalso. eapply call_not_Ret; exact E.
  - destruct (negb (x =? 0)) eqn:Hx.
    + injection E as -> ->. split; [apply negb_true_iff, Z.eqb_neq in Hx; exact Hx|].
      exists path, false, (with_modified false b, f). split; [left; split; reflexivity|].
      split; [apply R, eza_done | exact E2].
    + apply negb_false_iff, Z.eqb_eq in Hx. subst x.
      assert (Z2 : emit_zero_attempts V ext ee path iface names (b, f) s2)
        by (apply R; eapply eza_attempt; [left; split; reflexivity | exact E2 | apply eza_done]).
      rewrite mbind_get_bus_eq in E.
      apply mbind_Ret_inv in E as [E | [y [s3 [E3 E]]]].
      * destruct (nodes_modified (fst s2)); [discriminate|].
        destruct (emit_prefixes_first _ _ _ _ _ _ _ _ _ _ (incl_refl _) E) as [Hr [p [s0 [Hp [Z0 Hs]]]]].
        split; [exact Hr|]. exists p, true, s0. split; [right; split; [exact Hp | reflexivity]|].
        split; [exact (emit_zero_attempts_trans _ _ _ _ _ _ _ _ _ Z2 Z0) | exact Hs].
      * assert (Z3 : emit_zero_attempts V ext ee path iface names s2 s3).
        { destruct (nodes_modified (fst s2)); [injection E3 as _ <-; apply eza_done|].
          pose proof (emit_prefixes_Go _ _ _ _ _ _ _ _ _ _ E3) as Hy. subst y.
          exact (emit_prefixes_zero _ _ _ _ _ _ _ _ _ (incl_refl _) E3). }
        rewrite mbind_get_bus_eq in E. destruct (nodes_modified (fst s3)); [|discriminate].
        destruct (IH s3 E) as [Hr [p [rf [s0 [Hk [Z0 Hs]]]]]].
        split; [exact Hr|]. exists p, rf, s0. split; [exact Hk|]. split; [|exact Hs].
        exact (emit_zero_attempts_trans _ _ _ _ _ _ _ _ _ Z2 (emit_zero_attempts_trans _ _ _ _ _ _ _ _ _ Z3 Z0)).
Qed.



Lemma existsb_false_filter {A} (g : A -> bool) l : existsb g l = false -> filter g l = [].
Proof.
  induction l as [|x l IH]; cbn; [reflexivity|]. destruct (g x); [discriminate|]. exact IH.
Qed.

Lemma same_tree_refl b : same_tree b b.
Proof. repeat split. Qed.

Lemma same_tree_trans b1 b2 b3 : same_tree b1 b2 -> same_tree b2 b3 -> same_tree b1 b3.
Proof. intros (A1 & B1 & C1 & D1) (A2 & B2 & C2 & D2). repeat split; congruence. Qed.

Lemma node_vtable_get_userdata_resolves V ext ee path c u b f :
  vtable_resolves ext path c u ->
  exists b', node_vtable_get_userdata V ext ee path c None (b, f) = (Go (1, u, None), (b', f)) /\ same_tree b b'.
Proof.
  unfold vtable_resolves, node_vtable_get_userdata. destruct (nv_find c) as [fd|].
  - intros H. destruct (H b) as (H1 & H2 & H3 & H4).
    unfold invoke, mbind, get_bus, modify_bus, lift, mret. cbn [fst snd].
    destruct (ext (XFind fd path (nv_interface c) (nv_userdata c)) b) as [r er ops v ch].
    cbn [er_ret er_error er_ops er_value] in H1, H2, H3, H4. subst er ops v. cbn.
    destruct (r <? 0) eqn:E1; [apply Z.ltb_lt in E1; lia|].
    destruct (r =? 0) eqn:E2; [apply Z.eqb_eq in E2; lia|].
    eexists. split; [reflexivity|]. repeat split.
  - intros ->. exists b. split; [reflexivity | apply same_tree_refl].
Qed.

Lemma invoke_property_get_reads V ext ee v path iface q u val b f :
  prop_reads V ext path iface u v q val ->
  exists r b', invoke_property_get V ext ee TOther (vm_vtable v) path iface q
                 (vtable_property_convert_userdata (vm_vtable v) u) None (b, f) = (Go (r, val, None), (b', f)) /\
    0 <= r /\ same_tree b b'.
Proof.
  unfold prop_reads, invoke_property_get. destruct (handler (vm_vtable v)) as [g|].
  - intros H. destruct (H b) as (H1 & H2 & H3 & H4).
    unfold invoke, mbind, get_bus, modify_bus, lift, mret. cbn [fst snd].
    destruct (ext (XGet g path iface q (vtable_property_convert_userdata (vm_vtable v) u)) b) as [r er ops x ch].
    cbn [er_ret er_error er_ops er_value] in H1, H2, H3, H4. subst er ops x. cbn.
    destruct (r <? 0) eqn:E1; [apply Z.ltb_lt in E1; lia|].
    exists r. eexists. split; [reflexivity|]. split; [exact H1|]. repeat split.
  - intros [Hg Hv]. unfold getterless_ok in Hg.
    destruct (handler (vm_vtable v)); [discriminate|].
    exists 0, b. subst val.
    destruct (streq (signature (vm_vtable v)) "as"); [split; [reflexivity | split; [lia | apply same_tree_refl]]|].
    cbn [orb] in Hg. apply andb_true_iff in Hg as [Hs Hb]. rewrite Hs, Hb. cbn [negb].
    split; [reflexivity | split; [lia | apply same_tree_refl]].
Qed.

Lemma emit_names_prefix V ext ee p path iface c u look val ok rest hi hc ch b f :
  nodes_modified b = false ->
  Forall (prop_emitted V ext (vtable_properties b) p path iface c u look val) ok ->
  exists b', emit_names V ext ee p path iface c u (ok ++ rest) hi hc ch None (b, f) =
    emit_names V ext ee p path iface c u rest
      (hi || existsb (fun q => prop_inv_only (look q)) ok)
      (hc || existsb (fun q => negb (prop_inv_only (look q))) ok)
      (ch ++ map (fun q => (q, val q)) (filter (fun q => negb (prop_inv_only (look q))) ok)) None (b', f) /\
    same_tree b b'.
Proof.
  intros HM HF. revert hi hc ch b HM HF.
  induction ok as [|q ok IH]; intros hi hc ch b HM HF.
  - exists b. split; [|apply same_tree_refl]. cbn [existsb filter map app].
    rewrite !orb_false_r, app_nil_r. reflexivity.
  - inversion HF as [|? ? [[Hv [Hl Hid]] [He Hr]] HF']; subst.
    cbn [app emit_names]. rewrite Hv. cbn [negb]. rewrite mbind_get_bus_eq. cbn [fst]. rewrite Hl.
    rewrite Hid, Nat.eqb_refl. cbn [negb]. unfold prop_emits in He. rewrite He. cbn [negb].
    cbn [existsb filter].
    destruct (prop_inv_only (look q)) eqn:Hi; unfold prop_inv_only in Hi; rewrite Hi.
    + destruct (IH true hc ch b HM HF') as [b' [E S]]. exists b'. split; [|exact S].
      rewrite E. f_equal. cbn [negb orb]. rewrite orb_true_r. reflexivity.
    + assert (Hi' : prop_inv_only (look q) = false) by exact Hi.
      destruct (invoke_property_get_reads V ext ee (look q) path iface q u (val q) b f (Hr eq_refl))
        as [r [b1 [EG [Hr0 S1]]]].
      rewrite (mbind_go _ _ _ _ _ EG). cbv beta iota.
      destruct (r <? 0) eqn:Er; [apply Z.ltb_lt in Er; lia|].
      rewrite mbind_get_bus_eq. cbn [fst].
      destruct S1 as (N1 & P1 & M1 & T1). rewrite M1, HM.
      assert (HF1 : Forall (prop_emitted V ext (vtable_properties b1) p path iface c u look val) ok)
        by (rewrite P1; exact HF').
      destruct (IH hi true (ch ++ [(q, val q)]) b1 (eq_trans M1 HM) HF1) as [b' [E S]].
      exists b'. split; [|exact (same_tree_trans _ _ _ (conj N1 (conj P1 (conj M1 T1))) S)].
      rewrite E. f_equal.
      * cbn [negb orb]. rewrite orb_true_r. reflexivity.
      * cbn [negb map]. rewrite <- app_assoc. reflexivity.
Qed.

Lemma emit_names_edom_at V ext ee p path iface c u look val ok q rest b f :
  nodes_modified b = false ->
  Forall (prop_emitted V ext (vtable_properties b) p path iface c u look val) ok ->
  prop_indexed V (vtable_properties b) p iface c look q -> prop_emits (look q) = false ->
  exists b', emit_names V ext ee p path iface c u (ok ++ q :: rest) false false [] None (b, f) =
               (Ret (- EDOM), (b', f)) /\ same_tree b b'.
Proof.
  intros HM HF [Hv [Hl Hid]] He.
  destruct (emit_names_prefix V ext ee p path iface c u look val ok (q :: rest) false false [] b f HM HF) as [b' [E S]].
  rewrite E. exists b'. split; [|exact S]. destruct S as (N & P & M & T).
  cbn [emit_names]. rewrite Hv. cbn [negb]. rewrite mbind_get_bus_eq. cbn [fst]. rewrite P, Hl, Hid, Nat.eqb_refl.
  cbn [negb]. unfold prop_emits in He. rewrite He. reflexivity.
Qed.

Lemma emit_names_enoent_at V ext ee p path iface c u look val ok q rest b f :
  nodes_modified b = false ->
  Forall (prop_emitted V ext (vtable_properties b) p path iface c u look val) ok ->
  member_name_is_valid V q = true -> hashmap_get_member (vtable_properties b) p iface q = None ->
  exists b', emit_names V ext ee p path iface c u (ok ++ q :: rest) false false [] None (b, f) =
               (Ret (- ENOENT), (b', f)) /\ same_tree b b'.
Proof.
  intros HM HF Hv Hl.
  destruct (emit_names_prefix V ext ee p path iface c u look val ok (q :: rest) false false [] b f HM HF) as [b' [E S]].
  rewrite E. exists b'. split; [|exact S]. destruct S as (N & P & M & T).
  cbn [emit_names]. rewrite Hv. cbn [negb]. rewrite mbind_get_bus_eq. cbn [fst]. rewrite P, Hl. reflexivity.
Qed.

Lemma emit_invalidated_names_indexed V p iface c look names acc b f :
  Forall (prop_indexed V (vtable_properties b) p iface c look) names ->
  emit_invalidated_names p iface c names acc (b, f) =
  (Go (acc ++ filter (fun q => prop_inv_only (look q)) names), (b, f)).
Proof.
  intros HF. revert acc. induction HF as [|q names [_ [Hl Hid]] HF IH]; intros acc.
  - cbn. rewrite app_nil_r. reflexivity.
  - cbn [emit_invalidated_names filter]. rewrite mbind_get_bus_eq. cbn [fst]. rewrite Hl, Hid, Nat.eqb_refl.
    cbn [negb].
    change (has_flag (flags (vm_vtable (look q))) SD_BUS_VTABLE_PROPERTY_INVALIDATE_ONLY) with (prop_inv_only (look q)).
    destruct (prop_inv_only (look q)); cbn [negb].
    + rewrite IH, <- app_assoc. reflexivity.
    + apply IH.
Qed.

Lemma emit_pass1_skip V ext ee p path iface names l1 l hi hc ch e :
  Forall (fun c => nv_interface c <> iface) l1 ->
  emit_pass1 V ext ee p path iface false names (l1 ++ l) hi hc ch e =
  emit_pass1 V ext ee p path iface false names l hi hc ch e.
Proof.
  intros H. induction H as [|c l1 Hc _ IH]; [reflexivity|].
  cbn [app emit_pass1 andb]. unfold streq. apply String.eqb_neq in Hc. rewrite Hc. exact IH.
Qed.

Lemma emit_pass2_skip V ext ee p path iface names l1 l acc e :
  Forall (fun c => nv_interface c <> iface) l1 ->
  emit_pass2 V ext ee p path iface false names (l1 ++ l) acc e =
  emit_pass2 V ext ee p path iface false names l acc e.
Proof.
  intros H. induction H as [|c l1 Hc _ IH]; [reflexivity|].
  cbn [app emit_pass2 andb]. unfold streq. apply String.eqb_neq in Hc. rewrite Hc. exact IH.
Qed.

Lemma emit_pass1_single V ext ee p path iface names l1 c l2 u b f :
  Forall (fun c' => nv_interface c' <> iface) l1 -> Forall (fun c' => nv_interface c' <> iface) l2 ->
  nv_interface c = iface -> vtable_resolves ext path c u -> nodes_modified b = false ->
  exists b1, same_tree b b1 /\
    forall r, emit_names V ext ee p path iface c u names false false [] None (b1, f) = r ->
    emit_pass1 V ext ee p path iface false names (l1 ++ c :: l2) false false [] None (b, f) = r.
Proof.
  intros H1 H2 Hi Hres HM.
  rewrite emit_pass1_skip by exact H1. cbn [emit_pass1 andb]. unfold streq. rewrite Hi, String.eqb_refl. cbn [negb].
  destruct (node_vtable_get_userdata_resolves V ext ee path c u b f Hres) as [b1 [E S]].
  exists b1. split; [exact S|]. intros r ER.
  rewrite (mbind_go _ _ _ _ _ E). cbv beta iota. change (1 <? 0) with false. cbv iota.
  rewrite mbind_get_bus_eq. cbn [fst]. destruct S as (_ & _ & M & _). rewrite M, HM.
  change (1 =? 0) with false. cbv iota.
  rewrite <- ER. unfold mbind.
  destruct (emit_names V ext ee p path iface c u names false false [] None (b1, f)) as [[[[[hi hc] ch] e]| | |] s'];
    try reflexivity.
  rewrite <- (app_nil_r l2), (emit_pass1_skip V ext ee p path iface names l2 [] hi hc ch e) by exact H2.
  reflexivity.
Qed.

Lemma emit_pass2_single V ext ee p path iface names l1 c l2 u look b f :
  Forall (fun c' => nv_interface c' <> iface) l1 -> Forall (fun c' => nv_interface c' <> iface) l2 ->
  nv_interface c = iface -> vtable_resolves ext path c u -> nodes_modified b = false ->
  Forall (prop_indexed V (vtable_properties b) p iface c look) names ->
  exists b', emit_pass2 V ext ee p path iface false names (l1 ++ c :: l2) [] None (b, f) =
    (Go (filter (fun q => prop_inv_only (look q)) names), (b', f)) /\ same_tree b b'.
Proof.
  intros H1 H2 Hi Hres HM HF.
  rewrite emit_pass2_skip by exact H1. cbn [emit_pass2 andb]. unfold streq. rewrite Hi, String.eqb_refl. cbn [negb].
  destruct (node_vtable_get_userdata_resolves V ext ee path c u b f Hres) as [b1 [E S]].
  exists b1. split; [|exact S].
  rewrite (mbind_go _ _ _ _ _ E). cbv beta iota. change (1 <? 0) with false. cbv iota.
  rewrite mbind_get_bus_eq. cbn [fst]. destruct S as (_ & P & M & _). rewrite M, HM.
  change (1 =? 0) with false. cbv iota.
  rewrite <- P in HF.
  rewrite (mbind_go _ _ _ _ _ (emit_invalidated_names_indexed V p iface c look names [] b1 f HF)).
  rewrite <- (app_nil_r l2), (emit_pass2_skip V ext ee p path iface names l2 []) by exact H2.
  reflexivity.
Qed.

Lemma emit_attempt_single_all V ext ee p path iface n l1 c l2 u look val names b f :
  hashmap_get_node b p = Some n -> n_vtables n = l1 ++ c :: l2 ->
  Forall (fun c' => nv_interface c' <> iface) l1 -> Forall (fun c' => nv_interface c' <> iface) l2 ->
  nv_interface c = iface -> vtable_resolves ext path c u -> nodes_modified b = false ->
  Forall (prop_emitted V ext (vtable_properties b) p path iface c u look val) names -> names <> [] ->
  exists b', emit_properties_changed_on_interface V ext ee p path iface false names (b, f) = (Go 1, (b', f)) /\
    sent b' = sent b ++ [prop_signal path iface look val names].
Proof.
  intros Hn Hvt H1 H2 Hi Hres HM HF Hne.
  unfold emit_properties_changed_on_interface, call. rewrite mbind_get_bus_eq. cbn [fst]. rewrite Hn, Hvt.
  destruct (emit_pass1_single V ext ee p path iface names l1 c l2 u b f H1 H2 Hi Hres HM) as [b1 [S1 E1]].
  destruct S1 as (N1 & P1 & M1 & T1).
  assert (HF1 : Forall (prop_emitted V ext (vtable_properties b1) p path iface c u look val) names)
    by (rewrite P1; exact HF).
  destruct (emit_names_prefix V ext ee p path iface c u look val names [] false false [] b1 f (eq_trans M1 HM) HF1)
    as [b2 [E2 S2]].
  rewrite app_nil_r in E2. cbn [emit_names orb app] in E2. unfold mret in E2.
  rewrite (mbind_go _ _ _ _ _ (E1 _ E2)). cbv beta iota.
  destruct S2 as (N2 & P2 & M2 & T2).
  assert (LN : live_node b2 n = n).
  { unfold live_node, hashmap_get_node. rewrite N2, N1. unfold hashmap_get_node in Hn.
    rewrite (node_get_path _ _ _ Hn). exact (f_equal (fun o => match o with Some x => x | None => n end) Hn). }
  assert (HI : Forall (prop_indexed V (vtable_properties b2) p iface c look) names).
  { eapply Forall_impl; [|exact HF]. intros q [Hq _]. rewrite P2, P1. exact Hq. }
  destruct (existsb (fun q => prop_inv_only (look q)) names) eqn:Ehi.
  - cbn [negb andb]. rewrite mbind_get_bus_eq. cbn [fst]. rewrite LN, Hvt.
    destruct (emit_pass2_single V ext ee p path iface names l1 c l2 u look b2 f H1 H2 Hi Hres (eq_trans M2 (eq_trans M1 HM)) HI)
      as [b3 [E3 S3]].
    rewrite (mbind_go _ _ _ _ _ E3).
    eexists. split; [reflexivity|]. cbn [sent with_sent]. destruct S3 as (_ & _ & _ & T3).
    rewrite T3, T2, T1. reflexivity.
  - assert (Ehc : existsb (fun q => negb (prop_inv_only (look q))) names = true).
    { destruct names as [|q names']; [congruence|]. cbn in Ehi |- *.
      destruct (prop_inv_only (look q)); [discriminate|reflexivity]. }
    rewrite Ehc. cbn [negb andb]. rewrite mbind_get_bus_eq. cbn [fst].
    eexists. split; [reflexivity|]. cbn [sent with_sent]. rewrite T2, T1.
    unfold prop_signal. rewrite (existsb_false_filter _ _ Ehi). reflexivity.
Qed.

Lemma emit_attempt_single_ret V ext ee p path iface n l1 c l2 u names b f x :
  hashmap_get_node b p = Some n -> n_vtables n = l1 ++ c :: l2 ->
  Forall (fun c' => nv_interface c' <> iface) l1 -> Forall (fun c' => nv_interface c' <> iface) l2 ->
  nv_interface c = iface -> vtable_resolves ext path c u -> nodes_modified b = false ->
  (forall b1, same_tree b b1 -> exists b2,
     emit_names V ext ee p path iface c u names false false [] None (b1, f) = (Ret x, (b2, f)) /\ same_tree b1 b2) ->
  exists b', emit_properties_changed_on_interface V ext ee p path iface false names (b, f) = (Go x, (b', f)) /\
    same_tree b b'.
Proof.
  intros Hn Hvt H1 H2 Hi Hres HM HN.
  unfold emit_properties_changed_on_interface, call. rewrite mbind_get_bus_eq. cbn [fst]. rewrite Hn, Hvt.
  destruct (emit_pass1_single V ext ee p path iface names l1 c l2 u b f H1 H2 Hi Hres HM) as [b1 [S1 E1]].
  destruct (HN b1 S1) as [b2 [E2 S2]].
  rewrite (mbind_ret _ _ _ _ _ (E1 _ E2)).
  exists b2. split; [reflexivity | exact (same_tree_trans _ _ _ S1 S2)].
Qed.

Lemma emit_strv_exact_attempt V ext ee fuel path iface names b x b' :
  object_path_is_valid V path = true -> interface_name_is_valid V iface = true ->
  is_open b = true -> pid_changed b = false -> names <> [] -> fuel <> O -> x <> 0 ->
  emit_properties_changed_on_interface V ext ee path path iface false names (with_modified false b, false) = (Go x, (b', false)) ->
  sd_bus_emit_properties_changed_strv V ext ee fuel path iface names b = (Go x, b').
Proof.
  intros Hp Hi Ho Hc Hn Hf Hx E.
  unfold sd_bus_emit_properties_changed_strv, sd_bus_emit_properties_changed_strv_dm, call.
  rewrite Hp, Hi. cbn [negb]. rewrite mbind_get_bus_eq. cbn [fst]. rewrite Ho, Hc. cbn [negb].
  destruct names as [|nm names']; [congruence|]. destruct fuel as [|fuel']; [congruence|].
  cbn [emit_rounds]. unfold mbind, mret, modify_bus. cbv beta iota zeta.
  rewrite E. cbv beta iota. apply Z.eqb_neq in Hx. rewrite Hx. reflexivity.
Qed.

(** C7 (amended): take a name list, a path whose node has exactly one
    vtable [c] of the interface, and a [c] whose find callback, if any,
    resolves.  Every name before position [q] is valid, indexed by [c],
    carries EMITS_CHANGE and, unless INVALIDATE_ONLY, is read by the
    automatic getter or by a custom getter that succeeds.  If all names
    are such, the call returns 1 after sending exactly one signal.  It
    has the non-INVALIDATE_ONLY names with their values in changed and
    the INVALIDATE_ONLY names by name in invalidated.  If name [q] is
    indexed by [c] but lacks EMITS_CHANGE, the call returns -EDOM and
    sends nothing.  If [q] is valid but not indexed, it returns -ENOENT
    and sends nothing. *)
Theorem emit_on_interface_flags V ext ee fuel path iface n l1 c l2 u look val names b :
  object_path_is_valid V path = true -> interface_name_is_valid V iface = true ->
  is_open b = true -> pid_changed b = false -> fuel <> O ->
  hashmap_get_node b path = Some n -> n_vtables n = l1 ++ c :: l2 ->
  Forall (fun c' => nv_interface c' <> iface) (l1 ++ l2) -> nv_interface c = iface ->
  vtable_resolves ext path c u ->
  (Forall (prop_emitted V ext (vtable_properties b) path path iface c u look val) names -> names <> [] ->
   fst (sd_bus_emit_properties_changed_strv V ext ee fuel path iface names b) = Go 1 /\
   sent (snd (sd_bus_emit_properties_changed_strv V ext ee fuel path iface names b)) =
     sent b ++ [OPropertiesChanged path iface
                  (map (fun q => (q, val q)) (filter (fun q => negb (prop_inv_only (look q))) names))
                  (filter (fun q => prop_inv_only (look q)) names)]) /\
  (forall ok q rest, names = ok ++ q :: rest ->
   Forall (prop_emitted V ext (vtable_properties b) path path iface c u look val) ok ->
   prop_indexed V (vtable_properties b) path iface c look q -> prop_emits (look q) = false ->
   fst (sd_bus_emit_properties_changed_strv V ext ee fuel path iface names b) = Go (- EDOM) /\
   sent (snd (sd_bus_emit_properties_changed_strv V ext ee fuel path iface names b)) = sent b) /\
  (forall ok q rest, names = ok ++ q :: rest ->
   Forall (prop_emitted V ext (vtable_properties b) path path iface c u look val) ok ->
   member_name_is_valid V q = true -> hashmap_get_member (vtable_properties b) path iface q = None ->
   fst (sd_bus_emit_properties_changed_strv V ext ee fuel path iface names b) = Go (- ENOENT) /\
   sent (snd (sd_bus_emit_properties_changed_strv V ext ee fuel path iface names b)) = sent b).
Proof.
  intros Hp Hi Ho Hc Hf Hn Hvt Ho12 Hic Hres.
  apply Forall_app in Ho12 as [H1 H2].
  split; [|split].
  - intros HF Hne.
    destruct (emit_attempt_single_all V ext ee path path iface n l1 c l2 u look val names (with_modified false b) false
                Hn Hvt H1 H2 Hic Hres eq_refl HF Hne) as [b' [E S]].
    rewrite (emit_strv_exact_attempt V ext ee fuel path iface names b 1 b' Hp Hi Ho Hc Hne Hf ltac:(discriminate) E).
    split; [reflexivity | exact S].
  - intros ok q rest -> Hok Hq He.
    destruct (emit_attempt_single_ret V ext ee path path iface n l1 c l2 u (ok ++ q :: rest) (with_modified false b) false
                (- EDOM) Hn Hvt H1 H2 Hic Hres eq_refl) as [b' [E S]].
    { intros b1 (N1 & P1 & M1 & T1).
      destruct (emit_names_edom_at V ext ee path path iface c u look val ok q rest b1 false M1)
        as [b2 [E2 S2]]; [rewrite P1; exact Hok | rewrite P1; exact Hq | exact He |].
      exists b2. split; [exact E2 | exact S2]. }
    rewrite (emit_strv_exact_attempt V ext ee fuel path iface (ok ++ q :: rest) b (- EDOM) b' Hp Hi Ho Hc
               ltac:(destruct ok; discriminate) Hf ltac:(discriminate) E).
    split; [reflexivity | destruct S as (_ & _ & _ & T); exact T].
  - intros ok q rest -> Hok Hv Hl.
    destruct (emit_attempt_single_ret V ext ee path path iface n l1 c l2 u (ok ++ q :: rest) (with_modified false b) false
                (- ENOENT) Hn Hvt H1 H2 Hic Hres eq_refl) as [b' [E S]].
    { intros b1 (N1 & P1 & M1 & T1).
      destruct (emit_names_enoent_at V ext ee path path iface c u look val ok q rest b1 false M1)
        as [b2 [E2 S2]]; [rewrite P1; exact Hok | exact Hv | rewrite P1; exact Hl |].
      exists b2. split; [exact E2 | exact S2]. }
    rewrite (emit_strv_exact_attempt V ext ee fuel path iface (ok ++ q :: rest) b (- ENOENT) b' Hp Hi Ho Hc
               ltac:(destruct ok; discriminate) Hf ltac:(discriminate) E).
    split; [reflexivity | destruct S as (_ & _ & _ & T); exact T].
Qed.





Lemma ner_bus_node_allocate_aux fuel p : no_early_return (bus_node_allocate_aux fuel p).
Proof. revert p; induction fuel as [|fuel IH]; intros p; cbn [bus_node_allocate_aux]; repeat (ner || apply IH). Qed.

Lemma ner_bus_node_gc_aux fuel p : no_early_return (bus_node_gc_aux fuel p).
Proof. revert p; induction fuel as [|fuel IH]; intros p; cbn [bus_node_gc_aux]; repeat (ner || apply IH). Qed.

Lemma ner_bus_node_gc p : no_early_return (bus_node_gc p).
Proof. intros s. apply ner_bus_node_gc_aux. Qed.

Lemma ner_add_property_member V np c v : no_early_return (add_property_member V np c v).
Proof. unfold add_property_member. repeat ner. Qed.

Lemma ner_add_members V np c l : no_early_return (add_members V np c l).
Proof. induction l as [|v l IH]; cbn [add_members]; repeat (ner || apply IH || apply ner_add_property_member). Qed.

Lemma ner_free_node_vtable np w : no_early_return (free_node_vtable np w).
Proof. apply ner_modify. Qed.

Lemma add_members_head_rejected V np c v l s r s' :
  property_entry_rejected V v = true -> add_members V np c (v :: l) s = (Go r, s') -> r = - EINVAL.
Proof.
  intros Hb E. cbn [add_members] in E. unfold property_entry_rejected in Hb.
  apply mbind_Go_inv in E as [r0 [s1 [E0 E]]].
  destruct (type v); try discriminate.
  - unfold add_property_member in E0. rewrite Hb in E0. injection E0 as <- <-. cbn in E. injection E as <- _. reflexivity.
  - destruct (writable_entry_invalid V v).
    + injection E0 as <- <-. cbn in E. injection E as <- _. reflexivity.
    + cbn [orb] in Hb. unfold add_property_member in E0. rewrite Hb in E0. injection E0 as <- <-.
      cbn in E. injection E as <- _. reflexivity.
Qed.

Lemma add_members_rejected V np c l v s r s' :
  In v l -> property_entry_rejected V v = true -> add_members V np c l s = (Go r, s') -> r < 0.
Proof.
  revert s. induction l as [|x l IH]; intros s Hin Hb E; [destruct Hin|].
  destruct Hin as [-> | Hin].
  - rewrite (add_members_head_rejected V np c v l s r s' Hb E). unfold EINVAL. lia.
  - cbn [add_members] in E. apply mbind_Go_inv in E as [r0 [s1 [E0 E]]].
    destruct (r0 <? 0) eqn:Hr.
    + injection E as <- _. apply Z.ltb_lt, Hr.
    + exact (IH s1 Hin Hb E).
Qed.

Lemma call_sat {S} (P : Z -> Prop) (m : ST S Z) s r s' : res_sat P (m s) -> call m s = (Go r, s') -> P r.
Proof. unfold res_sat, call. destruct (m s) as [[x|x| |] s1]; cbn; intros H E; injection E as <- _ || discriminate E; exact H. Qed.

Lemma mbind_get_eq {S B} (k : S -> ST S B) s : mbind get k s = k s s.
Proof. reflexivity. Qed.

Lemma sat_return {S} (P : Z -> Prop) x s : P x -> res_sat P (return_ (S:=S) (A:=Z) x s).
Proof. intros H. exact H. Qed.

Ltac nstep E x s' :=
  match goal with
  | |- res_sat _ (mbind ?m ?k ?s) =>
      destruct (m s) as [[x|x| |] s'] eqn:E;
      [rewrite (mbind_go m k s x s' E) | rewrite (mbind_ret m k s x s' E)
      | rewrite (mbind_crash m k s s' E); exact I | rewrite (mbind_diverge m k s s' E); exact I]
  end.

Lemma scan_vtables_neg fb i vt l ex r : scan_vtables fb i vt l ex = inl r -> r < 0.
Proof.
  revert ex; induction l as [|x l IH]; intros ex; cbn; [discriminate|].
  destruct (negb (Bool.eqb (nv_is_fallback x) fb)); [intros E; injection E as <-; unfold EPROTOTYPE; lia|].
  destruct (streq (nv_interface x) i); [|apply IH].
  destruct (Nat.eqb (vt_ptr (nv_vtable x)) (vt_ptr vt)); [intros E; injection E as <-; unfold EEXIST; lia|apply IH].
Qed.

Lemma bus_node_allocate_existing b p nd :
  hashmap_get_node b p = Some nd -> bus_node_allocate p b = (Go (n_path nd), b).
Proof. intros H. unfold bus_node_allocate. cbn [bus_node_allocate_aux]. rewrite mbind_get_eq, H. reflexivity. Qed.

(** C6 counterexample: property getters are not guarded by
    [last_iteration].  A Properties.Get whose getter modifies the tree
    makes the dispatch restart, and the getter of record 1 runs twice. *)
Lemma bus_process_object_getter_twice_counterexample :
  bus_wf bus_prop /\ trace bus_prop = [] /\
  trace (snd (bus_process_object V_all ext_get_grows errno_of 3 msg_get_p bus_prop)) = [TGet 1; TGet 1].
Proof. vm_compute. split; [|split; reflexivity]. repeat constructor. Qed.

(** C6 witness: at "/a" the node callback registers "/b" and the
    dispatch restarts; in the second round the callback, stamped with the
    current counter, is skipped, and the method handler runs.  Each of
    them is invoked once. *)
Lemma bus_process_object_guarded_once_witness :
  bus_wf bus_cb_vt /\ trace bus_cb_vt = [] /\
  map n_path (nodes (snd (bus_process_object V_all ext_cb_grows errno_of 3 (call_msg "/a" "org.example.I" "Foo") bus_cb_vt))) =
    ["/b"%string; "/a"%string; "/"%string] /\
  trace (snd (bus_process_object V_all ext_cb_grows errno_of 3 (call_msg "/a" "org.example.I" "Foo") bus_cb_vt)) =
    [TCallback 0; TMethod 2] /\
  NoDup (guarded (trace (snd (bus_process_object V_all ext_cb_grows errno_of 3 (call_msg "/a" "org.example.I" "Foo") bus_cb_vt)))).
Proof.
  assert (W : bus_wf bus_cb_vt) by (vm_compute; repeat (constructor || lia || (intros ?; cbn in *; tauto))).
  split; [exact W|]. split; [reflexivity|]. split; [vm_compute; reflexivity|]. split; [vm_compute; reflexivity|].
  apply (bus_process_object_guarded_once V_all ext_cb_grows errno_of 3 (call_msg "/a" "org.example.I" "Foo") bus_cb_vt W).
  reflexivity.
Defined.

(** C9 witness: an object manager at "/a", where a vtable is registered. *)
Lemma process_get_managed_objects_empty_witness :
  n_vtables node_prop_om <> [] /\
  process_get_managed_objects V_all ext_quiet errno_of msg_gmo node_prop_om false (bus_prop_om, false) =
    (Go 0, snd (get_child_nodes V_all ext_quiet errno_of "/a" node_prop_om None (bus_prop_om, false))) /\
  sent (fst (snd (get_child_nodes V_all ext_quiet errno_of "/a" node_prop_om None (bus_prop_om, false)))) = sent bus_prop_om.
Proof.
  split; [discriminate|].
  apply (process_get_managed_objects_empty V_all ext_quiet errno_of msg_gmo node_prop_om false
           (bus_prop_om, false) _ 0 None); [reflexivity | vm_compute; reflexivity | vm_compute; reflexivity | lia].
Defined.



Lemma subsequence_nil_l {A} (l : list A) : subsequence [] l.
Proof. induction l as [|x l IH]; constructor; exact IH. Qed.

Lemma invoke_trace V ext t x s : trace (fst (snd (invoke V ext t x s))) = trace (fst s) ++ [t].
Proof. destruct (invoke_facts V ext t x s) as [[H _] _]. exact H. Qed.

Lemma bus_maybe_reply_error_trace m r e s : trace (fst (snd (bus_maybe_reply_error m r e s))) = trace (fst s).
Proof.
  destruct s as [b f]. unfold bus_maybe_reply_error, send.
  destruct (r <? 0); [|destruct e]; destruct (is_method_call_type m); reflexivity.
Qed.

(** C5 (amended): node callbacks are tried in reverse registration
    order.  Registering at an existing node puts the new record at the
    head of its list.  A run of the node's callbacks, for any user code
    and either value of [require_fallback], invokes records of its list
    in list order (it may skip records and stop early), so of two invoked
    callbacks the later-registered one is invoked first.  With user code
    that returns 0 and registers nothing, every callback of the list runs,
    in list order. *)
Theorem node_callbacks_reverse_order (V : validators) ext :
  (forall fb path cb ud b n,
     object_path_is_valid V path = true -> pid_changed b = false ->
     hashmap_get_node b path = Some n ->
     exists b', bus_add_object V fb path cb ud b = (Go 0, b') /\
       hashmap_get_node b' path = Some (with_callbacks (mkNodeCallback (next_id b) cb ud fb 0 :: n_callbacks n) n)) /\
  (forall m l rf s, exists ts,
     trace (fst (snd (node_callbacks_run V ext m l rf s))) = trace (fst s) ++ ts /\
     subsequence ts (map (fun c => TCallback (cb_id c)) l)) /\
  ((forall x b, er_ret (ext x b) = 0 /\ er_error (ext x b) = None /\ er_ops (ext x b) = []) ->
   forall m l b f,
     nodes_modified b = false ->
     Forall (fun c => cb_last_iteration c <> iteration_counter b) l ->
     trace (fst (snd (node_callbacks_run V ext m l false (b, f)))) =
       trace b ++ map (fun c => TCallback (cb_id c)) l).
Proof.
  split; [|split].
  - intros fb path cb ud b n Hv Hp Hn.
    eexists. split.
    + unfold bus_add_object, call, mbind, get, return_. rewrite Hv, Hp. cbn [negb].
      unfold bus_node_allocate. cbn [bus_node_allocate_aux]. unfold mbind, get. rewrite Hn.
      unfold mret, new_id, update_node, modify. reflexivity.
    + cbn -[node_update node_get]. unfold hashmap_get_node. cbn [nodes with_nodes with_modified with_next_id].
      rewrite (node_get_path _ _ _ Hn).
      rewrite node_get_update; [|reflexivity]. unfold hashmap_get_node in Hn. rewrite Hn. reflexivity.
  - intros m l. induction l as [|c l IH]; intros rf [b f].
    + exists []. split; [cbn; rewrite app_nil_r; reflexivity | constructor].
    + cbn [node_callbacks_run map]. rewrite mbind_get_bus_eq. cbn [fst].
      destruct (nodes_modified b).
      { exists []. split; [cbn; rewrite app_nil_r; reflexivity | apply subsequence_nil_l]. }
      destruct (rf && negb (cb_is_fallback c)).
      { destruct (IH rf (b, f)) as [ts [Ht Hs]]. exists ts. split; [exact Ht | apply subsequence_skip; exact Hs]. }
      rewrite mbind_set_found_eq. cbn [fst].
      destruct (Nat.eqb (cb_last_iteration c) (iteration_counter b)).
      { destruct (IH rf (b, true)) as [ts [Ht Hs]]. exists ts. split; [exact Ht | apply subsequence_skip; exact Hs]. }
      unfold stamp_callback. rewrite mbind_modify_bus_eq. cbn [fst snd].
      match goal with |- context [mbind (invoke V ext ?t ?x) ?k ?s0] =>
        pose proof (invoke_trace V ext t x s0) as Ti;
        destruct (invoke V ext t x s0) as [[e| | |] s2] eqn:Ei;
        [rewrite (mbind_go _ k _ _ _ Ei) | rewrite (mbind_ret _ k _ _ _ Ei)
        | rewrite (mbind_crash _ k _ _ Ei) | rewrite (mbind_diverge _ k _ _ Ei)];
        cbn [fst snd] in Ti
      end;
        [| exists [TCallback (cb_id c)]; split; [exact Ti | apply subsequence_take, subsequence_nil_l] ..].
      match goal with |- context [mbind (bus_maybe_reply_error ?mm ?rr ?ee0) ?k s2] =>
        pose proof (bus_maybe_reply_error_trace mm rr ee0 s2) as Tb;
        destruct (bus_maybe_reply_error mm rr ee0 s2) as [[r'| | |] s3] eqn:Eb;
        [rewrite (mbind_go _ k _ _ _ Eb) | rewrite (mbind_ret _ k _ _ _ Eb)
        | rewrite (mbind_crash _ k _ _ Eb) | rewrite (mbind_diverge _ k _ _ Eb)];
        cbn [fst snd] in Tb
      end;
        [| exists [TCallback (cb_id c)]; split; [cbn [fst snd]; rewrite Tb; exact Ti | apply subsequence_take, subsequence_nil_l] ..].
      destruct (negb (r' =? 0)).
      * exists [TCallback (cb_id c)]. split; [cbn [fst snd mret]; rewrite Tb; exact Ti | apply subsequence_take, subsequence_nil_l].
      * destruct (IH rf s3) as [ts [Ht Hs]]. exists (TCallback (cb_id c) :: ts).
        split; [rewrite Ht, Tb, Ti, <- app_assoc; reflexivity | apply subsequence_take; exact Hs].
  - intros Hq m l. induction l as [|c l IH]; intros b f Hm Hl.
    + cbn. rewrite app_nil_r. reflexivity.
    + inversion Hl as [|? ? Hc Hl']; subst.
      cbn [node_callbacks_run].
      cbv [mbind get_bus set_found stamp_callback modify_bus invoke lift mret bus_maybe_reply_error fst snd].
      rewrite Hm. cbn [andb].
      destruct (Nat.eqb (cb_last_iteration c) (iteration_counter b)) eqn:E;
        [apply Nat.eqb_eq in E; contradiction|].
      match goal with |- context [ext ?x ?bb] =>
        destruct (Hq x bb) as (H1 & H2 & H3); destruct (ext x bb) as [r0 er0 ops0 v0 ch0]; cbn in H1, H2, H3; subst
      end.
      cbn [er_ops run_reg_ops]. cbv [mret]. cbn.
      match goal with |- context [node_callbacks_run V ext m l false (?bb, true)] =>
        pose proof (IH bb true Hm Hl') as IH'; destruct (node_callbacks_run V ext m l false (bb, true)) as [r1 [b1 f1]]
      end.
      cbn in IH' |- *. rewrite IH'. rewrite <- app_assoc. reflexivity.
Qed.

Lemma node_callbacks_reverse_order_witness :
  trace (fst (snd (node_callbacks_run V_all ext_quiet (call_msg "/a" "org.example.I" "Foo")
     [mkNodeCallback 1 2 0 false 0; mkNodeCallback 0 1 0 false 0] false (with_modified false bus_two, false)))) =
  [TCallback 1; TCallback 0].
Proof.
  rewrite (proj2 (proj2 (node_callbacks_reverse_order V_all ext_quiet)) (fun _ _ => conj eq_refl (conj eq_refl eq_refl))
             (call_msg "/a" "org.example.I" "Foo") _ (with_modified false bus_two) false eq_refl).
  - reflexivity.
  - repeat constructor; discriminate.
Defined.

(** C2 (amended): with valid arguments and a non-empty name list,
    [sd_bus_emit_properties_changed_strv] either returns -ENOENT after
    its restart loop ran to its end, every emission attempt having
    returned 0 and nothing having been sent; or it returns the value
    [r <> 0] of one emission attempt (the exact path, or a prefix with
    [require_fallback]), reached from the initial state through attempts
    that all returned 0, and it stops there: that attempt's final state
    is the call's.  Then either [r < 0] and nothing was sent during the
    whole call, or [r = 1] and exactly one PropertiesChanged signal was
    sent during the whole call.  A negative attempt value, such as the
    -ENOENT of a name that a resolving vtable does not index, is returned
    at once. *)
Theorem emit_strv_first_nonzero V ext ee fuel path iface names s r s' :
  object_path_is_valid V path = true -> interface_name_is_valid V iface = true ->
  is_open (fst s) = true -> pid_changed (fst s) = false -> names <> [] ->
  sd_bus_emit_properties_changed_strv_dm V ext ee fuel path iface names s = (Go r, s') ->
  (r = - ENOENT /\ emit_rounds V ext ee fuel path iface names s = (Go 0, s') /\
   emit_zero_attempts V ext ee path iface names s s' /\ sent (fst s') = sent (fst s)) \/
  (r <> 0 /\ exists prefix rf s0,
     (prefix = path /\ rf = false \/ In prefix (object_path_prefixes path) /\ rf = true) /\
     emit_zero_attempts V ext ee path iface names s s0 /\
     emit_properties_changed_on_interface V ext ee prefix path iface rf names s0 = (Go r, s') /\
     ((r < 0 /\ sent (fst s') = sent (fst s)) \/
      (r = 1 /\ exists ch inv, sent (fst s') = sent (fst s) ++ [OPropertiesChanged path iface ch inv]))).
Proof.
  intros Hp Hi Ho Hc Hn E. unfold sd_bus_emit_properties_changed_strv_dm, call in E.
  rewrite Hp, Hi in E. cbn [negb] in E. rewrite mbind_get_bus_eq, Ho, Hc in E. cbn [negb] in E.
  destruct names as [|nm names']; [congruence|].
  unfold mbind, mret in E. cbn beta iota in E.
  destruct (emit_rounds V ext ee fuel path iface (nm :: names') s) as [[a|x| |] s1] eqn:ER;
    try discriminate.
  - left. injection E as <- <-.
    pose proof (emit_rounds_Go _ _ _ _ _ _ _ _ _ _ ER) as Ha. subst a.
    pose proof (emit_rounds_zero _ _ _ _ _ _ _ _ _ ER) as Z.
    split; [reflexivity|]. split; [first [exact ER | reflexivity]|]. split; [exact Z | exact (emit_zero_attempts_sent _ _ _ _ _ _ _ _ Z)].
  - right. injection E as <- <-.
    destruct (emit_rounds_first _ _ _ _ _ _ _ _ _ _ ER) as [Hr [p [rf [s0 [Hk [Z0 Ha]]]]]].
    split; [exact Hr|]. exists p, rf, s0. split; [exact Hk|]. split; [exact Z0|]. split; [exact Ha|].
    pose proof (emit_zero_attempts_sent _ _ _ _ _ _ _ _ Z0) as S0.
    destruct (emit_attempt_outcome V ext ee _ _ _ _ _ _ _ _ Ha) as [[Hle S] | [H1 [ch [inv S]]]].
    + left. split; [lia | rewrite S, S0; reflexivity].
    + right. split; [exact H1|]. exists ch, inv. rewrite S, S0. reflexivity.
Qed.

(** C2 counterexample: "Q" is indexed only by the fallback vtable at
    "/".  Alone, that vtable emits the signal.  With an exact vtable of
    the same interface at "/a", the exact attempt matches, fails with
    -ENOENT, and the fallback is never tried. *)
Lemma emit_strv_enoent_counterexample :
  fst (sd_bus_emit_properties_changed_strv V_all ext_quiet errno_of 3 "/a" "org.example.I" ["Q"%string] bus_fallback_q) = Go 1 /\
  sent (snd (sd_bus_emit_properties_changed_strv V_all ext_quiet errno_of 3 "/a" "org.example.I" ["Q"%string] bus_fallback_q)) =
    [OPropertiesChanged "/a" "org.example.I" [("Q"%string, 0)] []] /\
  fst (sd_bus_emit_properties_changed_strv V_all ext_quiet errno_of 3 "/a" "org.example.I" ["Q"%string] bus_exact_p) = Go (- ENOENT) /\
  sent (snd (sd_bus_emit_properties_changed_strv V_all ext_quiet errno_of 3 "/a" "org.example.I" ["Q"%string] bus_exact_p)) = [].
Proof. vm_compute. repeat split; reflexivity. Qed.

(** C2 witness: the failing emission of the counterexample. *)
Lemma emit_strv_first_nonzero_witness :
  let s' := snd (sd_bus_emit_properties_changed_strv_dm V_all ext_quiet errno_of 3 "/a" "org.example.I" ["Q"%string] (bus_exact_p, false)) in
  (- ENOENT = - ENOENT /\ emit_rounds V_all ext_quiet errno_of 3 "/a" "org.example.I" ["Q"%string] (bus_exact_p, false) = (Go 0, s') /\
   emit_zero_attempts V_all ext_quiet errno_of "/a" "org.example.I" ["Q"%string] (bus_exact_p, false) s' /\
   sent (fst s') = sent (fst (bus_exact_p, false))) \/
  (- ENOENT <> 0 /\ exists prefix rf s0,
     (prefix = "/a"%string /\ rf = false \/ In prefix (object_path_prefixes "/a") /\ rf = true) /\
     emit_zero_attempts V_all ext_quiet errno_of "/a" "org.example.I" ["Q"%string] (bus_exact_p, false) s0 /\
     emit_properties_changed_on_interface V_all ext_quiet errno_of prefix "/a" "org.example.I" rf ["Q"%string] s0 = (Go (- ENOENT), s') /\
     ((- ENOENT < 0 /\ sent (fst s') = sent (fst (bus_exact_p, false))) \/
      (- ENOENT = 1 /\ exists ch inv, sent (fst s') = sent (fst (bus_exact_p, false)) ++ [OPropertiesChanged "/a" "org.example.I" ch inv]))).
Proof.
  cbv zeta.
  apply (emit_strv_first_nonzero V_all ext_quiet errno_of 3 "/a" "org.example.I" ["Q"%string] (bus_exact_p, false));
    [reflexivity | reflexivity | vm_compute; reflexivity | vm_compute; reflexivity | discriminate | vm_compute; reflexivity].
Defined.

(** C7 counterexample: "N" lacks EMITS_CHANGE.  Alone it gives -EDOM,
    but an unregistered name before it gives -ENOENT. *)
Lemma emit_enoent_before_edom_counterexample :
  fst (sd_bus_emit_properties_changed_strv V_all ext_quiet errno_of 3 "/a" "org.example.I" ["X"%string; "N"%string] bus_three) = Go (- ENOENT) /\
  fst (sd_bus_emit_properties_changed_strv V_all ext_quiet errno_of 3 "/a" "org.example.I" ["N"%string] bus_three) = Go (- EDOM).
Proof. vm_compute. split; reflexivity. Qed.

(** C7 witness: ["P"; "R"] is emitted, ["P"; "N"] gives -EDOM and
    ["P"; "X"; "N"] gives -ENOENT, at "/a" of [bus_three]. *)
Lemma emit_on_interface_flags_witness :
  let val := fun q => vtable_property_convert_userdata (vm_vtable (look_three q)) (nv_userdata vtable_three) in
  (fst (sd_bus_emit_properties_changed_strv V_all ext_quiet errno_of 3 "/a" "org.example.I" ["P"%string; "R"%string] bus_three) = Go 1 /\
   sent (snd (sd_bus_emit_properties_changed_strv V_all ext_quiet errno_of 3 "/a" "org.example.I" ["P"%string; "R"%string] bus_three)) =
     sent bus_three ++ [OPropertiesChanged "/a" "org.example.I"
                  (map (fun q => (q, val q)) (filter (fun q => negb (prop_inv_only (look_three q))) ["P"%string; "R"%string]))
                  (filter (fun q => prop_inv_only (look_three q)) ["P"%string; "R"%string])]) /\
  (fst (sd_bus_emit_properties_changed_strv V_all ext_quiet errno_of 3 "/a" "org.example.I" ["P"%string; "N"%string] bus_three) = Go (- EDOM) /\
   sent (snd (sd_bus_emit_properties_changed_strv V_all ext_quiet errno_of 3 "/a" "org.example.I" ["P"%string; "N"%string] bus_three)) = sent bus_three) /\
  (fst (sd_bus_emit_properties_changed_strv V_all ext_quiet errno_of 3 "/a" "org.example.I" ["P"%string; "X"%string; "N"%string] bus_three) = Go (- ENOENT) /\
   sent (snd (sd_bus_emit_properties_changed_strv V_all ext_quiet errno_of 3 "/a" "org.example.I" ["P"%string; "X"%string; "N"%string] bus_three)) = sent bus_three).
Proof.
  intros val.
  assert (HP : prop_emitted V_all ext_quiet (vtable_properties bus_three) "/a" "/a" "org.example.I" vtable_three
                 (nv_userdata vtable_three) look_three val "P").
  { split; [split; [|split] | split]; try (vm_compute; reflexivity).
    intros _. split; vm_compute; reflexivity. }
  assert (HR : prop_emitted V_all ext_quiet (vtable_properties bus_three) "/a" "/a" "org.example.I" vtable_three
                 (nv_userdata vtable_three) look_three val "R").
  { split; [split; [|split] | split]; try (vm_compute; reflexivity).
    vm_compute. discriminate. }
  split; [|split].
  - apply (proj1 (emit_on_interface_flags V_all ext_quiet errno_of 3 "/a" "org.example.I" node_three [] vtable_three []
             (nv_userdata vtable_three) look_three val ["P"%string; "R"%string] bus_three
             eq_refl eq_refl ltac:(vm_compute; reflexivity) ltac:(vm_compute; reflexivity) ltac:(discriminate)
             ltac:(vm_compute; reflexivity) ltac:(vm_compute; reflexivity) (Forall_nil _) eq_refl
             ltac:(vm_compute; reflexivity))).
    + constructor; [exact HP | constructor; [exact HR | constructor]].
    + discriminate.
  - apply (proj1 (proj2 (emit_on_interface_flags V_all ext_quiet errno_of 3 "/a" "org.example.I" node_three [] vtable_three []
             (nv_userdata vtable_three) look_three val ["P"%string; "N"%string] bus_three
             eq_refl eq_refl ltac:(vm_compute; reflexivity) ltac:(vm_compute; reflexivity) ltac:(discriminate)
             ltac:(vm_compute; reflexivity) ltac:(vm_compute; reflexivity) (Forall_nil _) eq_refl
             ltac:(vm_compute; reflexivity))) ["P"%string] "N"%string []).
    + reflexivity.
    + constructor; [exact HP | constructor].
    + split; [|split]; vm_compute; reflexivity.
    + vm_compute; reflexivity.
  - apply (proj2 (proj2 (emit_on_interface_flags V_all ext_quiet errno_of 3 "/a" "org.example.I" node_three [] vtable_three []
             (nv_userdata vtable_three) look_three val ["P"%string; "X"%string; "N"%string] bus_three
             eq_refl eq_refl ltac:(vm_compute; reflexivity) ltac:(vm_compute; reflexivity) ltac:(discriminate)
             ltac:(vm_compute; reflexivity) ltac:(vm_compute; reflexivity) (Forall_nil _) eq_refl
             ltac:(vm_compute; reflexivity))) ["P"%string] "X"%string ["N"%string]).
    + reflexivity.
    + constructor; [exact HP | constructor].
    + vm_compute; reflexivity.
    + vm_compute; reflexivity.
Defined.


(** C8 counterexample: a non-fallback vtable with an invalid property,
    at a node that has a fallback vtable, fails with -EPROTOTYPE. *)
Lemma add_object_vtable_eprototype_counterexample :
  property_entry_rejected V_all vt_bad_prop = true /\ In vt_bad_prop (vtable_body vt_with_bad) /\
  fst (add_object_vtable_internal V_all "/" "org.example.J" vt_with_bad false None 0 bus_fallback_q) = Go (- EPROTOTYPE).
Proof. vm_compute. split; [reflexivity | split; [left; reflexivity | reflexivity]]. Qed.

(** * Further properties of the registration and emission code *)



Lemma streq_true a b : streq a b = true <-> a = b.
Proof. unfold streq. apply String.eqb_eq. Qed.

Lemma streq_false a b : streq a b = false <-> a <> b.
Proof. unfold streq. apply String.eqb_neq. Qed.

Lemma streq_refl a : streq a a = true.
Proof. apply streq_true; reflexivity. Qed.

Lemma node_get_none ns p : node_get ns p = None -> Forall (fun n => streq (n_path n) p = false) ns.
Proof.
  induction ns as [|n ns IH]; cbn; intros H; constructor.
  - destruct (streq (n_path n) p); [discriminate | reflexivity].
  - destruct (streq (n_path n) p); [discriminate | auto].
Qed.

Lemma node_update_id p f ns : node_get ns p = None -> node_update p f ns = ns.
Proof.
  intros H. apply node_get_none in H. unfold node_update.
  induction H as [|n ns Hn _ IH]; cbn; [reflexivity|]. rewrite Hn, IH. reflexivity.
Qed.

Lemma node_remove_id p ns : node_get ns p = None -> node_remove p ns = ns.
Proof.
  intros H. apply node_get_none in H. unfold node_remove.
  induction H as [|n ns Hn _ IH]; cbn; [reflexivity|]. rewrite Hn. cbn. rewrite IH. reflexivity.
Qed.

Lemma node_get_some ns p n : node_get ns p = Some n -> n_path n = p.
Proof.
  induction ns as [|x ns IH]; cbn; [discriminate|].
  destruct (streq (n_path x) p) eqn:E; [|auto].
  intros [= <-]. apply streq_true; assumption.
Qed.

Lemma strrchr_slash_aux_some s i j : exists k, strrchr_slash_aux s i (Some j) = Some k.
Proof.
  revert i j. induction s as [|c s IH]; cbn; intros i j; [eauto|].
  destruct (Ascii.eqb c "/"%char); apply IH.
Qed.

Lemma strrchr_slash_root rest : exists k, strrchr_slash (String "/" rest) = Some k.
Proof. unfold strrchr_slash. cbn. apply strrchr_slash_aux_some. Qed.

Lemma alloc_parent_prefix rest i :
  substring 0 (Z.to_nat (Z.max 1 (0 - Z.of_nat i))) (String "/" rest) = "/"%string.
Proof.
  replace (Z.to_nat (Z.max 1 (0 - Z.of_nat i))) with 1%nat by lia. destruct rest; reflexivity.
Qed.

Lemma bus_node_allocate_aux_root fuel b :
  bus_node_allocate_aux (S fuel) "/" b =
  (Go "/"%string, match hashmap_get_node b "/" with Some _ => b | None => with_nodes (root_node :: nodes b) b end).
Proof.
  cbn - [hashmap_get_node]. unfold mbind, get, mret, modify.
  destruct (hashmap_get_node b "/") as [n|] eqn:E; cbn - [hashmap_get_node].
  - apply node_get_some in E. rewrite E. reflexivity.
  - reflexivity.
Qed.

Lemma bus_node_allocate_spec path rest b :
  path = String "/" rest ->
  bus_node_allocate path b =
  (Go path, match hashmap_get_node b path with Some _ => b | None => alloc_fresh path b end).
Proof.
  intros ->. unfold bus_node_allocate.
  destruct (streq (String "/" rest) "/") eqn:Er.
  - apply streq_true in Er. rewrite Er.
    replace (S (String.length "/")) with (S 1%nat) by reflexivity.
    rewrite bus_node_allocate_aux_root.
    destruct (hashmap_get_node b "/"); reflexivity.
  - remember (String.length (String "/" rest)) as f eqn:Hf.
    cbn [bus_node_allocate_aux]. rewrite mbind_get_eq. cbv beta.
    destruct (hashmap_get_node b (String "/" rest)) as [n|] eqn:E.
    + unfold mret. apply node_get_some in E. rewrite E. reflexivity.
    + rewrite Er.
      destruct (strrchr_slash_root rest) as [k Hk]. rewrite Hk.
      rewrite alloc_parent_prefix.
      destruct f as [|f']; [discriminate|].
      unfold mbind. rewrite bus_node_allocate_aux_root.
      unfold alloc_fresh, with_root. rewrite Er. cbn.
      destruct (hashmap_get_node b "/"); reflexivity.
Qed.

Lemma node_get_in ns p n : node_get ns p = Some n -> In n ns.
Proof.
  induction ns as [|x ns IH]; cbn; [discriminate|].
  destruct (streq (n_path x) p); [intros [= <-]; auto | auto].
Qed.

Lemma node_get_update_any p f ns q :
  (forall n, n_path (f n) = n_path n) ->
  node_get (node_update p f ns) q =
  match node_get ns q with Some n => Some (if streq (n_path n) p then f n else n) | None => None end.
Proof.
  intros Hf. unfold node_update. induction ns as [|n ns IH]; cbn; [reflexivity|].
  destruct (streq (n_path n) p) eqn:Ep; cbn; rewrite ?Hf;
    destruct (streq (n_path n) q) eqn:Eq; rewrite ?Ep; auto.
Qed.

Lemma node_update_compose p g h ns :
  Forall (fun n => streq (n_path n) p = true -> h (g n) = n) ns ->
  (forall n, n_path (g n) = n_path n) ->
  node_update p h (node_update p g ns) = ns.
Proof.
  intros H Hg. unfold node_update. rewrite map_map.
  induction H as [|n ns Hn _ IH]; cbn; [reflexivity|].
  f_equal; [|exact IH].
  destruct (streq (n_path n) p) eqn:E; [rewrite Hg, E; auto | rewrite E; reflexivity].
Qed.

Lemma with_nodes_eta b : with_nodes (nodes b) b = b.
Proof. destruct b; reflexivity. Qed.

Lemma bus_node_gc_aux_nonempty fuel path b n :
  hashmap_get_node b path = Some n -> node_is_empty n = false ->
  bus_node_gc_aux (S fuel) (Some path) b = (Go tt, b).
Proof.
  intros E He. cbn [bus_node_gc_aux]. rewrite mbind_get_eq. rewrite E, He. reflexivity.
Qed.

Lemma node_remove_cons_hit p n ns : streq (n_path n) p = true -> node_remove p (n :: ns) = node_remove p ns.
Proof. intros H. unfold node_remove. cbn. rewrite H. reflexivity. Qed.

Lemma node_remove_cons_miss p n ns : streq (n_path n) p = false -> node_remove p (n :: ns) = n :: node_remove p ns.
Proof. intros H. unfold node_remove. cbn. rewrite H. reflexivity. Qed.

(** A garbage collection after an allocation removes what the allocation
    created, on a bus whose nodes are all in use. *)

Lemma bus_node_gc_undoes_allocate path rest b x :
  path = String "/" rest ->
  Forall (fun n => node_is_empty n = false) (nodes b) ->
  nodes x = nodes (snd (bus_node_allocate path b)) ->
  bus_node_gc path x = (Go tt, with_nodes (nodes b) x).
Proof.
  intros Hp Hne Hx.
  rewrite (bus_node_allocate_spec path rest b Hp) in Hx. cbn [snd] in Hx.
  unfold bus_node_gc.
  destruct (hashmap_get_node b path) as [n|] eqn:E.
  - rewrite <- Hx, with_nodes_eta.
    apply (bus_node_gc_aux_nonempty _ _ _ n).
    + unfold hashmap_get_node. rewrite Hx. exact E.
    + rewrite Forall_forall in Hne. apply Hne. eapply node_get_in; exact E.
  - unfold alloc_fresh in Hx.
    destruct (streq path "/") eqn:Er.
    + (* the root itself *)
      apply streq_true in Er. subst path. injection Er as ->.
      cbn in Hx. rewrite Hx. cbn [length].
      cbn [bus_node_gc_aux]. rewrite mbind_get_eq.
      unfold hashmap_get_node at 1. rewrite Hx. cbn -[node_remove].
      rewrite Hx, node_remove_cons_hit by reflexivity.
      rewrite node_remove_id by exact E. reflexivity.
    + unfold with_root in Hx.
      destruct (hashmap_get_node b "/") as [r|] eqn:Eroot.
      * cbn [nodes with_nodes] in Hx.
        assert (Hnb : node_get (node_update "/" (fun pn => with_child (path :: n_child pn) pn) (nodes b)) path = None).
        { rewrite node_get_update_any by reflexivity. unfold hashmap_get_node in E. rewrite E. reflexivity. }
        unfold node_update in Hx. cbn [map] in Hx. cbn [n_path] in Hx. rewrite Er in Hx.
        fold (node_update "/" (fun pn => with_child (path :: n_child pn) pn) (nodes b)) in Hx.
        rewrite Hx. cbn [length].
        cbn [bus_node_gc_aux]. rewrite mbind_get_eq.
        unfold hashmap_get_node at 1. rewrite Hx. cbn [node_get n_path]. rewrite streq_refl.
        cbn - [node_remove node_update bus_node_gc_aux].
        rewrite Hx, node_remove_cons_hit by apply streq_refl.
        rewrite node_remove_id by exact Hnb.
        rewrite node_update_compose.
        2:{ apply Forall_forall. intros n _ _. cbn. rewrite streq_refl. destruct n; reflexivity. }
        2:{ reflexivity. }
        unfold hashmap_get_node in Eroot. rewrite Eroot.
        assert (Hr : node_is_empty r = false).
        { rewrite Forall_forall in Hne. apply Hne. eapply node_get_in; exact Eroot. }
        rewrite Hr. reflexivity.
      * cbn [nodes with_nodes] in Hx.
        unfold node_update in Hx. cbn [map n_path root_node] in Hx. rewrite Er in Hx.
        rewrite streq_refl in Hx.
        fold (node_update "/" (fun pn => with_child (path :: n_child pn) pn) (nodes b)) in Hx.
        rewrite (node_update_id "/") in Hx by exact Eroot.
        rewrite Hx. cbn [length].
        cbn [bus_node_gc_aux]. rewrite mbind_get_eq.
        unfold hashmap_get_node at 1. rewrite Hx. cbn [node_get n_path]. rewrite streq_refl.
        cbn - [node_remove node_update bus_node_gc_aux].
        assert (Hrp : streq "/" path = false).
        { apply streq_false. intros H. apply streq_false in Er. auto. }
        rewrite Hx, node_remove_cons_hit by apply streq_refl.
        rewrite node_remove_cons_miss by exact Hrp.
        rewrite node_remove_id by exact E.
        unfold node_update at 1 2. cbn [map n_path with_child root_node]. rewrite streq_refl.
        cbn [n_child with_child remove_first root_node]. rewrite streq_refl.
        change (map _ (nodes b)) with (node_update "/" (fun pn => with_child (remove_first (streq path) (n_child pn)) pn) (nodes b)).
        rewrite (node_update_id "/") by exact Eroot.
        cbn - [node_remove node_update bus_node_gc_aux].
        rewrite node_remove_cons_hit by reflexivity.
        rewrite node_remove_id by exact Eroot.
        reflexivity.
Qed.

Lemma nodes_with_nodes ns b : nodes (with_nodes ns b) = ns.
Proof. reflexivity. Qed.

Lemma alloc_fields path rest b :
  path = String "/" rest ->
  snd (bus_node_allocate path b) = with_nodes (nodes (snd (bus_node_allocate path b))) b.
Proof.
  intros Hp. rewrite (bus_node_allocate_spec path rest b Hp). cbn [snd].
  destruct (hashmap_get_node b path); [symmetry; apply with_nodes_eta|].
  unfold alloc_fresh, with_root.
  destruct (streq path "/"); [reflexivity|]. destruct (hashmap_get_node b "/"); reflexivity.
Qed.

Lemma alloc_node path rest b :
  path = String "/" rest ->
  exists n, hashmap_get_node (snd (bus_node_allocate path b)) path = Some n.
Proof.
  intros Hp. rewrite (bus_node_allocate_spec path rest b Hp). cbn [snd].
  destruct (hashmap_get_node b path) as [n|] eqn:E; [eauto|].
  unfold alloc_fresh, with_root, hashmap_get_node.
  destruct (streq path "/") eqn:Er.
  - apply streq_true in Er. rewrite Er. cbn. eexists; reflexivity.
  - rewrite nodes_with_nodes, node_get_update_any by reflexivity. cbn. rewrite streq_refl. eexists; reflexivity.
Qed.

Lemma callback_matches_refl f cb ud i k : callback_matches f cb ud (mkNodeCallback i cb ud f k) = true.
Proof. unfold callback_matches. cbn. rewrite !Nat.eqb_refl. destruct f; reflexivity. Qed.

Lemma bus_add_object_spec V f path rest cb ud b :
  object_path_is_valid V path = true -> pid_changed b = false -> path = String "/" rest ->
  bus_add_object V f path cb ud b =
  (Go 0, let a := snd (bus_node_allocate path b) in
         with_modified true
           (with_nodes (node_update path (fun nd =>
              with_callbacks (mkNodeCallback (next_id b) cb ud f 0 :: n_callbacks nd) nd) (nodes a))
              (with_next_id (S (next_id b)) a))).
Proof.
  intros Hv Hpid Hp.
  unfold bus_add_object, call. rewrite mbind_get_eq. rewrite Hv, Hpid. cbn [negb].
  rewrite (mbind_go _ _ _ path (snd (bus_node_allocate path b))).
  2:{ rewrite (bus_node_allocate_spec path rest b Hp). reflexivity. }
  rewrite (alloc_fields path rest b Hp). reflexivity.
Qed.

Lemma mbind_modify_eq {S B} (g : S -> S) (k : unit -> ST S B) s : mbind (modify g) k s = k tt (g s).
Proof. reflexivity. Qed.

Lemma alloc_get path rest b :
  path = String "/" rest ->
  exists n, node_get (nodes (snd (bus_node_allocate path b))) path = Some n /\ n_path n = path.
Proof.
  intros Hp. destruct (alloc_node path rest b Hp) as [n Hn]. exists n. split; [exact Hn|].
  exact (node_get_some _ _ _ Hn).
Qed.

(** X2: on a bus whose nodes are all in use, registering an object
    callback on a valid path and then removing it with the same arguments
    returns 0, then 1, and gives back the original bus, except that the
    modified flag is set and one id has been used. *)
Theorem bus_object_round_trip V f path rest cb ud b :
  object_path_is_valid V path = true -> pid_changed b = false -> path = String "/" rest ->
  Forall (fun n => node_is_empty n = false) (nodes b) ->
  fst (bus_add_object V f path cb ud b) = Go 0 /\
  bus_remove_object V f path cb ud (snd (bus_add_object V f path cb ud b)) =
  (Go 1, with_modified true (with_next_id (S (next_id b)) b)).
Proof.
  intros Hv Hpid Hp Hne.
  rewrite (bus_add_object_spec V f path rest cb ud b Hv Hpid Hp). cbn [fst snd]. split; [reflexivity|].
  destruct (alloc_get path rest b Hp) as [n0 [Hn0 Hpn0]].
  pose proof (alloc_fields path rest b Hp) as Ha.
  set (ns := nodes (snd (bus_node_allocate path b))) in *. rewrite Ha.
  set (C := mkNodeCallback (next_id b) cb ud f 0).
  assert (HC : callback_matches f cb ud C = true) by apply callback_matches_refl.
  set (g := fun nd : node => with_callbacks (C :: n_callbacks nd) nd).
  set (b1 := with_modified true (with_nodes (node_update path g ns) (with_next_id (S (next_id b)) (with_nodes ns b)))).
  unfold bus_remove_object, call. rewrite mbind_get_eq. rewrite Hv. cbn [negb].
  change (pid_changed b1) with (pid_changed b). rewrite Hpid.
  change (hashmap_get_node b1 path) with (node_get (node_update path g ns) path).
  rewrite node_get_update_any by reflexivity. rewrite Hn0, Hpn0, streq_refl.
  unfold g at 1. cbn [n_callbacks with_callbacks find]. rewrite HC.
  unfold update_node. rewrite mbind_modify_eq.
  change (nodes b1) with (node_update path g ns).
  rewrite (node_update_compose path g).
  2:{ apply Forall_forall. intros n _ _. unfold g. cbn. rewrite HC. destruct n; reflexivity. }
  2:{ reflexivity. }
  rewrite (mbind_go _ _ _ tt (with_nodes (nodes b) (with_nodes ns b1))).
  2:{ apply (bus_node_gc_undoes_allocate path rest b); auto. }
  rewrite mbind_modify_eq. unfold mret.
  destruct b; reflexivity.
Qed.

Lemma sd_bus_add_node_enumerator_spec V path rest cb ud b :
  object_path_is_valid V path = true -> pid_changed b = false -> path = String "/" rest ->
  sd_bus_add_node_enumerator V path cb ud b =
  (Go 0, let a := snd (bus_node_allocate path b) in
         with_modified true
           (with_nodes (node_update path (fun nd =>
              with_enumerators (mkNodeEnumerator cb ud :: n_enumerators nd) nd) (nodes a)) a)).
Proof.
  intros Hv Hpid Hp.
  unfold sd_bus_add_node_enumerator, call. rewrite mbind_get_eq. rewrite Hv, Hpid. cbn [negb].
  rewrite (mbind_go _ _ _ path (snd (bus_node_allocate path b))).
  2:{ rewrite (bus_node_allocate_spec path rest b Hp). reflexivity. }
  reflexivity.
Qed.

Lemma enumerator_matches_refl cb ud : enumerator_matches cb ud (mkNodeEnumerator cb ud) = true.
Proof. unfold enumerator_matches. cbn. rewrite !Nat.eqb_refl. reflexivity. Qed.

(** X3: on a bus whose nodes are all in use, adding a node enumerator
    and then removing it with the same arguments returns 0, then 1, and
    gives back the original bus with only the modified flag set. *)
Theorem node_enumerator_round_trip V path rest cb ud b :
  object_path_is_valid V path = true -> pid_changed b = false -> path = String "/" rest ->
  Forall (fun n => node_is_empty n = false) (nodes b) ->
  fst (sd_bus_add_node_enumerator V path cb ud b) = Go 0 /\
  sd_bus_remove_node_enumerator V path cb ud (snd (sd_bus_add_node_enumerator V path cb ud b)) =
  (Go 1, with_modified true b).
Proof.
  intros Hv Hpid Hp Hne.
  rewrite (sd_bus_add_node_enumerator_spec V path rest cb ud b Hv Hpid Hp). cbn [fst snd]. split; [reflexivity|].
  destruct (alloc_get path rest b Hp) as [n0 [Hn0 Hpn0]].
  pose proof (alloc_fields path rest b Hp) as Ha.
  set (ns := nodes (snd (bus_node_allocate path b))) in *. rewrite Ha.
  set (g := fun nd : node => with_enumerators (mkNodeEnumerator cb ud :: n_enumerators nd) nd).
  set (b1 := with_modified true (with_nodes (node_update path g ns) (with_nodes ns b))).
  unfold sd_bus_remove_node_enumerator, call. rewrite mbind_get_eq. rewrite Hv. cbn [negb].
  change (pid_changed b1) with (pid_changed b). rewrite Hpid.
  change (hashmap_get_node b1 path) with (node_get (node_update path g ns) path).
  rewrite node_get_update_any by reflexivity. rewrite Hn0, Hpn0, streq_refl.
  unfold g at 1. cbn [n_enumerators with_enumerators find]. rewrite enumerator_matches_refl.
  unfold update_node. rewrite mbind_modify_eq.
  change (nodes b1) with (node_update path g ns).
  rewrite (node_update_compose path g).
  2:{ apply Forall_forall. intros n _ _. unfold g. cbn. rewrite enumerator_matches_refl. destruct n; reflexivity. }
  2:{ reflexivity. }
  rewrite (mbind_go _ _ _ tt (with_nodes (nodes b) (with_nodes ns b1))).
  2:{ apply (bus_node_gc_undoes_allocate path rest b); auto. }
  rewrite mbind_modify_eq. unfold mret.
  destruct b; reflexivity.
Qed.

Lemma sd_bus_add_object_manager_spec V path rest b :
  object_path_is_valid V path = true -> pid_changed b = false -> path = String "/" rest ->
  sd_bus_add_object_manager V path b =
  (Go 0, let a := snd (bus_node_allocate path b) in
         with_modified true (with_nodes (node_update path (with_object_manager true) (nodes a)) a)).
Proof.
  intros Hv Hpid Hp.
  unfold sd_bus_add_object_manager, call. rewrite mbind_get_eq. rewrite Hv, Hpid. cbn [negb].
  rewrite (mbind_go _ _ _ path (snd (bus_node_allocate path b))).
  2:{ rewrite (bus_node_allocate_spec path rest b Hp). reflexivity. }
  reflexivity.
Qed.

Lemma alloc_om path rest b :
  path = String "/" rest ->
  Forall (fun n => streq (n_path n) path = true -> n_object_manager n = false) (nodes b) ->
  Forall (fun n => streq (n_path n) path = true -> n_object_manager n = false) (nodes (snd (bus_node_allocate path b))).
Proof.
  intros Hp H. rewrite (bus_node_allocate_spec path rest b Hp). cbn [snd].
  destruct (hashmap_get_node b path); [exact H|].
  unfold alloc_fresh, with_root.
  destruct (streq path "/"); [cbn; constructor; [reflexivity | exact H]|].
  rewrite nodes_with_nodes. unfold node_update. apply Forall_map.
  assert (Hr : Forall (fun n => streq (n_path n) path = true -> n_object_manager n = false)
                 (nodes match hashmap_get_node b "/" with Some _ => b | None => with_nodes (root_node :: nodes b) b end)).
  { destruct (hashmap_get_node b "/"); [exact H | constructor; [reflexivity | exact H]]. }
  constructor.
  - cbn. intros _. destruct (String.eqb path "/"); reflexivity.
  - eapply Forall_impl; [|exact Hr]. intros n Hn.
    destruct (streq (n_path n) "/"); [destruct n; exact Hn | exact Hn].
Qed.

(** X4: on a bus whose nodes are all in use and where the path has no
    object manager yet, adding an object manager and then removing it
    returns 0, then 1, and gives back the original bus with only the
    modified flag set. *)
Theorem object_manager_round_trip V path rest b :
  object_path_is_valid V path = true -> pid_changed b = false -> path = String "/" rest ->
  Forall (fun n => node_is_empty n = false) (nodes b) ->
  Forall (fun n => streq (n_path n) path = true -> n_object_manager n = false) (nodes b) ->
  fst (sd_bus_add_object_manager V path b) = Go 0 /\
  sd_bus_remove_object_manager V path (snd (sd_bus_add_object_manager V path b)) =
  (Go 1, with_modified true b).
Proof.
  intros Hv Hpid Hp Hne Hom.
  rewrite (sd_bus_add_object_manager_spec V path rest b Hv Hpid Hp). cbn [fst snd]. split; [reflexivity|].
  destruct (alloc_get path rest b Hp) as [n0 [Hn0 Hpn0]].
  pose proof (alloc_fields path rest b Hp) as Ha.
  pose proof (alloc_om path rest b Hp Hom) as Hom'.
  set (ns := nodes (snd (bus_node_allocate path b))) in *. rewrite Ha.
  set (b1 := with_modified true (with_nodes (node_update path (with_object_manager true) ns) (with_nodes ns b))).
  unfold sd_bus_remove_object_manager, call. rewrite mbind_get_eq. rewrite Hv. cbn [negb].
  change (pid_changed b1) with (pid_changed b). rewrite Hpid.
  change (hashmap_get_node b1 path) with (node_get (node_update path (with_object_manager true) ns) path).
  rewrite node_get_update_any by reflexivity. rewrite Hn0, Hpn0, streq_refl.
  cbn [n_object_manager with_object_manager negb].
  unfold update_node. rewrite mbind_modify_eq, mbind_modify_eq.
  change (nodes b1) with (node_update path (with_object_manager true) ns).
  rewrite (node_update_compose path (with_object_manager true)).
  2:{ eapply Forall_impl; [|exact Hom']. intros n Hn E. specialize (Hn E).
      destruct n; cbn in *; subst; reflexivity. }
  2:{ reflexivity. }
  rewrite (mbind_go _ _ _ tt (with_nodes (nodes b) (with_modified true (with_nodes ns b1)))).
  2:{ apply (bus_node_gc_undoes_allocate path rest b); auto. }
  unfold mret. destruct b; reflexivity.
Qed.

(** X5: every registration and unregistration entry point refuses an
    invalid object path with -EINVAL and leaves the bus unchanged. *)
Theorem reg_op_invalid_path V o b :
  object_path_is_valid V (reg_op_path o) = false ->
  run_reg_op V o b = (Go (- EINVAL), b).
Proof.
  intros H. destruct o; cbn [reg_op_path] in H; cbn [run_reg_op];
    unfold bus_add_object, bus_remove_object, add_object_vtable_internal, remove_object_vtable_internal,
      sd_bus_add_node_enumerator, sd_bus_remove_node_enumerator, sd_bus_add_object_manager,
      sd_bus_remove_object_manager, call;
    rewrite mbind_get_eq, H; reflexivity.
Qed.

(** X6: on a bus used from a forked child, every registration and
    unregistration entry point fails with -EINVAL or -ECHILD and leaves
    the bus unchanged. *)
Theorem reg_op_forked V o b :
  pid_changed b = true ->
  exists r, run_reg_op V o b = (Go r, b) /\ (r = - EINVAL \/ r = - ECHILD).
Proof.
  intros H. destruct o; cbn [run_reg_op];
    unfold bus_add_object, bus_remove_object, add_object_vtable_internal, remove_object_vtable_internal,
      sd_bus_add_node_enumerator, sd_bus_remove_node_enumerator, sd_bus_add_object_manager,
      sd_bus_remove_object_manager, call;
    rewrite mbind_get_eq, H;
    repeat match goal with |- context [if negb ?c then _ else _] => destruct (negb c) end;
    cbn; eauto.
Qed.

Lemma scan_vtables_conflict fallback interface vtable l e :
  Exists (vtable_conflict fallback interface vtable) l ->
  exists r, scan_vtables fallback interface vtable l e = inl r /\ (r = - EPROTOTYPE \/ r = - EEXIST) /\
            (Forall (fun i => nv_is_fallback i = fallback) l -> r = - EEXIST).
Proof.
  revert e. induction l as [|i l IH]; intros e H; [inversion H|].
  cbn [scan_vtables].
  destruct (Bool.eqb (nv_is_fallback i) fallback) eqn:Ef; cbn [negb].
  - apply Bool.eqb_prop in Ef.
    assert (Hl : Forall (fun i => nv_is_fallback i = fallback) (i :: l) <-> Forall (fun i => nv_is_fallback i = fallback) l).
    { split; [intros Hf; inversion Hf; assumption | intros Hf; constructor; assumption]. }
    destruct (streq (nv_interface i) interface) eqn:Ei.
    + destruct (Nat.eqb (vt_ptr (nv_vtable i)) (vt_ptr vtable)) eqn:Ep.
      * exists (- EEXIST). auto.
      * inversion H as [? ? Hc|? ? Hc]; subst.
        { destruct Hc as [Hc|[_ Hc]]; [contradiction|]. apply Nat.eqb_neq in Ep. contradiction. }
        destruct (IH (Some (nv_id i)) Hc) as [r [E1 [E2 E3]]]. exists r. rewrite Hl. auto.
    + inversion H as [? ? Hc|? ? Hc]; subst.
      { destruct Hc as [Hc|[Hc _]]; [contradiction|]. apply streq_false in Ei. contradiction. }
      destruct (IH e Hc) as [r [E1 [E2 E3]]]. exists r. rewrite Hl. auto.
  - exists (- EPROTOTYPE). split; [reflexivity|]. split; [auto|].
    intros Hf. inversion Hf; subst. rewrite Bool.eqb_reflx in Ef. discriminate.
Qed.

(** X7: adding a vtable to an existing node fails and leaves the bus
    unchanged when a vtable already there mixes fallback and non-fallback
    registration, or is the same vtable for the same interface. The error
    is -EPROTOTYPE or -EEXIST, and it is -EEXIST when every vtable there has
    the same fallback setting. *)
Theorem add_object_vtable_conflict V path rest interface vtable fallback find_cb userdata b n :
  object_path_is_valid V path = true -> interface_name_is_valid V interface = true ->
  vtable_type_eqb (type (vtable_start vtable)) _SD_BUS_VTABLE_START = true ->
  Z.eqb (element_size (vtable_start vtable)) sizeof_sd_bus_vtable = true ->
  pid_changed b = false -> reserved_interface interface = false ->
  path = String "/" rest -> hashmap_get_node b path = Some n ->
  Exists (vtable_conflict fallback interface vtable) (n_vtables n) ->
  exists r, add_object_vtable_internal V path interface vtable fallback find_cb userdata b = (Go r, b) /\
            (r = - EPROTOTYPE \/ r = - EEXIST) /\
            (Forall (fun i => nv_is_fallback i = fallback) (n_vtables n) -> r = - EEXIST).
Proof.
  intros Hv Hi Hs Hz Hpid Hr Hp Hn Hc.
  destruct (scan_vtables_conflict fallback interface vtable (n_vtables n) None Hc) as [r [Es [E1 E2]]].
  exists r. split; [|auto].
  unfold add_object_vtable_internal, call. rewrite mbind_get_eq.
  rewrite Hv, Hi, Hs, Hz, Hpid, Hr. cbn [negb].
  rewrite (mbind_go _ _ _ path b).
  2:{ rewrite (bus_node_allocate_spec path rest b Hp), Hn. reflexivity. }
  rewrite mbind_get_eq. rewrite Hn, Es.
  unfold bus_node_gc. rewrite (mbind_go _ _ _ tt b).
  2:{ apply (bus_node_gc_aux_nonempty _ _ _ n Hn). unfold node_is_empty.
      destruct (n_vtables n); [inversion Hc|]. destruct (n_child n), (n_callbacks n); reflexivity. }
  reflexivity.
Qed.

Lemma add_members_method_collision V np c v l b m :
  type v = _SD_BUS_VTABLE_METHOD -> method_entry_invalid V v = false ->
  hashmap_get_member (vtable_methods b) np (nv_interface c) (member v) = Some m ->
  add_members V np c (v :: l) b = (Go (- EEXIST), with_next_id (S (next_id b)) b).
Proof.
  intros Ht Hm Hget. cbn [add_members]. rewrite Ht, Hm.
  unfold mbind, new_id, get, mret, hashmap_put_member.
  cbn - [hashmap_get_member]. rewrite Hget. reflexivity.
Qed.

(** X8: when a new vtable's only entry is a METHOD whose (path, interface,
    member) key is already indexed by another vtable, the registration
    fails with -EEXIST. The cleanup still removes that key from the method
    index, so the other vtable's method is no longer indexed. *)
Theorem add_object_vtable_collision_drops_other V path rest interface vtable fallback find_cb userdata b n existing v m :
  object_path_is_valid V path = true -> interface_name_is_valid V interface = true ->
  vtable_type_eqb (type (vtable_start vtable)) _SD_BUS_VTABLE_START = true ->
  Z.eqb (element_size (vtable_start vtable)) sizeof_sd_bus_vtable = true ->
  pid_changed b = false -> reserved_interface interface = false ->
  path = String "/" rest -> hashmap_get_node b path = Some n -> n_vtables n <> [] ->
  scan_vtables fallback interface vtable (n_vtables n) None = inr existing ->
  vtable_body vtable = [v] -> type v = _SD_BUS_VTABLE_METHOD -> method_entry_invalid V v = false ->
  hashmap_get_member (vtable_methods b) path interface (member v) = Some m ->
  add_object_vtable_internal V path interface vtable fallback find_cb userdata b =
  (Go (- EEXIST),
   with_methods (hashmap_remove_member (vtable_methods b) path interface (member v))
     (with_next_id (S (S (next_id b))) b)).
Proof.
  intros Hv Hi Hs Hz Hpid Hr Hp Hn Hne Hscan Hbody Ht Hm Hget.
  destruct vtable as [ptr [|s ents]]; [discriminate Hs|].
  cbn in Hs, Hbody.
  unfold add_object_vtable_internal, call. rewrite mbind_get_eq.
  rewrite Hv, Hi, Hz, Hpid, Hr. cbn [vtable_start vt_entries]. rewrite Hs. cbn [negb].
  rewrite (mbind_go _ _ _ path b).
  2:{ rewrite (bus_node_allocate_spec path rest b Hp), Hn. reflexivity. }
  rewrite mbind_get_eq. rewrite Hn, Hscan.
  unfold new_id at 1. rewrite (mbind_go _ _ _ (next_id b) (with_next_id (S (next_id b)) b)) by reflexivity.
  assert (Hs' : type s = _SD_BUS_VTABLE_START) by (destruct (type s); try discriminate; reflexivity).
  rewrite (mbind_go _ _ _ (- EEXIST) (with_next_id (S (S (next_id b))) b)).
  2:{ unfold vtable_body. cbn [vt_entries]. rewrite Hbody.
      rewrite (add_members_method_collision V _ _ v [] _ m Ht Hm); [reflexivity | exact Hget]. }
  replace (- EEXIST <? 0) with true by reflexivity.
  unfold free_node_vtable. rewrite mbind_modify_eq. cbn [nv_vtable vt_entries until_end nv_interface].
  rewrite Hs'. cbn [vtable_type_eqb negb]. rewrite Hbody. cbn [fold_left]. rewrite Hs', Ht.
  unfold bus_node_gc. rewrite (mbind_go _ _ _ tt (with_methods
          (hashmap_remove_member (vtable_methods b) path interface (member v))
          (with_next_id (S (S (next_id b))) b))).
  2:{ apply (bus_node_gc_aux_nonempty _ _ _ n); [exact Hn|]. unfold node_is_empty.
      destruct (n_vtables n); [contradiction|]. destruct (n_child n), (n_callbacks n); reflexivity. }
  reflexivity.
Qed.

Section InterfacesAdded.

Variable V : validators.

Variable ext : ext_call -> bus -> ext_result.

Variable ee : string -> Z.

Ltac ia_dp :=
  match goal with
  | |- dpres_at _ _ _ (call _) => apply dpres_call
  | |- dpres_at _ _ _ (mbind get_bus _) => apply dpres_bind_get_bus; cbv beta
  | |- dpres_at _ _ _ (mret _) => apply dpres_mret
  | |- dpres_at _ _ _ (return_ _) => apply dpres_return
  | |- dpres_at _ _ _ diverge => apply dpres_diverge
  | |- dpres_at _ _ _ get_bus => apply dpres_get_bus
  | |- dpres_at _ _ _ (modify_bus (with_modified _)) => apply dpres_with_modified
  | |- dpres_at _ _ _ (node_vtable_get_userdata _ _ _ _ _ _) => apply dpres_node_vtable_get_userdata
  | |- dpres_at _ _ _ (vtable_append_all_properties _ _ _ _ _ _ _) => apply dpres_vtable_append_all_properties
  | |- dpres_at _ _ _ (mbind _ _) => apply dpres_bind_at; [|intros ? ? ?; cbv beta]
  | |- dpres_at _ _ _ (if ?c then _ else _) => destruct c
  | |- dpres_at _ _ _ (match ?x with _ => _ end) => destruct x
  | |- dpres_at _ _ _ (let _ := _ in _) => cbv zeta
  end.

Ltac ia_hstep H E r s' :=
  match type of H with
  | context [mbind ?m ?k ?s] =>
      destruct (m s) as [[r|r| |] s'] eqn:E;
      [rewrite (mbind_go m k s r s' E) in H | rewrite (mbind_ret m k s r s' E) in H
      | rewrite (mbind_crash m k s s' E) in H | rewrite (mbind_diverge m k s s' E) in H]
  end.

Lemma dpres_interfaces_added_vtables s path i rf l fi props e :
  dpres_at true true s (interfaces_added_vtables V ext ee path i rf l fi props e).
Proof.
  revert s fi props e. induction l as [|c l IH]; intros s fi props e; cbn [interfaces_added_vtables];
    repeat (ia_dp || apply IH).
Qed.

Lemma dpres_interfaces_added_append_one_prefix s prefix path i rf :
  dpres_at true true s (interfaces_added_append_one_prefix V ext ee prefix path i rf).
Proof. unfold interfaces_added_append_one_prefix. repeat (ia_dp || apply dpres_interfaces_added_vtables). Qed.

Lemma dpres_interfaces_added_prefixes s path i ps :
  dpres_at true true s (interfaces_added_prefixes V ext ee path i ps).
Proof.
  revert s. induction ps as [|p ps IH]; intros s; cbn [interfaces_added_prefixes];
    repeat (ia_dp || apply IH || apply dpres_interfaces_added_append_one_prefix).
Qed.

Lemma dpres_interfaces_added_append_one s path i :
  dpres_at true true s (interfaces_added_append_one V ext ee path i).
Proof.
  unfold interfaces_added_append_one.
  repeat (ia_dp || apply dpres_interfaces_added_prefixes || apply dpres_interfaces_added_append_one_prefix).
Qed.

Lemma dpres_interfaces_added_loop s path l acc :
  dpres_at true true s (interfaces_added_loop V ext ee path l acc).
Proof.
  revert s acc. induction l as [|i l IH]; intros s acc; cbn [interfaces_added_loop];
    repeat (ia_dp || apply IH || apply dpres_interfaces_added_append_one).
Qed.

Lemma dpres_interfaces_added_rounds s fuel path l :
  dpres_at true true s (interfaces_added_rounds V ext ee fuel path l).
Proof.
  revert s. induction fuel as [|fuel IH]; intros s; cbn [interfaces_added_rounds];
    repeat (ia_dp || apply IH || apply dpres_interfaces_added_loop).
Qed.

(** X9: sd_bus_emit_interfaces_added_strv either sends nothing, or
    returns the value of sd_bus_send after appending exactly one
    InterfacesAdded signal for the path. *)
Theorem interfaces_added_sends_at_most_one fuel path interfaces b r b' :
  sd_bus_emit_interfaces_added_strv V ext ee fuel path interfaces b = (Go r, b') ->
  sent b' = sent b \/
  (r = sd_bus_send_ret /\ exists objs, sent b' = sent b ++ [OInterfacesAdded path objs]).
Proof.
  unfold sd_bus_emit_interfaces_added_strv.
  destruct (sd_bus_emit_interfaces_added_strv_dm V ext ee fuel path interfaces (b, false)) as [r0 [b1 f1]] eqn:E.
  intros H. injection H as -> <-.
  unfold sd_bus_emit_interfaces_added_strv_dm, call in E.
  destruct (negb (object_path_is_valid V path)); [injection E as _ <- _; left; reflexivity|].
  rewrite mbind_get_bus_eq in E. cbn [fst] in E.
  destruct (negb (is_open b)); [injection E as _ <- _; left; reflexivity|].
  destruct (pid_changed b); [injection E as _ <- _; left; reflexivity|].
  destruct interfaces as [|i l].
  { injection E as _ <- _. left. reflexivity. }
  rewrite (mbind_go _ _ _ tt (b, false)) in E by reflexivity.
  ia_hstep E E1 objs s1.
  - pose proof (dpres_sent _ _ _ _ _ (dpres_interfaces_added_rounds _ _ _ _) E1) as S1.
    destruct s1 as [b2 f2]. cbn in E. injection E as <- <- _. right. split; [reflexivity|].
    exists objs. cbn in S1 |- *. rewrite S1. reflexivity.
  - pose proof (dpres_sent _ _ _ _ _ (dpres_interfaces_added_rounds _ _ _ _) E1) as S1.
    destruct s1 as [b2 f2]. cbn in E. injection E as _ <- _. left. exact S1.
  - discriminate E.
  - discriminate E.
Qed.

Lemma interfaces_added_vtables_none path i rf l fi props e s :
  Forall (fun c => nv_interface c <> i) l ->
  interfaces_added_vtables V ext ee path i rf l fi props e s = (Go (inr (fi, props)), s).
Proof.
  intros H. induction H as [|c l Hc _ IH]; cbn [interfaces_added_vtables]; [reflexivity|].
  destruct (rf && negb (nv_is_fallback c)); [exact IH|].
  apply streq_false in Hc. rewrite Hc. exact IH.
Qed.

Lemma interfaces_added_append_one_prefix_none prefix path i rf s :
  no_vtable_for (fst s) i prefix ->
  interfaces_added_append_one_prefix V ext ee prefix path i rf s = (Go (0, []), s).
Proof.
  unfold no_vtable_for, interfaces_added_append_one_prefix. intros H. rewrite mbind_get_bus_eq.
  destruct (hashmap_get_node (fst s) prefix) as [n|]; [|reflexivity].
  rewrite (mbind_go _ _ _ _ s (interfaces_added_vtables_none _ _ _ _ _ _ _ s H)). reflexivity.
Qed.

Lemma interfaces_added_prefixes_none path i ps s :
  nodes_modified (fst s) = false -> Forall (no_vtable_for (fst s) i) ps ->
  interfaces_added_prefixes V ext ee path i ps s = (Go (- ENOENT, []), s).
Proof.
  intros Hm H. induction H as [|p ps Hp _ IH]; cbn [interfaces_added_prefixes]; [reflexivity|].
  rewrite (mbind_go _ _ _ _ s (interfaces_added_append_one_prefix_none p path i true s Hp)).
  cbn [Z.eqb negb]. rewrite mbind_get_bus_eq, Hm. exact IH.
Qed.

Lemma interfaces_added_append_one_none path i s :
  nodes_modified (fst s) = false -> Forall (no_vtable_for (fst s) i) (path :: object_path_prefixes path) ->
  interfaces_added_append_one V ext ee path i s = (Go (- ENOENT, []), s).
Proof.
  intros Hm H. inversion H as [|? ? Hp Hps]; subst.
  unfold interfaces_added_append_one.
  rewrite (mbind_go _ _ _ _ s (interfaces_added_append_one_prefix_none path path i false s Hp)).
  cbn [Z.eqb negb]. rewrite mbind_get_bus_eq, Hm.
  exact (interfaces_added_prefixes_none path i _ s Hm Hps).
Qed.

(** X10: on an open, unforked bus, InterfacesAdded for an interface that
    no vtable registers at the path or any of its prefixes fails with
    -ENOENT. It sends nothing and only clears the modified flag. *)
Theorem interfaces_added_unregistered fuel path i l b :
  object_path_is_valid V path = true -> is_open b = true -> pid_changed b = false ->
  interface_name_is_valid V i = true ->
  Forall (no_vtable_for b i) (path :: object_path_prefixes path) ->
  sd_bus_emit_interfaces_added_strv V ext ee (S fuel) path (i :: l) b = (Go (- ENOENT), with_modified false b).
Proof.
  intros Hv Ho Hc Hi H.
  unfold sd_bus_emit_interfaces_added_strv, sd_bus_emit_interfaces_added_strv_dm, call.
  rewrite Hv. cbn [negb]. rewrite mbind_get_bus_eq. cbn [fst]. rewrite Ho, Hc. cbn [negb].
  rewrite (mbind_go _ _ _ tt (b, false)) by reflexivity.
  rewrite (mbind_ret _ _ _ (- ENOENT) (with_modified false b, false)); [reflexivity|].
  cbn [interfaces_added_rounds]. rewrite mbind_modify_bus_eq. cbn [fst snd].
  rewrite (mbind_ret _ _ _ (- ENOENT) (with_modified false b, false)); [reflexivity|].
  cbn [interfaces_added_loop]. rewrite Hi. cbn [negb].
  rewrite (mbind_go _ _ _ _ _ (interfaces_added_append_one_none path i (with_modified false b, false) eq_refl H)).
  reflexivity.
Qed.

End InterfacesAdded.

(** X1: allocating an absent object path other than the root (with its
    leading slash) succeeds; it creates an empty node whose parent is always
    the root "/" (the tree stays flat), adds the path at the head of the
    root's children (creating the root if needed), and leaves every other
    node and every non-node field of the bus unchanged. *)
Theorem bus_node_allocate_flat path rest b :
  path = String "/" rest -> path <> "/"%string -> hashmap_get_node b path = None ->
  fst (bus_node_allocate path b) = Go path /\
  hashmap_get_node (snd (bus_node_allocate path b)) path = Some (mkNode path (Some "/"%string) [] [] [] [] false) /\
  (exists r, hashmap_get_node (snd (bus_node_allocate path b)) "/" = Some r /\
     n_child r = path :: match hashmap_get_node b "/" with Some r0 => n_child r0 | None => [] end) /\
  (forall q, q <> path -> q <> "/"%string ->
     hashmap_get_node (snd (bus_node_allocate path b)) q = hashmap_get_node b q) /\
  snd (bus_node_allocate path b) = with_nodes (nodes (snd (bus_node_allocate path b))) b.
Proof.
  intros Hp Hr Hn.
  pose proof (alloc_fields path rest b Hp) as Ha.
  split; [rewrite (bus_node_allocate_spec path rest b Hp); reflexivity|].
  rewrite (bus_node_allocate_spec path rest b Hp), Hn. cbn [snd].
  unfold alloc_fresh. pose proof Hr as Hr'. apply streq_false in Hr'. rewrite Hr'.
  set (g := fun pn : node => with_child (path :: n_child pn) pn).
  set (nn := mkNode path (Some "/"%string) [] [] [] [] false).
  assert (L : forall q, hashmap_get_node (with_nodes (node_update "/" g (nn :: nodes (with_root b))) (with_root b)) q =
            match node_get (nn :: nodes (with_root b)) q with
            | Some n => Some (if streq (n_path n) "/" then g n else n) | None => None end).
  { intros q. unfold hashmap_get_node. rewrite nodes_with_nodes. apply node_get_update_any. reflexivity. }
  split; [|split; [|split; [|unfold with_root; destruct (hashmap_get_node b "/"); reflexivity]]]; rewrite ?L.
  - cbn [node_get]. change (n_path nn) with path. rewrite streq_refl. cbv iota beta.
    change (n_path nn) with path. rewrite Hr'. reflexivity.
  - cbn [node_get]. change (n_path nn) with path. rewrite Hr'.
    unfold with_root, hashmap_get_node. destruct (node_get (nodes b) "/") as [r0|] eqn:E0; cbn.
    + rewrite E0. rewrite (node_get_some _ _ _ E0), streq_refl. eexists; split; reflexivity.
    + eexists; split; reflexivity.
  - intros q Hq1 Hq2. rewrite L. cbn [node_get]. change (n_path nn) with path.
    rewrite (proj2 (streq_false path q) (fun e => Hq1 (eq_sym e))).
    assert (Hq : node_get (nodes (with_root b)) q = node_get (nodes b) q).
    { unfold with_root, hashmap_get_node. destruct (node_get (nodes b) "/"); [reflexivity|].
      rewrite nodes_with_nodes. cbn [node_get]. change (n_path root_node) with "/"%string.
      rewrite (proj2 (streq_false "/" q) (fun e => Hq2 (eq_sym e))). reflexivity. }
    rewrite Hq. unfold hashmap_get_node.
    destruct (node_get (nodes b) q) as [n|] eqn:E; [|reflexivity].
    rewrite (node_get_some _ _ _ E), (proj2 (streq_false q "/") Hq2). reflexivity.
Qed.

Lemma existsb_streq_in k s : existsb (streq k) s = true <-> In k s.
Proof.
  rewrite existsb_exists. split.
  - intros [x [Hx E]]. apply streq_true in E. subst. exact Hx.
  - intros H. exists k. split; [exact H | apply streq_refl].
Qed.

Lemma add_children_skip V prefix ks r s : r < 0 -> add_children V prefix ks r s = (r, s).
Proof.
  intros Hr. induction ks as [|k ks IH]; cbn [add_children]; [reflexivity|].
  replace (r <? 0) with true by (symmetry; apply Z.ltb_lt; exact Hr). exact IH.
Qed.

(** X11: the child filter of add_enumerated_to_set keeps the set free of
    duplicates and only appends valid paths that lie under the prefix and
    were enumerated. An invalid enumerated path makes the result -EINVAL.
    When every path is valid, the result is non-negative and the set gains
    exactly the enumerated paths under the prefix. *)
Theorem add_children_spec V prefix ks r s :
  NoDup s -> 0 <= r ->
  let '(r', s') := add_children V prefix ks r s in
  NoDup s' /\
  (exists t, s' = s ++ t /\
     Forall (fun k => object_path_is_valid V k = true /\ object_path_startswith k prefix = true /\ In k ks) t) /\
  (Exists (fun k => object_path_is_valid V k = false) ks -> r' = - EINVAL) /\
  (Forall (fun k => object_path_is_valid V k = true) ks ->
     0 <= r' /\ forall k, In k s' <-> In k s \/ (In k ks /\ object_path_startswith k prefix = true)).
Proof.
  revert r s. induction ks as [|k ks IH]; intros r s Hs Hr; cbn [add_children].
  - split; [exact Hs|]. split; [exists []; rewrite app_nil_r; split; [reflexivity | constructor]|].
    split; [intros H; inversion H|]. intros _. split; [exact Hr|]. intros q. cbn. tauto.
  - replace (r <? 0) with false by (symmetry; apply Z.ltb_ge; exact Hr).
    destruct (object_path_is_valid V k) eqn:Hv; cbn [negb].
    + destruct (object_path_startswith k prefix) eqn:Hst; cbn [negb].
      * unfold set_consume. destruct (existsb (streq k) s) eqn:Ein.
        -- replace (- EEXIST =? - EEXIST) with true by reflexivity.
           specialize (IH 0 s Hs (Z.le_refl 0)).
           destruct (add_children V prefix ks 0 s) as [r' s'].
           destruct IH as (N & (t & Et & Ft) & I1 & I2).
           split; [exact N|]. split.
           { exists t. split; [exact Et|]. eapply Forall_impl; [|exact Ft]. cbn. intuition. }
           split.
           { intros H. inversion H as [? ? Hk|? ? Hk]; subst; [rewrite Hv in Hk; discriminate|]. exact (I1 Hk). }
           intros Hall. inversion Hall as [|? ? _ Hall']; subst.
           destruct (I2 Hall') as [P Q]. split; [exact P|]. intros q. rewrite Q.
           apply existsb_streq_in in Ein. cbn. intuition (subst; auto).
        -- replace (1 =? - EEXIST) with false by reflexivity.
           assert (Hs' : NoDup (s ++ [k])).
           { apply NoDup_app; [exact Hs | repeat constructor; auto |].
             intros x Hx Hx'. destruct Hx' as [<-|[]]. apply (proj2 (existsb_streq_in k s)) in Hx.
             rewrite Hx in Ein. discriminate. }
           specialize (IH 1 (s ++ [k]) Hs' ltac:(lia)).
           destruct (add_children V prefix ks 1 (s ++ [k])) as [r' s'].
           destruct IH as (N & (t & Et & Ft) & I1 & I2).
           split; [exact N|]. split.
           { exists (k :: t). split; [rewrite Et, <- app_assoc; reflexivity|].
             constructor; [cbn; auto|]. eapply Forall_impl; [|exact Ft]. cbn. intuition. }
           split.
           { intros H. inversion H as [? ? Hk|? ? Hk]; subst; [rewrite Hv in Hk; discriminate|]. exact (I1 Hk). }
           intros Hall. inversion Hall as [|? ? _ Hall']; subst.
           destruct (I2 Hall') as [P Q]. split; [exact P|]. intros q. rewrite Q, in_app_iff. cbn.
           intuition (subst; auto).
      * specialize (IH r s Hs Hr).
        destruct (add_children V prefix ks r s) as [r' s'].
        destruct IH as (N & (t & Et & Ft) & I1 & I2).
        split; [exact N|]. split.
        { exists t. split; [exact Et|]. eapply Forall_impl; [|exact Ft]. cbn. intuition. }
        split.
        { intros H. inversion H as [? ? Hk|? ? Hk]; subst; [rewrite Hv in Hk; discriminate|]. exact (I1 Hk). }
        intros Hall. inversion Hall as [|? ? _ Hall']; subst.
        destruct (I2 Hall') as [P Q]. split; [exact P|]. intros q. rewrite Q. cbn.
        intuition (subst; auto). rewrite Hst in *. discriminate.
    + rewrite (add_children_skip V prefix ks (- EINVAL) s) by (unfold EINVAL; lia).
      split; [exact Hs|]. split; [exists []; rewrite app_nil_r; split; [reflexivity | constructor]|].
      split; [reflexivity|]. intros Hall. inversion Hall; subst. congruence.
Qed.

Lemma get_member_cons_miss l m p i k :
  key_eqb p i k m = false -> hashmap_get_member (m :: l) p i k = hashmap_get_member l p i k.
Proof. intros H. unfold hashmap_get_member. cbn. rewrite H. reflexivity. Qed.

Lemma key_eqb_true p i k m : key_eqb p i k m = true <-> vm_path m = p /\ vm_interface m = i /\ vm_member m = k.
Proof.
  unfold key_eqb. rewrite !andb_true_iff, !streq_true. tauto.
Qed.

Lemma get_member_cons_none l m p i k :
  hashmap_get_member (m :: l) p i k = None -> key_eqb p i k m = false /\ hashmap_get_member l p i k = None.
Proof. unfold hashmap_get_member. cbn. destruct (key_eqb p i k m); [discriminate | auto]. Qed.

Lemma block_ok_step old nm m np c v es :
  hashmap_get_member old np (nv_interface c) (member v) = None ->
  vm_path m = np -> vm_interface m = nv_interface c -> vm_member m = member v -> vm_parent m = c -> vm_vtable m = v ->
  block_ok (m :: old) nm np c es ->
  block_ok old (nm ++ [m]) np c (v :: es).
Proof.
  intros Hg Hp Hi Hm Hc Hv (B1 & B2 & B3 & B4). split; [|split; [|split]].
  - rewrite map_app, B1. cbn. rewrite Hv. reflexivity.
  - apply Forall_app. split; [exact B2|]. constructor; [|constructor]. rewrite Hv. auto.
  - cbn. constructor; [|exact B3]. intros Hin. apply in_map_iff in Hin as [v' [E Hin]].
    rewrite Forall_forall in B4. destruct (get_member_cons_none _ _ _ _ _ (B4 v' Hin)) as [K _].
    assert (K' : key_eqb np (nv_interface c) (member v') m = true) by (apply key_eqb_true; rewrite E; auto).
    congruence.
  - constructor; [exact Hg|]. eapply Forall_impl; [|exact B4]. intros v' H.
    exact (proj2 (get_member_cons_none _ _ _ _ _ H)).
Qed.

Lemma index_update_compose m1 p1 k1 m2 p2 k2 b :
  index_update m2 p2 k2 (index_update m1 p1 k1 b) = index_update m2 p2 k2 b.
Proof. destruct b; reflexivity. Qed.

Lemma method_block_go np c v b r b1 :
  (mid <- new_id ;; b <- get ;;
   match hashmap_put_member (vtable_methods b)
           (mkVtableMember mid np (nv_interface c) (member v) c v 0) with
   | inl r => mret r
   | inr l => put (with_methods l b) ;;; mret 0
   end) b = (Go r, b1) ->
  r < 0 \/
  (r = 0 /\ hashmap_get_member (vtable_methods b) np (nv_interface c) (member v) = None /\
   b1 = index_update (mkVtableMember (next_id b) np (nv_interface c) (member v) c v 0 :: vtable_methods b)
                     (vtable_properties b) (S (next_id b)) b).
Proof.
  unfold mbind, new_id, get, hashmap_put_member, mret, put. cbn - [hashmap_get_member].
  destruct (hashmap_get_member (vtable_methods b) np (nv_interface c) (member v)) eqn:G.
  - intros E. injection E as <- _. left. unfold EEXIST. lia.
  - intros E. injection E as <- <-. right. split; [reflexivity|]. split; [reflexivity|]. destruct b; reflexivity.
Qed.

Lemma add_property_member_go V np c v b r b1 :
  add_property_member V np c v b = (Go r, b1) ->
  r < 0 \/
  (r = 0 /\ hashmap_get_member (vtable_properties b) np (nv_interface c) (member v) = None /\
   b1 = index_update (vtable_methods b)
                     (mkVtableMember (next_id b) np (nv_interface c) (member v) c v 0 :: vtable_properties b)
                     (S (next_id b)) b).
Proof.
  unfold add_property_member. destruct (property_entry_invalid V v).
  - intros E. injection E as <- _. left. unfold EINVAL. lia.
  - unfold mbind, new_id, get, hashmap_put_member, mret, put. cbn - [hashmap_get_member].
    destruct (hashmap_get_member (vtable_properties b) np (nv_interface c) (member v)) eqn:G.
    + intros E. injection E as <- _. left. unfold EEXIST. lia.
    + intros E. injection E as <- <-. right. split; [reflexivity|]. split; [reflexivity|]. destruct b; reflexivity.
Qed.

Lemma block_ok_nil old np c : block_ok old [] np c [].
Proof. repeat split; constructor. Qed.

Lemma add_members_ok V np c l b b' :
  add_members V np c l b = (Go 0, b') ->
  exists nm npr k,
    b' = index_update (nm ++ vtable_methods b) (npr ++ vtable_properties b) k b /\
    block_ok (vtable_methods b) nm np c (filter is_method l) /\
    block_ok (vtable_properties b) npr np c (filter is_property l).
Proof.
  revert b. induction l as [|v l IH]; intros b E.
  - cbn in E. injection E as <-. exists [], [], (next_id b). split; [destruct b; reflexivity|].
    split; apply block_ok_nil.
  - cbn [add_members] in E. apply mbind_Go_inv in E as [r0 [b1 [E0 E]]].
    destruct (r0 <? 0) eqn:Hr.
    { injection E as E _. subst r0. discriminate Hr. }
    apply Z.ltb_ge in Hr.
    destruct (IH b1 E) as (nm & npr & k & Eb' & Bm & Bp).
    assert (Hneg : forall x, x < 0 -> r0 = x -> False) by (intros; lia).
    assert (Einv : mret (S:=bus) (- EINVAL) b = (Go r0, b1) -> False).
    { intros X. injection X as X _. apply (Hneg (- EINVAL)); [unfold EINVAL; lia | auto]. }
    destruct (type v) eqn:Ht.
    + exfalso. exact (Einv E0).
    + exfalso. exact (Einv E0).
    + destruct (method_entry_invalid V v); [exfalso; exact (Einv E0)|].
      destruct (method_block_go np c v b r0 b1 E0) as [X | (-> & G & Eb1)]; [lia|].
      subst b1. cbn [vtable_methods vtable_properties index_update with_methods with_properties with_next_id] in *.
      exists (nm ++ [mkVtableMember (next_id b) np (nv_interface c) (member v) c v 0]), npr, k.
      split; [rewrite Eb', index_update_compose, <- app_assoc; reflexivity|].
      unfold is_method at 1, is_property at 1. cbn [filter]. rewrite Ht. split; [|exact Bp].
      apply block_ok_step; auto.
    + destruct (signal_entry_invalid V v); [exfalso; exact (Einv E0)|].
      injection E0 as <- <-. exists nm, npr, k. split; [exact Eb'|].
      unfold is_method at 1, is_property at 1. cbn [filter]. rewrite Ht. auto.
    + destruct (add_property_member_go V np c v b r0 b1 E0) as [X | (-> & G & Eb1)]; [lia|].
      subst b1. cbn [vtable_methods vtable_properties index_update with_methods with_properties with_next_id] in *.
      exists nm, (npr ++ [mkVtableMember (next_id b) np (nv_interface c) (member v) c v 0]), k.
      split; [rewrite Eb', index_update_compose, <- app_assoc; reflexivity|].
      unfold is_method at 1, is_property at 1. cbn [filter]. rewrite Ht. split; [exact Bm|].
      apply block_ok_step; auto.
    + destruct (writable_entry_invalid V v); [exfalso; exact (Einv E0)|].
      destruct (add_property_member_go V np c v b r0 b1 E0) as [X | (-> & G & Eb1)]; [lia|].
      subst b1. cbn [vtable_methods vtable_properties index_update with_methods with_properties with_next_id] in *.
      exists nm, (npr ++ [mkVtableMember (next_id b) np (nv_interface c) (member v) c v 0]), k.
      split; [rewrite Eb', index_update_compose, <- app_assoc; reflexivity|].
      unfold is_method at 1, is_property at 1. cbn [filter]. rewrite Ht. split; [exact Bm|].
      apply block_ok_step; auto.
Qed.

Lemma add_members_sign V np c l b x b' : add_members V np c l b = (Go x, b') -> x = 0 \/ x < 0.
Proof.
  revert b. induction l as [|v l IH]; intros b E; cbn [add_members] in E.
  - injection E as <- _. auto.
  - apply mbind_Go_inv in E as [r0 [b1 [_ E]]]. destruct (r0 <? 0) eqn:Hr.
    + injection E as <- _. apply Z.ltb_lt in Hr. auto.
    + exact (IH b1 E).
Qed.

Lemma call_go_inv {S} (m : ST S Z) s r s' :
  call m s = (Go r, s') -> m s = (Go r, s') \/ m s = (Ret r, s').
Proof. unfold call. destruct (m s) as [[x|x| |] s1]; intros E; injection E as <- <- || discriminate E; auto. Qed.

Ltac go_hstep H E r s' :=
  match type of H with
  | context [mbind ?m ?k ?s] =>
      destruct (m s) as [[r|r| |] s'] eqn:E;
      [rewrite (mbind_go m k s r s' E) in H | rewrite (mbind_ret m k s r s' E) in H
      | rewrite (mbind_crash m k s s' E) in H | rewrite (mbind_diverge m k s s' E) in H]
  end.

Lemma add_object_vtable_ok V path rest interface vtable fallback find_cb userdata b b' :
  path = String "/" rest ->
  add_object_vtable_internal V path interface vtable fallback find_cb userdata b = (Go 0, b') ->
  exists existing nm npr k,
    object_path_is_valid V path = true /\ interface_name_is_valid V interface = true /\ pid_changed b = false /\
    vtable_type_eqb (type (vtable_start vtable)) _SD_BUS_VTABLE_START = true /\
    scan_vtables fallback interface vtable
      (match hashmap_get_node (snd (bus_node_allocate path b)) path with Some nd => n_vtables nd | None => [] end) None
      = inr existing /\
    b' = with_modified true
           (with_nodes (node_update path (fun nd => with_vtables (list_insert_after existing
                          (mkNodeVtable (next_id b) fallback interface vtable userdata find_cb) (n_vtables nd)) nd)
                          (nodes (snd (bus_node_allocate path b))))
              (index_update (nm ++ vtable_methods b) (npr ++ vtable_properties b) k (snd (bus_node_allocate path b)))) /\
    block_ok (vtable_methods b) nm path (mkNodeVtable (next_id b) fallback interface vtable userdata find_cb)
             (filter is_method (vtable_body vtable)) /\
    block_ok (vtable_properties b) npr path (mkNodeVtable (next_id b) fallback interface vtable userdata find_cb)
             (filter is_property (vtable_body vtable)).
Proof.
  intros Hp E. pose proof (alloc_fields path rest b Hp) as Ha.
  apply call_go_inv in E. rewrite mbind_get_eq in E.
  assert (Hne' : forall x s, x < 0 -> (@Ret Z x, s) = (Go 0, b') \/ (@Ret Z x, s) = (Ret 0, b') -> False).
  { intros x s Hx [X|X]; [discriminate X | injection X as X; lia]. }
  destruct (object_path_is_valid V path) eqn:Hv; cbn [negb] in E;
    [| exfalso; apply (Hne' (- EINVAL) b); [unfold EINVAL; lia | exact E]].
  destruct (interface_name_is_valid V interface) eqn:Hi; cbn [negb] in E;
    [| exfalso; apply (Hne' (- EINVAL) b); [unfold EINVAL; lia | exact E]].
  destruct (negb (vtable_type_eqb (type (vtable_start vtable)) _SD_BUS_VTABLE_START)) eqn:Hst;
    [exfalso; apply (Hne' (- EINVAL) b); [unfold EINVAL; lia | exact E]|].
  destruct (negb (element_size (vtable_start vtable) =? sizeof_sd_bus_vtable));
    [exfalso; apply (Hne' (- EINVAL) b); [unfold EINVAL; lia | exact E]|].
  destruct (pid_changed b) eqn:Hc; [exfalso; apply (Hne' (- ECHILD) b); [unfold ECHILD; lia | exact E]|].
  destruct (reserved_interface interface); [exfalso; apply (Hne' (- EINVAL) b); [unfold EINVAL; lia | exact E]|].
  rewrite (mbind_go _ _ _ path (snd (bus_node_allocate path b))) in E.
  2:{ rewrite (bus_node_allocate_spec path rest b Hp). reflexivity. }
  rewrite mbind_get_eq in E. cbv zeta in E.
  destruct (scan_vtables fallback interface vtable _ None) as [r|existing] eqn:Hs.
  { exfalso. pose proof (scan_vtables_neg _ _ _ _ _ _ Hs) as Hr.
    go_hstep E E1 y s1; try (destruct E as [E|E]; discriminate E).
    - apply (Hne' r s1 Hr). exact E.
    - exact (ner_bus_node_gc _ _ _ _ E1). }
  rewrite (mbind_go _ _ _ (next_id b) (with_next_id (S (next_id b)) (snd (bus_node_allocate path b)))) in E.
  2:{ rewrite Ha. reflexivity. }
  go_hstep E E1 x s1; try (destruct E as [E|E]; discriminate E).
  2:{ exfalso. exact (ner_add_members _ _ _ _ _ _ _ E1). }
  destruct (x <? 0) eqn:Hx.
  { exfalso. apply Z.ltb_lt in Hx. unfold free_node_vtable in E. rewrite mbind_modify_eq in E.
    go_hstep E E2 y s2; try (destruct E as [E|E]; discriminate E).
    - apply (Hne' x s2 Hx). exact E.
    - exact (ner_bus_node_gc _ _ _ _ E2). }
  apply Z.ltb_ge in Hx.
  destruct (add_members_sign _ _ _ _ _ _ _ E1) as [-> | X]; [|lia].
  destruct (add_members_ok _ _ _ _ _ _ E1) as (nm & npr & k & Es1 & Bm & Bp).
  unfold update_node in E. rewrite !mbind_modify_eq in E. unfold mret in E.
  destruct E as [E|E]; [|discriminate E]. injection E as <-.
  exists existing, nm, npr, k. do 3 (split; [first [reflexivity | assumption]|]). split; [apply negb_false_iff; exact Hst|]. split; [first [reflexivity | assumption]|]. split; [|split].
  - rewrite Es1. rewrite Ha. destruct b; reflexivity.
  - rewrite Ha in Bm. destruct b; exact Bm.
  - rewrite Ha in Bp. destruct b; exact Bp.
Qed.

Lemma find_app {A} (f : A -> bool) l1 l2 :
  find f (l1 ++ l2) = match find f l1 with Some x => Some x | None => find f l2 end.
Proof. induction l1 as [|x l1 IH]; cbn; [reflexivity|]. destruct (f x); auto. Qed.

Lemma NoDup_map_inj {A B} (f : A -> B) l x y :
  NoDup (map f l) -> In x l -> In y l -> f x = f y -> x = y.
Proof.
  induction l as [|a l IH]; cbn; [tauto|]. intros Hd Hx Hy E. inversion Hd as [|? ? Hn Hd']; subst.
  destruct Hx as [<-|Hx], Hy as [<-|Hy]; auto.
  - exfalso. apply Hn. rewrite E. apply in_map. exact Hy.
  - exfalso. apply Hn. rewrite <- E. apply in_map. exact Hx.
Qed.

Lemma block_ok_lookup old nm np c es v :
  block_ok old nm np c es -> In v es ->
  exists m, hashmap_get_member (nm ++ old) np (nv_interface c) (member v) = Some m /\
            vm_vtable m = v /\ vm_parent m = c.
Proof.
  intros (B1 & B2 & B3 & _) Hv. rewrite Forall_forall in B2.
  assert (Hin : In v (map vm_vtable nm)) by (rewrite B1; apply in_rev; rewrite rev_involutive; exact Hv).
  apply in_map_iff in Hin as [m0 [Em0 Hm0]].
  unfold hashmap_get_member. rewrite find_app.
  destruct (find (key_eqb np (nv_interface c) (member v)) nm) as [m|] eqn:F.
  - apply find_some in F as [Hm K]. apply key_eqb_true in K as (_ & _ & K).
    destruct (B2 m Hm) as (_ & _ & Km & Pm).
    exists m. split; [reflexivity|]. split; [|exact Pm].
    assert (Hvm : In (vm_vtable m) es).
    { apply in_rev. rewrite <- B1. apply in_map. exact Hm. }
    apply (NoDup_map_inj member es); auto. congruence.
  - exfalso. destruct (B2 m0 Hm0) as (P & I & M & _).
    pose proof (find_none _ _ F m0 Hm0) as K. rewrite (proj2 (key_eqb_true _ _ _ _)) in K; [discriminate|].
    rewrite <- Em0 in *. auto.
Qed.

Lemma scan_vtables_existing fallback interface vtable l ex r :
  scan_vtables fallback interface vtable l ex = inr r -> r = ex \/ exists x, In x l /\ r = Some (nv_id x).
Proof.
  revert ex. induction l as [|i l IH]; intros ex E; cbn [scan_vtables] in E.
  - injection E as <-. auto.
  - destruct (negb (Bool.eqb (nv_is_fallback i) fallback)); [discriminate|].
    destruct (streq (nv_interface i) interface).
    + destruct (Nat.eqb (vt_ptr (nv_vtable i)) (vt_ptr vtable)); [discriminate|].
      destruct (IH _ E) as [->|[x [Hx ->]]]; right; [exists i | exists x]; cbn; auto.
    + destruct (IH _ E) as [->|[x [Hx ->]]]; [left; reflexivity | right; exists x; cbn; auto].
Qed.

Lemma insert_after_in e c l : (exists x, In x l /\ nv_id x = e) -> In c (insert_after e c l).
Proof.
  induction l as [|i l IH]; cbn; [intros [x [[] _]]|]. intros [x [Hx Ex]].
  destruct (Nat.eqb (nv_id i) e) eqn:Ei; [cbn; auto|].
  destruct Hx as [<-|Hx]; [apply Nat.eqb_neq in Ei; congruence|]. right. apply IH. eauto.
Qed.

Lemma scan_insert_in fallback interface vtable l r c :
  scan_vtables fallback interface vtable l None = inr r -> In c (list_insert_after r c l).
Proof.
  intros E. destruct (scan_vtables_existing _ _ _ _ _ _ E) as [->|[x [Hx ->]]]; cbn; [auto|].
  apply insert_after_in. eauto.
Qed.

(** X12: after a successful add_object_vtable_internal, the node at the
    path lists the new vtable. Every METHOD entry of the vtable is found in
    the method index under (path, interface, member), every PROPERTY or
    WRITABLE_PROPERTY entry in the property index, and each found member
    holds that entry and points back to the new vtable. *)
Theorem add_object_vtable_indexes V path rest interface vtable fallback find_cb userdata b b' :
  path = String "/" rest ->
  add_object_vtable_internal V path interface vtable fallback find_cb userdata b = (Go 0, b') ->
  (exists nd, hashmap_get_node b' path = Some nd /\
              In (mkNodeVtable (next_id b) fallback interface vtable userdata find_cb) (n_vtables nd)) /\
  forall v, In v (vtable_body vtable) ->
    (is_method v = true -> exists m,
       hashmap_get_member (vtable_methods b') path interface (member v) = Some m /\ vm_vtable m = v /\
       vm_parent m = mkNodeVtable (next_id b) fallback interface vtable userdata find_cb) /\
    (is_property v = true -> exists m,
       hashmap_get_member (vtable_properties b') path interface (member v) = Some m /\ vm_vtable m = v /\
       vm_parent m = mkNodeVtable (next_id b) fallback interface vtable userdata find_cb).
Proof.
  intros Hp E.
  destruct (add_object_vtable_ok _ _ _ _ _ _ _ _ _ _ Hp E)
    as (existing & nm & npr & k & _ & _ & _ & _ & Hs & -> & Bm & Bp).
  split.
  - destruct (alloc_node path rest b Hp) as [n Hn]. rewrite Hn in Hs.
    unfold hashmap_get_node. cbn [nodes with_modified with_nodes].
    rewrite node_get_update_any by reflexivity. unfold hashmap_get_node in Hn. rewrite Hn.
    rewrite (proj2 (streq_true _ _) (node_get_some _ _ _ Hn)).
    eexists; split; [reflexivity|]. cbn [n_vtables with_vtables]. eapply scan_insert_in. exact Hs.
  - intros v Hv. split; intros Ht.
    + destruct (block_ok_lookup _ _ _ _ _ v Bm) as [m Hm]; [apply filter_In; auto|].
      exists m. destruct b; exact Hm.
    + destruct (block_ok_lookup _ _ _ _ _ v Bp) as [m Hm]; [apply filter_In; auto|].
      exists m. destruct b; exact Hm.
Qed.


Lemma free_node_vtable_fold np w b :
  free_node_vtable np w b = (Go tt, fold_left (free_step np w) (until_end (vt_entries (nv_vtable w))) b).
Proof. reflexivity. Qed.

Lemma remove_first_app_none {A} (p : A -> bool) l1 l2 :
  Forall (fun x => p x = false) l1 -> remove_first p (l1 ++ l2) = l1 ++ remove_first p l2.
Proof. induction 1 as [|x l1 Hx _ IH]; cbn; [reflexivity|]. rewrite Hx, IH. reflexivity. Qed.

Lemma rm_inv_step nm np i e es M :
  rm_inv nm np i (e :: es) ->
  exists nm1, rm_inv nm1 np i es /\
    remove_first (key_eqb np i (member e)) (nm ++ M) = nm1 ++ M.
Proof.
  intros (R1 & R2 & R3). cbn [rev] in R1.
  apply map_eq_app in R1 as (nm1 & l2 & -> & E1 & E2).
  destruct l2 as [|m1 [|? ?]]; try discriminate E2. injection E2 as Em1.
  apply Forall_app in R2 as [R2a R2b]. inversion R2b as [|? ? (P1 & I1 & K1) _]; subst.
  inversion R3 as [|? ? Hn R3']; subst.
  exists nm1. split; [split; [|split]; auto|].
  rewrite <- app_assoc, remove_first_app_none.
  - cbn. rewrite (proj2 (key_eqb_true _ _ _ _)) by auto. reflexivity.
  - rewrite Forall_forall in R2a |- *. intros m Hm. destruct (R2a m Hm) as (Pm & Im & Km).
    destruct (key_eqb _ _ _ m) eqn:K; [|reflexivity]. exfalso.
    apply key_eqb_true in K as (_ & _ & K). apply Hn. rewrite <- K, Km.
    apply in_map, in_rev. rewrite <- E1. apply in_map. exact Hm.
Qed.

Lemma free_fold np w es b nm npr M P :
  rm_inv nm np (nv_interface w) (filter is_method es) ->
  rm_inv npr np (nv_interface w) (filter is_property es) ->
  vtable_methods b = nm ++ M -> vtable_properties b = npr ++ P ->
  fold_left (free_step np w) es b = with_methods M (with_properties P b).
Proof.
  revert b nm npr. induction es as [|e es IH]; intros b nm npr Rm Rp Em Ep; cbn [fold_left].
  - destruct Rm as (R1 & _), Rp as (Q1 & _). cbn in R1, Q1.
    destruct nm; [|discriminate]. destruct npr; [|discriminate]. cbn in Em, Ep.
    rewrite <- Em, <- Ep. destruct b; reflexivity.
  - unfold free_step at 2. cbn [filter] in Rm, Rp. unfold is_method, is_property in Rm, Rp.
    destruct (type e) eqn:Te; fold is_method is_property in Rm, Rp.
    all: try (rewrite (IH b nm npr Rm Rp Em Ep); reflexivity).
    + destruct (rm_inv_step _ _ _ _ _ M Rm) as [nm1 [Rm1 Er]].
      rewrite (IH _ nm1 npr Rm1 Rp); [destruct b; reflexivity | | exact Ep].
      cbn [vtable_methods with_methods]. unfold hashmap_remove_member. rewrite Em. exact Er.
    + destruct (rm_inv_step _ _ _ _ _ P Rp) as [np1 [Rp1 Er]].
      rewrite (IH _ nm np1 Rm Rp1); [destruct b; reflexivity | exact Em |].
      cbn [vtable_properties with_properties]. unfold hashmap_remove_member. rewrite Ep. exact Er.
    + destruct (rm_inv_step _ _ _ _ _ P Rp) as [np1 [Rp1 Er]].
      rewrite (IH _ nm np1 Rm Rp1); [destruct b; reflexivity | exact Em |].
      cbn [vtable_properties with_properties]. unfold hashmap_remove_member. rewrite Ep. exact Er.
Qed.

Lemma block_ok_rm_inv old nm np c es : block_ok old nm np c es -> rm_inv nm np (nv_interface c) es.
Proof.
  intros (B1 & B2 & B3 & _). split; [exact B1|]. split; [|exact B3].
  eapply Forall_impl; [|exact B2]. cbn. tauto.
Qed.

Lemma vtable_matches_self interface fallback vtable find_cb userdata i :
  vtable_matches interface fallback vtable find_cb userdata (mkNodeVtable i fallback interface vtable userdata find_cb) = true.
Proof.
  unfold vtable_matches. cbn. rewrite streq_refl, eqb_reflx, Nat.eqb_refl, Z.eqb_refl.
  destruct find_cb; [rewrite Nat.eqb_refl|]; reflexivity.
Qed.

Lemma scan_vtables_no_match fallback interface vtable f u l ex r :
  scan_vtables fallback interface vtable l ex = inr r ->
  Forall (fun i => vtable_matches interface fallback vtable f u i = false) l.
Proof.
  revert ex. induction l as [|i l IH]; intros ex E; cbn [scan_vtables] in E; [constructor|].
  destruct (Bool.eqb (nv_is_fallback i) fallback) eqn:Ef; cbn [negb] in E; [|discriminate].
  destruct (streq (nv_interface i) interface) eqn:Ei.
  - destruct (Nat.eqb (vt_ptr (nv_vtable i)) (vt_ptr vtable)) eqn:Ep; [discriminate|].
    constructor; [|exact (IH _ E)]. unfold vtable_matches. rewrite Ep. rewrite !andb_false_r. reflexivity.
  - constructor; [|exact (IH _ E)]. unfold vtable_matches. rewrite Ei. reflexivity.
Qed.

Lemma insert_after_find p e c l :
  Forall (fun i => p i = false) l -> p c = true -> (exists x, In x l /\ nv_id x = e) ->
  find p (insert_after e c l) = Some c /\ remove_first p (insert_after e c l) = l.
Proof.
  intros Hl Hc. induction Hl as [|i l Hi Hl IH]; cbn; [intros [x [[] _]]|]. intros [x [Hx Ex]].
  destruct (Nat.eqb (nv_id i) e) eqn:Ei; cbn; rewrite Hi.
  - rewrite Hc. auto.
  - destruct Hx as [<-|Hx]; [apply Nat.eqb_neq in Ei; congruence|].
    destruct IH as [IH1 IH2]; [eauto|]. rewrite IH1, IH2. auto.
Qed.

Lemma scan_insert_find fallback interface vtable f u l r c :
  scan_vtables fallback interface vtable l None = inr r ->
  vtable_matches interface fallback vtable f u c = true ->
  find (vtable_matches interface fallback vtable f u) (list_insert_after r c l) = Some c /\
  remove_first (vtable_matches interface fallback vtable f u) (list_insert_after r c l) = l.
Proof.
  intros E Hc. pose proof (scan_vtables_no_match _ _ _ f u _ _ _ E) as Hl.
  destruct (scan_vtables_existing _ _ _ _ _ _ E) as [->|[x [Hx ->]]]; cbn.
  - rewrite Hc. auto.
  - apply insert_after_find; eauto.
Qed.

Lemma map_path_update p g ns :
  (forall n, n_path (g n) = n_path n) -> map n_path (node_update p g ns) = map n_path ns.
Proof.
  intros Hg. unfold node_update. rewrite map_map. apply map_ext. intros n.
  destruct (streq (n_path n) p); auto.
Qed.

Lemma node_get_none_notin ns p : node_get ns p = None -> ~ In p (map n_path ns).
Proof.
  intros E Hin. apply node_get_none in E. rewrite Forall_forall in E.
  apply in_map_iff in Hin as [n [<- Hn]]. specialize (E n Hn). rewrite streq_refl in E. discriminate E.
Qed.

Lemma alloc_nodup path rest b :
  path = String "/" rest -> NoDup (map n_path (nodes b)) ->
  NoDup (map n_path (nodes (snd (bus_node_allocate path b)))).
Proof.
  intros Hp Hd. rewrite (bus_node_allocate_spec path rest b Hp). cbn [snd].
  destruct (hashmap_get_node b path) as [n|] eqn:E; [exact Hd|].
  unfold alloc_fresh. destruct (streq path "/") eqn:Er.
  - apply streq_true in Er. subst path. cbn. constructor; [|exact Hd].
    apply node_get_none_notin. rewrite <- Er. exact E.
  - rewrite nodes_with_nodes, map_path_update by reflexivity. cbn [map n_path].
    assert (Hr : map n_path (nodes (with_root b)) = map n_path (nodes b) \/
                 (map n_path (nodes (with_root b)) = "/"%string :: map n_path (nodes b) /\
                  hashmap_get_node b "/" = None)).
    { unfold with_root. destruct (hashmap_get_node b "/"); [left; reflexivity | right; auto]. }
    apply streq_false in Er.
    destruct Hr as [Hr|[Hr Hroot]]; rewrite Hr; constructor.
    + apply node_get_none_notin. exact E.
    + exact Hd.
    + intros [H|H]; [congruence|]. exact (node_get_none_notin _ _ E H).
    + constructor; [exact (node_get_none_notin _ _ Hroot) | exact Hd].
Qed.

Lemma node_update_compose_unique p g h ns n :
  NoDup (map n_path ns) -> node_get ns p = Some n ->
  (forall x, n_path (g x) = n_path x) -> h (g n) = n ->
  node_update p h (node_update p g ns) = ns.
Proof.
  intros Hd Hn Hg Hhg. apply node_update_compose; [|exact Hg].
  apply Forall_forall. intros x Hx Ex. apply streq_true in Ex.
  assert (x = n) as ->; [|exact Hhg].
  apply (NoDup_map_inj n_path ns); auto.
  - eapply node_get_in; exact Hn.
  - rewrite Ex. symmetry. exact (node_get_some _ _ _ Hn).
Qed.

Lemma free_start np w b :
  vtable_type_eqb (type (vtable_start (nv_vtable w))) _SD_BUS_VTABLE_START = true ->
  fold_left (free_step np w) (until_end (vt_entries (nv_vtable w))) b =
  fold_left (free_step np w) (vtable_body (nv_vtable w)) b.
Proof.
  unfold vtable_start, vtable_body. destruct (vt_entries (nv_vtable w)) as [|v0 l]; [discriminate|].
  intros H. cbn [until_end]. destruct (type v0) eqn:T; try discriminate H.
  cbn [vtable_type_eqb fold_left]. unfold free_step at 2. rewrite T. reflexivity.
Qed.

(** X13: on a bus whose node paths are distinct and whose nodes are all
    in use, removing a vtable just added with the same arguments returns 1
    and gives back the original bus: nodes, method index and property
    index. Only the modified flag is set and the ids used by the
    registration stay used. *)
Theorem vtable_round_trip V path rest interface vtable fallback find_cb userdata b b' :
  path = String "/" rest ->
  NoDup (map n_path (nodes b)) ->
  Forall (fun n => node_is_empty n = false) (nodes b) ->
  add_object_vtable_internal V path interface vtable fallback find_cb userdata b = (Go 0, b') ->
  remove_object_vtable_internal V path interface vtable fallback find_cb userdata b' =
  (Go 1, with_modified true (with_next_id (next_id b') b)).
Proof.
  intros Hp Hd Hne E.
  destruct (add_object_vtable_ok _ _ _ _ _ _ _ _ _ _ Hp E)
    as (existing & nm & npr & k & Hv & Hi & Hc & Hst & Hs & -> & Bm & Bp).
  destruct (alloc_get path rest b Hp) as [n [Hn Hpn]].
  pose proof (alloc_fields path rest b Hp) as Ha.
  pose proof (alloc_nodup path rest b Hp Hd) as Hda.
  pose proof (fun x => bus_node_gc_undoes_allocate path rest b x Hp Hne) as Hgc.
  unfold hashmap_get_node in Hs. rewrite Hn in Hs.
  set (c := mkNodeVtable (next_id b) fallback interface vtable userdata find_cb) in *.
  set (mt := vtable_matches interface fallback vtable find_cb userdata).
  assert (Hcm : mt c = true) by apply vtable_matches_self.
  destruct (scan_insert_find _ _ _ find_cb userdata _ _ c Hs Hcm) as [Hf Hr]. fold mt in Hf, Hr.
  set (g := fun nd : node => with_vtables (list_insert_after existing c (n_vtables nd)) nd) in *.
  set (h := fun nd : node => with_vtables (remove_first mt (n_vtables nd)) nd).
  assert (Hhg : node_update path h (node_update path g (nodes (snd (bus_node_allocate path b)))) =
                nodes (snd (bus_node_allocate path b))).
  { apply (node_update_compose_unique path g h _ n Hda Hn); [reflexivity|].
    unfold h, g. cbn [n_vtables with_vtables]. rewrite Hr. destruct n; reflexivity. }
  set (a := snd (bus_node_allocate path b)) in *. clearbody a. clear E.
  set (ns := nodes a) in *. clearbody ns. subst a.
  unfold remove_object_vtable_internal, call. rewrite mbind_get_eq. rewrite Hv, Hi. cbn [negb].
  change (pid_changed _) with (pid_changed b). rewrite Hc.
  change (hashmap_get_node _ path) with (node_get (node_update path g ns) path).
  rewrite node_get_update_any by reflexivity. rewrite Hn, Hpn, streq_refl.
  unfold g at 1. cbn [n_vtables with_vtables]. fold mt. rewrite Hf.
  unfold update_node. rewrite mbind_modify_eq.
  change (nodes (with_modified _ _)) with (node_update path g ns). fold h. rewrite Hhg.
  rewrite (mbind_go _ _ _ tt _ (free_node_vtable_fold path c _)).
  change (nv_vtable c) with vtable.
  rewrite (free_start path c) by exact Hst. change (nv_vtable c) with vtable.
  rewrite (free_fold path c _ _ nm npr (vtable_methods b) (vtable_properties b)).
  2: exact (block_ok_rm_inv _ _ _ _ _ Bm).
  2: exact (block_ok_rm_inv _ _ _ _ _ Bp).
  2, 3: reflexivity.
  match goal with |- context [mbind (bus_node_gc path) _ ?s] => rewrite (mbind_go _ _ _ tt _ (Hgc s eq_refl)) end.
  rewrite mbind_modify_eq. unfold mret. destruct b; reflexivity.
Qed.

(** X14: sd_bus_emit_interfaces_removed either returns a non-positive
    code and leaves the bus unchanged (an assertion failed, or the list of
    interfaces is empty), or returns the value of sd_bus_send after sending
    exactly one InterfacesRemoved signal that names the path and all the
    interfaces. *)
Theorem interfaces_removed_sends_one V path interfaces b r b' :
  sd_bus_emit_interfaces_removed V path interfaces b = (Go r, b') ->
  (r <= 0 /\ b' = b) \/
  (r = sd_bus_send_ret /\ interfaces <> [] /\
   b' = with_sent (sent b ++ [OInterfacesRemoved path interfaces]) b).
Proof.
  unfold sd_bus_emit_interfaces_removed, sd_bus_emit_interfaces_removed_strv, call, mbind, get, modify, mret, return_.
  intros E.
  destruct (object_path_is_valid V path) eqn:Hv, (is_open b) eqn:Ho, (pid_changed b) eqn:Hc, interfaces as [|i l];
    do 3 (cbn in E; repeat (rewrite Hv in E || rewrite Ho in E || rewrite Hc in E)); injection E as <- <-;
    first [left; split; [unfold EINVAL, ENOTCONN, ECHILD; lia | reflexivity]
          | right; split; [reflexivity | split; [discriminate | reflexivity]]].
Qed.

Lemma bus_node_allocate_flat_witness :
  fst (bus_node_allocate "/a/b" bus_vt) = Go "/a/b"%string /\
  hashmap_get_node (snd (bus_node_allocate "/a/b" bus_vt)) "/a/b" = Some (mkNode "/a/b" (Some "/"%string) [] [] [] [] false) /\
  (exists r, hashmap_get_node (snd (bus_node_allocate "/a/b" bus_vt)) "/" = Some r /\
     n_child r = "/a/b"%string :: match hashmap_get_node bus_vt "/" with Some r0 => n_child r0 | None => [] end) /\
  (forall q, q <> "/a/b"%string -> q <> "/"%string ->
     hashmap_get_node (snd (bus_node_allocate "/a/b" bus_vt)) q = hashmap_get_node bus_vt q) /\
  snd (bus_node_allocate "/a/b" bus_vt) = with_nodes (nodes (snd (bus_node_allocate "/a/b" bus_vt))) bus_vt.
Proof. apply (bus_node_allocate_flat "/a/b" "a/b" bus_vt); [reflexivity | discriminate | vm_compute; reflexivity]. Defined.

Lemma bus_object_round_trip_witness :
  fst (bus_add_object V_all false "/b" 3 0 bus_one) = Go 0 /\
  bus_remove_object V_all false "/b" 3 0 (snd (bus_add_object V_all false "/b" 3 0 bus_one)) =
  (Go 1, with_modified true (with_next_id (S (next_id bus_one)) bus_one)).
Proof. apply (bus_object_round_trip V_all false "/b" "b" 3 0 bus_one); [reflexivity | reflexivity | reflexivity | vm_compute; repeat constructor]. Defined.

Lemma node_enumerator_round_trip_witness :
  fst (sd_bus_add_node_enumerator V_all "/b" 3 0 bus_one) = Go 0 /\
  sd_bus_remove_node_enumerator V_all "/b" 3 0 (snd (sd_bus_add_node_enumerator V_all "/b" 3 0 bus_one)) =
  (Go 1, with_modified true bus_one).
Proof. apply (node_enumerator_round_trip V_all "/b" "b" 3 0 bus_one); [reflexivity | reflexivity | reflexivity | vm_compute; repeat constructor]. Defined.

Lemma object_manager_round_trip_witness :
  fst (sd_bus_add_object_manager V_all "/a" bus_one) = Go 0 /\
  sd_bus_remove_object_manager V_all "/a" (snd (sd_bus_add_object_manager V_all "/a" bus_one)) =
  (Go 1, with_modified true bus_one).
Proof.
  apply (object_manager_round_trip V_all "/a" "a" bus_one); [reflexivity | reflexivity | reflexivity | vm_compute; repeat constructor |].
  vm_compute. repeat constructor.
Defined.

Lemma reg_op_invalid_path_witness :
  run_reg_op V_rooted (OpAddObjectManager "a") bus_empty = (Go (- EINVAL), bus_empty).
Proof. apply (reg_op_invalid_path V_rooted (OpAddObjectManager "a") bus_empty). reflexivity. Defined.

Lemma reg_op_forked_witness :
  exists r, run_reg_op V_all (OpAddObject false "/a" 1 0) bus_forked = (Go r, bus_forked) /\ (r = - EINVAL \/ r = - ECHILD).
Proof. apply (reg_op_forked V_all (OpAddObject false "/a" 1 0) bus_forked). reflexivity. Defined.

Lemma add_object_vtable_conflict_witness :
  exists r, add_object_vtable_internal V_all "/a" "org.example.I" vt_foo false None 0 bus_vt = (Go r, bus_vt) /\
            (r = - EPROTOTYPE \/ r = - EEXIST) /\
            (Forall (fun i => nv_is_fallback i = false)
               (n_vtables (match hashmap_get_node bus_vt "/a" with Some n => n | None => root_node end)) -> r = - EEXIST).
Proof.
  apply (add_object_vtable_conflict V_all "/a" "a" "org.example.I" vt_foo false None 0 bus_vt
           (match hashmap_get_node bus_vt "/a" with Some n => n | None => root_node end));
    try reflexivity; vm_compute; try reflexivity.
  constructor. right. split; reflexivity.
Defined.

Lemma add_object_vtable_collision_drops_other_witness :
  add_object_vtable_internal V_all "/a" "org.example.I" vt_foo2 false None 0 bus_vt =
  (Go (- EEXIST),
   with_methods (hashmap_remove_member (vtable_methods bus_vt) "/a" "org.example.I" (member vt_method_foo))
     (with_next_id (S (S (next_id bus_vt))) bus_vt)).
Proof.
  eapply (add_object_vtable_collision_drops_other V_all "/a" "a" "org.example.I" vt_foo2 false None 0 bus_vt
           (match hashmap_get_node bus_vt "/a" with Some n => n | None => root_node end) (Some 0%nat) vt_method_foo
           (match hashmap_get_member (vtable_methods bus_vt) "/a" "org.example.I" "Foo" with Some m => m | None => vm_foo end));
    try reflexivity; vm_compute; try reflexivity; discriminate.
Defined.

Lemma interfaces_added_sends_at_most_one_witness :
  sd_bus_emit_interfaces_added_strv V_all ext_quiet errno_of 3 "/a" ["org.example.I"%string] bus_vt =
  (Go 1, snd (sd_bus_emit_interfaces_added_strv V_all ext_quiet errno_of 3 "/a" ["org.example.I"%string] bus_vt)) /\
  (sent (snd (sd_bus_emit_interfaces_added_strv V_all ext_quiet errno_of 3 "/a" ["org.example.I"%string] bus_vt)) = sent bus_vt \/
   (1 = sd_bus_send_ret /\ exists objs,
      sent (snd (sd_bus_emit_interfaces_added_strv V_all ext_quiet errno_of 3 "/a" ["org.example.I"%string] bus_vt)) =
      sent bus_vt ++ [OInterfacesAdded "/a" objs])).
Proof.
  assert (E : sd_bus_emit_interfaces_added_strv V_all ext_quiet errno_of 3 "/a" ["org.example.I"%string] bus_vt =
    (Go 1, snd (sd_bus_emit_interfaces_added_strv V_all ext_quiet errno_of 3 "/a" ["org.example.I"%string] bus_vt)))
    by (vm_compute; reflexivity).
  split; [exact E|]. exact (interfaces_added_sends_at_most_one V_all ext_quiet errno_of 3 "/a" _ bus_vt 1 _ E).
Defined.

Lemma interfaces_added_unregistered_witness :
  sd_bus_emit_interfaces_added_strv V_all ext_quiet errno_of 3 "/a" ["org.example.J"%string] bus_vt =
  (Go (- ENOENT), with_modified false bus_vt).
Proof.
  apply (interfaces_added_unregistered V_all ext_quiet errno_of 2 "/a" "org.example.J" [] bus_vt);
    try reflexivity.
  vm_compute. repeat constructor; discriminate.
Defined.

Lemma add_children_spec_witness :
  let '(r', s') := add_children V_all "/a" ["/a/b"; "/c"; "/a/b"; "/a/d"]%string 0 [] in
  NoDup s' /\
  (exists t, s' = [] ++ t /\
     Forall (fun k => object_path_is_valid V_all k = true /\ object_path_startswith k "/a" = true /\
                      In k ["/a/b"; "/c"; "/a/b"; "/a/d"]%string) t) /\
  (Exists (fun k => object_path_is_valid V_all k = false) ["/a/b"; "/c"; "/a/b"; "/a/d"]%string -> r' = - EINVAL) /\
  (Forall (fun k => object_path_is_valid V_all k = true) ["/a/b"; "/c"; "/a/b"; "/a/d"]%string ->
     0 <= r' /\ forall k, In k s' <-> In k [] \/ (In k ["/a/b"; "/c"; "/a/b"; "/a/d"]%string /\ object_path_startswith k "/a" = true)).
Proof. apply (add_children_spec V_all "/a" ["/a/b"; "/c"; "/a/b"; "/a/d"]%string 0 []); [constructor | lia]. Defined.

Lemma add_object_vtable_indexes_witness :
  (exists nd, hashmap_get_node bus_vt "/a" = Some nd /\
              In (mkNodeVtable (next_id bus_empty) false "org.example.I" vt_foo 0 None) (n_vtables nd)) /\
  forall v, In v (vtable_body vt_foo) ->
    (is_method v = true -> exists m,
       hashmap_get_member (vtable_methods bus_vt) "/a" "org.example.I" (member v) = Some m /\ vm_vtable m = v /\
       vm_parent m = mkNodeVtable (next_id bus_empty) false "org.example.I" vt_foo 0 None) /\
    (is_property v = true -> exists m,
       hashmap_get_member (vtable_properties bus_vt) "/a" "org.example.I" (member v) = Some m /\ vm_vtable m = v /\
       vm_parent m = mkNodeVtable (next_id bus_empty) false "org.example.I" vt_foo 0 None).
Proof. apply (add_object_vtable_indexes V_all "/a" "a"); [reflexivity | vm_compute; reflexivity]. Defined.

Lemma vtable_round_trip_witness :
  remove_object_vtable_internal V_all "/a" "org.example.I" vt_foo false None 0 bus_vt =
  (Go 1, with_modified true (with_next_id (next_id bus_vt) bus_empty)).
Proof.
  apply (vtable_round_trip V_all "/a" "a" "org.example.I" vt_foo false None 0 bus_empty bus_vt);
    [reflexivity | constructor | constructor | vm_compute; reflexivity].
Defined.

Lemma interfaces_removed_sends_one_witness :
  sd_bus_emit_interfaces_removed V_all "/a" ["org.example.I"%string] bus_vt =
  (Go 1, with_sent (sent bus_vt ++ [OInterfacesRemoved "/a" ["org.example.I"%string]]) bus_vt) /\
  ((1 <= 0 /\ with_sent (sent bus_vt ++ [OInterfacesRemoved "/a" ["org.example.I"%string]]) bus_vt = bus_vt) \/
   (1 = sd_bus_send_ret /\ ["org.example.I"%string] <> [] /\
    with_sent (sent bus_vt ++ [OInterfacesRemoved "/a" ["org.example.I"%string]]) bus_vt =
    with_sent (sent bus_vt ++ [OInterfacesRemoved "/a" ["org.example.I"%string]]) bus_vt)).
Proof.
  assert (E : sd_bus_emit_interfaces_removed V_all "/a" ["org.example.I"%string] bus_vt =
    (Go 1, with_sent (sent bus_vt ++ [OInterfacesRemoved "/a" ["org.example.I"%string]]) bus_vt))
    by (vm_compute; reflexivity).
  split; [exact E | exact (interfaces_removed_sends_one V_all "/a" _ bus_vt 1 _ E)].
Defined.

Lemma bus_node_allocate_aux_go fuel p b n b1 :
  bus_node_allocate_aux fuel p b = (Go n, b1) ->
  vtable_methods b1 = vtable_methods b /\ vtable_properties b1 = vtable_properties b /\
  (hashmap_get_node b p = None -> n = p /\ exists nd, hashmap_get_node b1 p = Some nd /\ n_vtables nd = []) /\
  (forall nd, hashmap_get_node b p = Some nd -> n = n_path nd /\ b1 = b).
Proof.
  revert p b n b1. induction fuel as [|fuel IH]; intros p b n b1 E; [discriminate E|].
  cbn [bus_node_allocate_aux] in E. rewrite mbind_get_eq in E.
  destruct (hashmap_get_node b p) as [nd|] eqn:H.
  - injection E as <- <-. split; [reflexivity|]. split; [reflexivity|]. split; [discriminate|].
    intros nd' [= <-]. auto.
  - apply mbind_Go_inv in E as [parent [b2 [Ep E]]].
    assert (T2 : vtable_methods b2 = vtable_methods b /\ vtable_properties b2 = vtable_properties b).
    { destruct (streq p "/"); [injection Ep as _ <-; auto|].
      destruct (strrchr_slash p) as [i|]; [|discriminate Ep].
      apply mbind_Go_inv in Ep as [q [b3 [Eq Ep]]]. injection Ep as _ <-.
      destruct (IH _ _ _ _ Eq) as (M & P & _). auto. }
    apply mbind_Go_inv in E as [t [b3 [E3 E]]]. unfold modify in E3. injection E3 as _ <-.
    apply mbind_Go_inv in E as [t' [b4 [E4 E]]]. injection E as <- <-.
    destruct parent as [q|].
    + unfold update_node, modify in E4. injection E4 as _ <-. cbn [vtable_methods vtable_properties with_nodes].
      split; [exact (proj1 T2)|]. split; [exact (proj2 T2)|]. split; [|intros nd' Hx; discriminate Hx].
      intros _. split; [reflexivity|]. unfold hashmap_get_node. cbn [nodes with_nodes].
      destruct (streq p q); cbn [node_get n_path with_child]; unfold streq; rewrite String.eqb_refl;
        (eexists; split; reflexivity).
    + injection E4 as _ <-. cbn [vtable_methods vtable_properties with_nodes].
      split; [exact (proj1 T2)|]. split; [exact (proj2 T2)|]. split; [|intros nd' Hx; discriminate Hx].
      intros _. split; [reflexivity|]. unfold hashmap_get_node. cbn [nodes with_nodes node_get].
      unfold streq; rewrite String.eqb_refl. eexists. split; reflexivity.
Qed.

Lemma method_block_fail np c v b r b1 :
  (mid <- new_id ;; b <- get ;;
   match hashmap_put_member (vtable_methods b)
           (mkVtableMember mid np (nv_interface c) (member v) c v 0) with
   | inl r => mret r
   | inr l => put (with_methods l b) ;;; mret 0
   end) b = (Go r, b1) -> r < 0 ->
  r = - EEXIST /\ hashmap_get_member (vtable_methods b) np (nv_interface c) (member v) <> None.
Proof.
  unfold mbind, new_id, get, hashmap_put_member, mret, put. cbn - [hashmap_get_member].
  destruct (hashmap_get_member (vtable_methods b) np (nv_interface c) (member v)) eqn:G.
  - intros E _. injection E as <- _. split; [reflexivity | discriminate].
  - intros E. injection E as <- _. discriminate.
Qed.

Lemma add_property_member_fail V np c v b r b1 :
  add_property_member V np c v b = (Go r, b1) -> r < 0 ->
  r = - EINVAL \/ (r = - EEXIST /\ hashmap_get_member (vtable_properties b) np (nv_interface c) (member v) <> None).
Proof.
  unfold add_property_member. destruct (property_entry_invalid V v).
  - intros E _. injection E as <- _. left. reflexivity.
  - unfold mbind, new_id, get, hashmap_put_member, mret, put. cbn - [hashmap_get_member].
    destruct (hashmap_get_member (vtable_properties b) np (nv_interface c) (member v)) eqn:G.
    + intros E _. injection E as <- _. right. split; [reflexivity | discriminate].
    + intros E. injection E as <- _. discriminate.
Qed.

Lemma get_member_cons_some l m p i k :
  hashmap_get_member (m :: l) p i k <> None -> key_eqb p i k m = true \/ hashmap_get_member l p i k <> None.
Proof. unfold hashmap_get_member. cbn. destruct (key_eqb p i k m); auto. Qed.

Lemma add_members_fail V np c l v s r s' :
  In v l -> property_entry_rejected V v = true -> add_members V np c l s = (Go r, s') ->
  r = - EINVAL \/
  (r = - EEXIST /\ exists pre w post, l = pre ++ w :: post /\ In v post /\ member_taken s np (nv_interface c) pre w).
Proof.
  revert s. induction l as [|x l IH]; intros s Hin Hb E; [destruct Hin|].
  destruct Hin as [-> | Hin].
  { left. exact (add_members_head_rejected V np c v l s r s' Hb E). }
  cbn [add_members] in E. apply mbind_Go_inv in E as [r0 [s1 [E0 E]]].
  destruct (r0 <? 0) eqn:Hr.
  - injection E as <- _. apply Z.ltb_lt in Hr.
    destruct (type x) eqn:Ht.
    + injection E0 as <- _. left. reflexivity.
    + injection E0 as <- _. left. reflexivity.
    + destruct (method_entry_invalid V x); [injection E0 as <- _; left; reflexivity|].
      destruct (method_block_fail np c x s r0 s1 E0 Hr) as [-> G]. right. split; [reflexivity|].
      exists [], x, l. split; [reflexivity|]. split; [exact Hin|].
      left. split; [unfold is_method; rewrite Ht; reflexivity | left; exact G].
    + destruct (signal_entry_invalid V x); injection E0 as <- _; [left; reflexivity | discriminate Hr].
    + destruct (add_property_member_fail V np c x s r0 s1 E0 Hr) as [-> | [-> G]]; [left; reflexivity|].
      right. split; [reflexivity|]. exists [], x, l. split; [reflexivity|]. split; [exact Hin|].
      right. split; [unfold is_property; rewrite Ht; reflexivity | left; exact G].
    + destruct (writable_entry_invalid V x); [injection E0 as <- _; left; reflexivity|].
      destruct (add_property_member_fail V np c x s r0 s1 E0 Hr) as [-> | [-> G]]; [left; reflexivity|].
      right. split; [reflexivity|]. exists [], x, l. split; [reflexivity|]. split; [exact Hin|].
      right. split; [unfold is_property; rewrite Ht; reflexivity | left; exact G].
  - apply Z.ltb_ge in Hr.
    destruct (IH s1 Hin Hb E) as [H | [Hx [pre [w [post [Hl [Hp HT]]]]]]]; [left; exact H|].
    right. split; [exact Hx|]. exists (x :: pre), w, post. split; [rewrite Hl; reflexivity|]. split; [exact Hp|].
    assert (Hein : forall y w', In w' pre -> In w' (y :: pre)) by (intros; right; assumption).
    destruct (type x) eqn:Ht.
    + injection E0 as E0 _. subst r0. unfold EINVAL in Hr. lia.
    + injection E0 as E0 _. subst r0. unfold EINVAL in Hr. lia.
    + destruct (method_entry_invalid V x); [injection E0 as E0 _; subst r0; unfold EINVAL in Hr; lia|].
      destruct (method_block_go np c x s r0 s1 E0) as [X | (-> & G & Eb1)]; [lia|]. subst s1.
      destruct HT as [[Hm [Hg | [w' [Hw' [Hm' Hmm]]]]] | [Hm Hrest]].
      * cbn [vtable_methods index_update with_methods] in Hg.
        destruct (get_member_cons_some _ _ _ _ _ Hg) as [K | K].
        -- apply key_eqb_true in K as (_ & _ & K). cbn [vm_member] in K.
           left. split; [exact Hm|]. right. exists x. split; [left; reflexivity|].
           split; [unfold is_method; rewrite Ht; reflexivity | exact K].
        -- left. split; [exact Hm | left; exact K].
      * left. split; [exact Hm|]. right. exists w'. auto.
      * right. split; [exact Hm|]. destruct Hrest as [Hg | [w' [Hw' [Hm' Hmm]]]]; [left; exact Hg|].
        right. exists w'. auto.
    + destruct (signal_entry_invalid V x); injection E0 as E0 <-; [subst r0; unfold EINVAL in Hr; lia|].
      destruct HT as [[Hm [Hg | [w' [Hw' [Hm' Hmm]]]]] | [Hm [Hg | [w' [Hw' [Hm' Hmm]]]]]];
        [left; split; [exact Hm | left; exact Hg] | left; split; [exact Hm|]; right; exists w'; auto
        | right; split; [exact Hm | left; exact Hg] | right; split; [exact Hm|]; right; exists w'; auto].
    + destruct (add_property_member_go V np c x s r0 s1 E0) as [X | (-> & G & Eb1)]; [lia|]. subst s1.
      destruct HT as [[Hm Hrest] | [Hm [Hg | [w' [Hw' [Hm' Hmm]]]]]].
      * left. split; [exact Hm|]. destruct Hrest as [Hg | [w' [Hw' [Hm' Hmm]]]]; [left; exact Hg|].
        right. exists w'. auto.
      * cbn [vtable_properties index_update with_methods with_properties with_next_id] in Hg.
        destruct (get_member_cons_some _ _ _ _ _ Hg) as [K | K].
        -- apply key_eqb_true in K as (_ & _ & K). cbn [vm_member] in K.
           right. split; [exact Hm|]. right. exists x. split; [left; reflexivity|].
           split; [unfold is_property; rewrite Ht; reflexivity | exact K].
        -- right. split; [exact Hm | left; exact K].
      * right. split; [exact Hm|]. right. exists w'. auto.
    + destruct (writable_entry_invalid V x); [injection E0 as E0 _; subst r0; unfold EINVAL in Hr; lia|].
      destruct (add_property_member_go V np c x s r0 s1 E0) as [X | (-> & G & Eb1)]; [lia|]. subst s1.
      destruct HT as [[Hm Hrest] | [Hm [Hg | [w' [Hw' [Hm' Hmm]]]]]].
      * left. split; [exact Hm|]. destruct Hrest as [Hg | [w' [Hw' [Hm' Hmm]]]]; [left; exact Hg|].
        right. exists w'. auto.
      * cbn [vtable_properties index_update with_methods with_properties with_next_id] in Hg.
        destruct (get_member_cons_some _ _ _ _ _ Hg) as [K | K].
        -- apply key_eqb_true in K as (_ & _ & K). cbn [vm_member] in K.
           right. split; [exact Hm|]. right. exists x. split; [left; reflexivity|].
           split; [unfold is_property; rewrite Ht; reflexivity | exact K].
        -- right. split; [exact Hm | left; exact K].
      * right. split; [exact Hm|]. right. exists w'. auto.
Qed.

Lemma member_taken_tables b b' p i pre w :
  vtable_methods b' = vtable_methods b -> vtable_properties b' = vtable_properties b ->
  member_taken b' p i pre w -> member_taken b p i pre w.
Proof. unfold member_taken. intros -> ->. exact (fun H => H). Qed.

Lemma scan_vtables_codes fb i vt l ex r : scan_vtables fb i vt l ex = inl r -> r = - EPROTOTYPE \/ r = - EEXIST.
Proof.
  revert ex; induction l as [|x l IH]; intros ex; cbn; [discriminate|].
  destruct (negb (Bool.eqb (nv_is_fallback x) fb)); [intros E; injection E as <-; auto|].
  destruct (streq (nv_interface x) i); [|apply IH].
  destruct (Nat.eqb (vt_ptr (nv_vtable x)) (vt_ptr vt)); [intros E; injection E as <-; auto|apply IH].
Qed.

(** C8 (amended): take a vtable whose body holds a PROPERTY or
    WRITABLE_PROPERTY entry [v] breaking one of the rules of
    [property_entry_invalid] or [writable_entry_invalid].
    [add_object_vtable_internal] always fails on it, and the code is
    -EINVAL unless one of three earlier failures occurs: -ECHILD when
    the bus was forked; -EPROTOTYPE or -EEXIST from the scan of the
    vtables already at the node; or -EEXIST for an entry before [v]
    whose member is already indexed under the path and interface, or
    repeated earlier in the vtable.  When none of the three can occur,
    the result is -EINVAL, at a fresh or an existing node, whatever
    entries precede [v]. *)
Theorem add_object_vtable_property_rejected V path iface vt fb fc u b r b' v :
  In v (vtable_body vt) -> property_entry_rejected V v = true ->
  add_object_vtable_internal V path iface vt fb fc u b = (Go r, b') ->
  r < 0 /\
  (r = - EINVAL \/
   (r = - ECHILD /\ pid_changed b = true) \/
   ((r = - EPROTOTYPE \/ r = - EEXIST) /\
    exists nd, hashmap_get_node b path = Some nd /\ scan_vtables fb iface vt (n_vtables nd) None = inl r) \/
   (r = - EEXIST /\ exists pre w post, vtable_body vt = pre ++ w :: post /\ In v post /\ member_taken b path iface pre w)) /\
  (pid_changed b = false ->
   (forall nd, hashmap_get_node b path = Some nd -> exists ex, scan_vtables fb iface vt (n_vtables nd) None = inr ex) ->
   (forall pre w post, vtable_body vt = pre ++ w :: post -> In v post -> ~ member_taken b path iface pre w) ->
   r = - EINVAL).
Proof.
  intros Hin Hb E.
  pose (P := fun x => x < 0 /\
    (x = - EINVAL \/
     (x = - ECHILD /\ pid_changed b = true) \/
     ((x = - EPROTOTYPE \/ x = - EEXIST) /\
      exists nd, hashmap_get_node b path = Some nd /\ scan_vtables fb iface vt (n_vtables nd) None = inl x) \/
     (x = - EEXIST /\ exists pre w post, vtable_body vt = pre ++ w :: post /\ In v post /\ member_taken b path iface pre w))).
  assert (HR : P r).
  { eapply (call_sat P); [|exact E]. rewrite mbind_get_eq. unfold P.
    assert (Hinv : - EINVAL < 0) by (unfold EINVAL; lia).
    destruct (negb (object_path_is_valid V path)); [apply sat_return; auto|].
    destruct (negb (interface_name_is_valid V iface)); [apply sat_return; auto|].
    destruct (negb (vtable_type_eqb (type (vtable_start vt)) _SD_BUS_VTABLE_START)); [apply sat_return; auto|].
    destruct (negb (element_size (vtable_start vt) =? sizeof_sd_bus_vtable)); [apply sat_return; auto|].
    destruct (pid_changed b) eqn:Hc; [apply sat_return; split; [unfold ECHILD; lia | auto]|].
    destruct (reserved_interface iface); [apply sat_return; auto|].
    nstep EA n b1; [| exfalso; eapply ner_bus_node_allocate_aux; exact EA].
    destruct (bus_node_allocate_aux_go _ path b n b1 EA) as (TM & TP & Hfresh & Hold).
    assert (Hn : n = path /\ (forall nd, hashmap_get_node b path = Some nd -> b1 = b /\ hashmap_get_node b1 n = Some nd) /\
                 (hashmap_get_node b path = None -> exists nd, hashmap_get_node b1 n = Some nd /\ n_vtables nd = [])).
    { destruct (hashmap_get_node b path) as [nd|] eqn:Hnd.
      - destruct (Hold nd eq_refl) as [-> ->]. rewrite (node_get_path _ _ _ Hnd).
        split; [reflexivity|]. split; [|discriminate]. intros nd' [= <-]. auto.
      - destruct (Hfresh eq_refl) as [-> Hf]. split; [reflexivity|]. split; [discriminate|]. auto. }
    destruct Hn as (-> & Hold' & Hfresh').
    rewrite mbind_get_eq. cbv zeta.
    destruct (scan_vtables fb iface vt _ None) as [r0|ex] eqn:ES.
    + nstep EG y b2; [| exfalso; eapply ner_bus_node_gc; exact EG].
      apply sat_return. split; [exact (scan_vtables_neg _ _ _ _ _ _ ES)|].
      right. right. left. split; [exact (scan_vtables_codes _ _ _ _ _ _ ES)|].
      destruct (hashmap_get_node b path) as [nd|] eqn:Hnd.
      * destruct (Hold' nd eq_refl) as [_ Hg]. rewrite Hg in ES. exists nd. auto.
      * destruct (Hfresh' eq_refl) as [nd [Hg Hv]]. rewrite Hg, Hv in ES. discriminate ES.
    + nstep EN cid b2; [| discriminate EN].
      unfold new_id in EN. injection EN as <- <-.
      nstep EM x b3; [| exfalso; eapply ner_add_members; exact EM].
      pose proof (add_members_rejected V path _ _ v _ x b3 Hin Hb EM) as Hx.
      destruct (x <? 0) eqn:Hlt; [|apply Z.ltb_ge in Hlt; lia].
      nstep EF y b4; [| exfalso; eapply ner_free_node_vtable; exact EF].
      nstep EG z b5; [| exfalso; eapply ner_bus_node_gc; exact EG].
      apply sat_return. split; [exact Hx|].
      destruct (add_members_fail V path _ _ v _ x b3 Hin Hb EM) as [H | [H [pre [w [post [Hl [Hp HT]]]]]]];
        [left; exact H|].
      right. right. right. split; [exact H|]. exists pre, w, post. split; [exact Hl|]. split; [exact Hp|].
      exact (member_taken_tables _ _ _ _ _ _ TM TP HT). }
  split; [exact (proj1 HR)|]. split; [exact (proj2 HR)|].
  intros Hc Hs Hm. destruct HR as [_ [H | [[_ H] | [[_ [nd [Hnd H]]] | [_ [pre [w [post [Hl [Hp HT]]]]]]]]]].
  - exact H.
  - congruence.
  - destruct (Hs nd Hnd) as [ex Hex]. congruence.
  - exfalso. exact (Hm pre w post Hl Hp HT).
Qed.

(** C8 witness: at the fresh node "/c", a method and a valid property
    are accepted before the invalid property, which gives -EINVAL. *)
Lemma add_object_vtable_property_rejected_witness :
  fst (add_object_vtable_internal V_all "/c" "org.example.J" vt_ok_then_bad false None 0 bus_one) = Go (- EINVAL) /\
  (- EINVAL < 0 /\
   (- EINVAL = - EINVAL \/
    (- EINVAL = - ECHILD /\ pid_changed bus_one = true) \/
    ((- EINVAL = - EPROTOTYPE \/ - EINVAL = - EEXIST) /\
     exists nd, hashmap_get_node bus_one "/c" = Some nd /\
       scan_vtables false "org.example.J" vt_ok_then_bad (n_vtables nd) None = inl (- EINVAL)) \/
    (- EINVAL = - EEXIST /\ exists pre w post, vtable_body vt_ok_then_bad = pre ++ w :: post /\ In vt_bad_prop post /\
       member_taken bus_one "/c" "org.example.J" pre w)) /\
   (pid_changed bus_one = false ->
    (forall nd, hashmap_get_node bus_one "/c" = Some nd ->
       exists ex, scan_vtables false "org.example.J" vt_ok_then_bad (n_vtables nd) None = inr ex) ->
    (forall pre w post, vtable_body vt_ok_then_bad = pre ++ w :: post -> In vt_bad_prop post ->
       ~ member_taken bus_one "/c" "org.example.J" pre w) ->
    - EINVAL = - EINVAL)).
Proof.
  split; [vm_compute; reflexivity|].
  apply (add_object_vtable_property_rejected V_all "/c" "org.example.J" vt_ok_then_bad false None 0 bus_one
           (- EINVAL) (snd (add_object_vtable_internal V_all "/c" "org.example.J" vt_ok_then_bad false None 0 bus_one))
           vt_bad_prop);
    [vm_compute; right; right; left; reflexivity | vm_compute; reflexivity | vm_compute; reflexivity].
Defined.
